(** * pdf_reader_9000: the annotation command engine

    A shallow embedding of [core/pdf_document.py], [core/command.py] and of the
    selection-to-rectangle loop of [ui/main_window.py], followed by the
    properties of the specification that are settled on it.  The embedding
    then extends to the saved annotations of a session, the text search and
    the document search of [ui/main_window.py] and to the selection handling
    of [ui/pdf_display_widget.py], with further properties of the code.

    Conventions of the embedding.
    - Python [float] is IEEE binary64: coordinates are primitive floats and
      [rect.x0 -= 1] is the floating-point subtraction.
    - Python [int] is [Z]; [len(l)] is [Z.of_nat (length l)].
    - [fitz.Rect] objects are mutable and shared between a command and the
      records it creates, so they live in a heap ([list Rect], an object is
      its position) and are referred to by location.
    - Annotation dicts are never mutated after creation, and a command
      object is held by one stack entry at a time, so records and commands
      are plain values threaded through the calls.
    - The dicts of [to_dict] have fixed keys; they are records whose fields
      are the keys in the order of the dict literal.
    - A method that can raise returns a [result]. *)

From Stdlib Require Import ZArith List String Ascii Strings.Byte Bool Lia.
From Stdlib Require Import Numbers.Cyclic.Int63.Uint63.
From Stdlib Require Import Floats.PrimFloat Floats.FloatOps Floats.SpecFloat.
From stdpp Require Import base tactics option list list_numbers sorting.

Local Open Scope Z_scope.

(** ** Python values and list operations *)

Module Py.

Inductive exn : Type :=
| TypeError
| ValueError
| OverflowError
| ZeroDivisionError
| IndexError.

Inductive result (A : Type) : Type :=
| Ok (a : A)
| Raise (e : exn).
Arguments Ok {A} a.
Arguments Raise {A} e.

Definition len {A} (l : list A) : Z := Z.of_nat (length l).

(** [list.insert(idx, x)]: a negative index counts from the end, and the
    position is clamped to [0 .. len]. *)
Definition insert_pos {A} (idx : Z) (l : list A) : nat :=
  if idx <? 0 then Z.to_nat (Z.max 0 (len l + idx))
  else Z.to_nat (Z.min idx (len l)).

Definition insert {A} (idx : Z) (x : A) (l : list A) : list A :=
  take (insert_pos idx l) l ++ x :: drop (insert_pos idx l) l.

(** [list.pop()] on a non-empty list: the last element and the rest. *)
Fixpoint pop {A} (l : list A) : option (A * list A) :=
  match l with
  | [] => None
  | x :: l' =>
      match pop l' with
      | None => Some (x, [])
      | Some (y, r) => Some (y, x :: r)
      end
  end.

(** [l[i]] with Python's negative indexing. *)
Definition getitem {A} (l : list A) (i : Z) : result A :=
  let j := if i <? 0 then len l + i else i in
  if j <? 0 then Raise IndexError
  else match l !! Z.to_nat j with
       | Some x => Ok x
       | None => Raise IndexError
       end.

(** [int(f)] on a float: truncation toward zero. *)
Definition int_of_float (f : float) : result Z :=
  match Prim2SF f with
  | S754_zero _ => Ok 0
  | S754_infinity _ => Raise OverflowError
  | S754_nan => Raise ValueError
  | S754_finite s m e =>
      let mag := if 0 <=? e then Z.pos m * 2 ^ e
                 else Z.shiftr (Z.pos m) (- e) in
      Ok (if s then - mag else mag)
  end.

(** [a > f] for an int [a] and a float [f]: Python compares the exact
    values. *)
Definition int_gt_float (a : Z) (f : float) : bool :=
  match Prim2SF f with
  | S754_zero _ => 0 <? a
  | S754_infinity s => s
  | S754_nan => false
  | S754_finite s m e =>
      let v := if s then Z.neg m else Z.pos m in
      if 0 <=? e then v * 2 ^ e <? a else v <? a * 2 ^ (- e)
  end.

(** [min(xs)] and [max(xs)] on a non-empty sequence of floats: the first
    element is kept until a later one compares strictly below (above). *)
Definition min_from (x : float) (xs : list float) : float :=
  fold_left (fun m y => if PrimFloat.ltb y m then y else m) xs x.

Definition max_from (x : float) (xs : list float) : float :=
  fold_left (fun m y => if PrimFloat.ltb m y then y else m) xs x.

End Py.

Import Py.

(** ** Values of the external libraries *)

(** A [fitz.Rect]: four float attributes. *)
Record Rect : Type := mkRect { x0 : float; y0 : float; x1 : float; y1 : float }.

(** A location denotes a [fitz.Rect] object; the heap holds their values. *)
Abbreviation loc := nat.
Abbreviation Heap := (list Rect).

(** A [QColor], seen through the only accessors the code uses: [red()],
    [green()], [blue()] and [alpha()], each an 8-bit value. *)
Module QColor.

Record t : Type := mk { red : byte; green : byte; blue : byte; alpha : byte }.

Definition channel (z : Z) : option byte :=
  if (0 <=? z) && (z <=? 255) then Byte.of_N (Z.to_N z) else None.

(** What the getters of an invalid colour return. *)
Definition invalid : t :=
  {| red := Byte.x00; green := Byte.x00; blue := Byte.x00; alpha := Byte.xff |}.

(** [QColor(r, g, b, a)]: a component outside [0 .. 255] makes the colour
    invalid. *)
Definition rgba (r g b a : Z) : t :=
  match channel r, channel g, channel b, channel a with
  | Some r', Some g', Some b', Some a' =>
      {| red := r'; green := g'; blue := b'; alpha := a' |}
  | _, _, _, _ => invalid
  end.

Definition get (ch : t -> byte) (c : t) : Z := Z.of_N (Byte.to_N (ch c)).

End QColor.

(** The open [fitz.Document] is external.  The one thing
    [remove_annotation] asks of it is to fetch page [page_num] and delete
    that page's highlight annotations; [clear_highlights d p] tells whether
    this completes ([true]) or raises ([false]). *)
Record FitzDoc : Type := { clear_highlights : Z -> bool }.

(** ** core/pdf_document.py *)

(** An annotation dict [{'type', 'rect', 'page', 'color'}]. *)
Record Annotation : Type := mkAnnotation {
  ann_type : string;
  ann_rect : loc;
  ann_page : Z;
  ann_color : QColor.t
}.

(** The state the engine works on: the [fitz.Rect] objects, and the fields
    [doc] and [annotations] of the one [PDFDocument]. *)
Record World : Type := mkWorld {
  heap : Heap;
  doc : option FitzDoc;
  annotations : list Annotation
}.

(** The argument [rect] of [add_highlight]: a [fitz.Rect] object, or some
    other rect-like value, of which [fitz.Rect(rect)] makes a new object. *)
Inductive RectArg : Type :=
| RectObj (l : loc)
| RectLike (r : Rect).

Module PDFDocument.

(** [rect.x0 -= 1; rect.x1 += 1] *)
Definition pad (r : Rect) : Rect :=
  {| x0 := PrimFloat.sub (x0 r) 1; y0 := y0 r;
     x1 := PrimFloat.add (x1 r) 1; y1 := y1 r |}.

(** [add_highlight(rect, page_num, color)]; the method has no [return]. *)
Definition add_highlight (rect : RectArg) (page_num : Z) (color : QColor.t)
    (w : World) : World :=
  let '(l, h) :=
    match rect with
    | RectObj l => (l, heap w)
    | RectLike r => (length (heap w), heap w ++ [r])
    end in
  {| heap := alter pad l h;
     doc := doc w;
     annotations := annotations w ++
       [ {| ann_type := "highlight"%string; ann_rect := l;
            ann_page := page_num; ann_color := color |} ] |}.

(** [remove_annotation(index)] *)
Definition remove_annotation (index : Z) (w : World) : bool * World :=
  if (0 <=? index) && (index <? len (annotations w)) then
    match annotations w !! Z.to_nat index with
    | Some annotation =>
        let popped := delete (Z.to_nat index) (annotations w) in
        match doc w with
        | Some d =>
            if clear_highlights d (ann_page annotation) then
              (true, {| heap := heap w; doc := doc w; annotations := popped |})
            else
              (false, {| heap := heap w; doc := doc w;
                         annotations := Py.insert index annotation popped |})
        | None =>
            (true, {| heap := heap w; doc := doc w; annotations := popped |})
        end
    | None => (false, w)
    end
  else (false, w).

(** The records of one page, in store order (the filter of
    [apply_highlights]). *)
Definition records_for_page (page_num : Z) (w : World) : list Annotation :=
  filter (fun ann => ann_page ann = page_num) (annotations w).

End PDFDocument.

(** ** core/command.py *)

(** The abstract class [Command], as far as [CommandHistory] uses it: the
    two methods take the command object and the state and give back the
    returned value (or the exception raised) with both as the call left
    them. *)
Class Command (C : Type) : Type := {
  command_execute : C -> World -> result bool * C * World;
  command_undo : C -> World -> result bool * C * World
}.

(** The persisted form of a command, the dict of [to_dict]:
    [{'type', 'rects': [{'x0','y0','x1','y1'}], 'page_num',
      'color': {'r','g','b','a'}, 'annotation_indices'}].  The keys read
    with [data.get(key, default)] are optional. *)
Record RectDict : Type := { d_x0 : float; d_y0 : float; d_x1 : float; d_y1 : float }.
Record ColorDict : Type := { c_r : Z; c_g : Z; c_b : Z; c_a : Z }.
Record CommandDict : Type := {
  d_type : string;
  d_rects : list RectDict;
  d_page_num : Z;
  d_color : ColorDict;
  d_annotation_indices : option (list (option Z))
}.

Module HighlightCommand.

Record t : Type := mk {
  rects : list loc;
  page_num : Z;
  color : QColor.t;
  annotation_indices : list (option Z);
  removed_annotations : list Annotation
}.

(** [HighlightCommand(pdf_doc, rects, page_num, color)] *)
Definition new (rects : list loc) (page_num : Z) (color : QColor.t) : t :=
  {| rects := rects; page_num := page_num; color := color;
     annotation_indices := []; removed_annotations := [] |}.

Definition set_annotation_indices (self : t) (v : list (option Z)) : t :=
  {| rects := rects self; page_num := page_num self; color := color self;
     annotation_indices := v; removed_annotations := removed_annotations self |}.

Definition set_removed_annotations (self : t) (v : list Annotation) : t :=
  {| rects := rects self; page_num := page_num self; color := color self;
     annotation_indices := annotation_indices self; removed_annotations := v |}.

Definition set_annotations (w : World) (v : list Annotation) : World :=
  {| heap := heap w; doc := doc w; annotations := v |}.

(** One round of the restoring loop of [execute]; the assignment to the
    loop variable [idx] after the [append] has no effect. *)
Definition restore (idx : option Z) (annotation : Annotation) (w : World) : World :=
  match idx with
  | Some i =>
      if i <=? len (annotations w)
      then set_annotations w (Py.insert i annotation (annotations w))
      else set_annotations w (annotations w ++ [annotation])
  | None => set_annotations w (annotations w ++ [annotation])
  end.

(** [for idx, annotation in zip(self.annotation_indices,
    self.removed_annotations)] *)
Fixpoint restore_all (indices : list (option Z)) (removed : list Annotation)
    (w : World) : World :=
  match indices, removed with
  | idx :: indices', annotation :: removed' =>
      restore_all indices' removed' (restore idx annotation w)
  | _, _ => w
  end.

(** [for rect in self.rects]: add the highlight, record its index. *)
Fixpoint add_all (rs : list loc) (page_num : Z) (color : QColor.t)
    (indices : list (option Z)) (w : World) : list (option Z) * World :=
  match rs with
  | [] => (indices, w)
  | rect :: rs' =>
      let w' := PDFDocument.add_highlight (RectObj rect) page_num color w in
      add_all rs' page_num color
        (indices ++ [Some (len (annotations w') - 1)]) w'
  end.

Definition execute (self : t) (w : World) : bool * t * World :=
  match removed_annotations self with
  | _ :: _ =>
      (true, set_removed_annotations self [],
       restore_all (annotation_indices self) (removed_annotations self) w)
  | [] =>
      let '(indices, w') :=
        add_all (rects self) (page_num self) (color self)
                (annotation_indices self) w in
      (true, set_annotation_indices self indices, w')
  end.

(** The loop of [undo] over [reversed(self.annotation_indices)];
    [removed] is [self.removed_annotations].  Comparing [None] with an
    int raises [TypeError]. *)
Fixpoint undo_loop (indices : list (option Z)) (removed : list Annotation)
    (w : World) : result bool * list Annotation * World :=
  match indices with
  | [] => (Ok true, removed, w)
  | None :: _ => (Raise TypeError, removed, w)
  | Some idx :: indices' =>
      if (0 <=? idx) && (idx <? len (annotations w)) then
        match annotations w !! Z.to_nat idx with
        | Some annotation =>
            let removed' := annotation :: removed in
            let '(ok, w') := PDFDocument.remove_annotation idx w in
            if ok then undo_loop indices' removed' w'
            else (Ok false, removed', w')
        | None => (Raise IndexError, removed, w)
        end
      else undo_loop indices' removed w
  end.

Definition undo (self : t) (w : World) : result bool * t * World :=
  match annotation_indices self with
  | [] => (Ok false, self, w)
  | _ :: _ =>
      let '(r, removed, w') := undo_loop (rev (annotation_indices self)) [] w in
      (r, set_removed_annotations self removed, w')
  end.

Definition rect_to_dict (r : Rect) : RectDict :=
  {| d_x0 := x0 r; d_y0 := y0 r; d_x1 := x1 r; d_y1 := y1 r |}.

Definition rect_of_dict (d : RectDict) : Rect :=
  {| x0 := d_x0 d; y0 := d_y0 d; x1 := d_x1 d; y1 := d_y1 d |}.

Definition color_to_dict (c : QColor.t) : ColorDict :=
  {| c_r := QColor.get QColor.red c; c_g := QColor.get QColor.green c;
     c_b := QColor.get QColor.blue c; c_a := QColor.get QColor.alpha c |}.

(** [to_dict()]; the coordinates are read from the [fitz.Rect] objects as
    they are now.  [None] only if a location denotes no object. *)
Definition to_dict (h : Heap) (self : t) : option CommandDict :=
  rs ← mapM (fun l => h !! l) (rects self);
  Some {| d_type := "highlight"%string;
          d_rects := map rect_to_dict rs;
          d_page_num := page_num self;
          d_color := color_to_dict (color self);
          d_annotation_indices := Some (annotation_indices self) |}.

(** [from_dict(data, pdf_doc)]: new [fitz.Rect] objects, a new [QColor],
    the constructor, then the indices from the dict. *)
Definition from_dict (data : CommandDict) (h : Heap) : t * Heap :=
  let rs := map rect_of_dict (d_rects data) in
  let color := QColor.rgba (c_r (d_color data)) (c_g (d_color data))
                           (c_b (d_color data)) (c_a (d_color data)) in
  let command := new (seq (length h) (length rs)) (d_page_num data) color in
  (set_annotation_indices command
     (default [] (d_annotation_indices data)),
   h ++ rs).

End HighlightCommand.

#[export] Instance HighlightCommand_Command : Command HighlightCommand.t := {
  command_execute self w :=
    let '(b, self', w') := HighlightCommand.execute self w in (Ok b, self', w');
  command_undo := HighlightCommand.undo
}.

(** The dict of [CommandHistory.to_dict]. *)
Record HistoryDict : Type := {
  h_undo_stack : option (list CommandDict);
  h_redo_stack : option (list CommandDict);
  h_max_stack_size : option Z
}.

Module CommandHistory.

(** The stacks are Python lists: the oldest entry first, the top last. *)
Record t (C : Type) : Type := mk {
  undo_stack : list C;
  redo_stack : list C;
  max_stack_size : Z
}.
Arguments mk {C} _ _ _.
Arguments undo_stack {C} _.
Arguments redo_stack {C} _.
Arguments max_stack_size {C} _.

Section Protocol.
Context {C : Type} `{Command C}.

Definition new (max_stack_size : Z) : t C :=
  {| undo_stack := []; redo_stack := []; max_stack_size := max_stack_size |}.

Definition will_lose_redo_history (self : t C) : bool :=
  len (redo_stack self) >? 0.

(** [stack.append(command)], then [stack.pop(0)] if the stack is now
    longer than the cap. *)
Definition push (max_stack_size : Z) (stack : list C) (command : C) : list C :=
  let stack' := stack ++ [command] in
  if len stack' >? max_stack_size then drop 1 stack' else stack'.

Definition execute (self : t C) (command : C) (w : World)
    : result bool * t C * World :=
  match command_execute command w with
  | (Ok true, command', w') =>
      (Ok true,
       {| undo_stack := push (max_stack_size self) (undo_stack self) command';
          redo_stack := [];
          max_stack_size := max_stack_size self |},
       w')
  | (r, _, w') => (r, self, w')
  end.

Definition undo (self : t C) (w : World) : result bool * t C * World :=
  match Py.pop (undo_stack self) with
  | None => (Ok false, self, w)
  | Some (command, rest) =>
      match command_undo command w with
      | (Ok true, command', w') =>
          (Ok true,
           {| undo_stack := rest;
              redo_stack := push (max_stack_size self) (redo_stack self) command';
              max_stack_size := max_stack_size self |},
           w')
      | (r, _, w') =>
          (r,
           {| undo_stack := rest; redo_stack := redo_stack self;
              max_stack_size := max_stack_size self |},
           w')
      end
  end.

Definition redo (self : t C) (w : World) : result bool * t C * World :=
  match Py.pop (redo_stack self) with
  | None => (Ok false, self, w)
  | Some (command, rest) =>
      match command_execute command w with
      | (Ok true, command', w') =>
          (Ok true,
           {| undo_stack := push (max_stack_size self) (undo_stack self) command';
              redo_stack := rest;
              max_stack_size := max_stack_size self |},
           w')
      | (r, _, w') =>
          (r,
           {| undo_stack := undo_stack self; redo_stack := rest;
              max_stack_size := max_stack_size self |},
           w')
      end
  end.

Definition clear (self : t C) : t C :=
  {| undo_stack := []; redo_stack := []; max_stack_size := max_stack_size self |}.

(** The calls a caller can make on a history, and a run of them. *)
Inductive call : Type :=
| CallExecute (command : C)
| CallUndo
| CallRedo.

Definition step (c : call) (sw : t C * World) : t C * World :=
  let '(r, self', w') :=
    match c with
    | CallExecute command => execute sw.1 command sw.2
    | CallUndo => undo sw.1 sw.2
    | CallRedo => redo sw.1 sw.2
    end in
  (self', w').

Definition run (calls : list call) (sw : t C * World) : t C * World :=
  fold_left (fun sw c => step c sw) calls sw.

End Protocol.

(** [to_dict()] of a history of highlight commands. *)
Definition to_dict (h : Heap) (self : t HighlightCommand.t) : option HistoryDict :=
  us ← mapM (HighlightCommand.to_dict h) (undo_stack self);
  rs ← mapM (HighlightCommand.to_dict h) (redo_stack self);
  Some {| h_undo_stack := Some us; h_redo_stack := Some rs;
          h_max_stack_size := Some (max_stack_size self) |}.

(** One of the two loops of [load_from_dict]: entries whose type is not
    ['highlight'] are passed over. *)
Fixpoint load_stack (data : list CommandDict) (stack : list HighlightCommand.t)
    (h : Heap) : list HighlightCommand.t * Heap :=
  match data with
  | [] => (stack, h)
  | cmd_data :: data' =>
      if String.eqb (d_type cmd_data) "highlight" then
        let '(command, h') := HighlightCommand.from_dict cmd_data h in
        load_stack data' (stack ++ [command]) h'
      else load_stack data' stack h
  end.

Definition load_from_dict (self : t HighlightCommand.t) (data : HistoryDict)
    (h : Heap) : t HighlightCommand.t * Heap :=
  let cleared := clear self in
  let max := default 100 (h_max_stack_size data) in
  let '(us, h1) := load_stack (default [] (h_undo_stack data))
                              (undo_stack cleared) h in
  let '(rs, h2) := load_stack (default [] (h_redo_stack data))
                              (redo_stack cleared) h1 in
  ({| undo_stack := us; redo_stack := rs; max_stack_size := max |}, h2).

End CommandHistory.

(** ** ui/main_window.py: from the selection to rectangles *)

(** A character hit-box, the dict [{'x', 'y', 'width', 'height'}] in screen
    coordinates, and an entry [{'text', 'rect'}] of [text_blocks].  Where
    [render_pdf] clamps a coordinate to the int 0 or 1, the float of the
    same value stands for it: the arithmetic below gives the same results. *)
Record CharRect : Type := { x : float; y : float; width : float; height : float }.
Record TextBlock : Type := { text : string; rect : CharRect }.

Module MainWindow.

(** The rectangle of one line, appended to [selected_rects] when
    [current_line] is not empty.  Dividing by a zero [zoom_level] raises. *)
Definition close_line (current_line : list CharRect) (zoom_level : float)
    (selected_rects : list Rect) : result (list Rect) :=
  match current_line with
  | [] => Ok selected_rects
  | first :: others =>
      let x_start := Py.min_from (x first) (map x others) in
      let x_end :=
        Py.max_from (PrimFloat.add (x first) (width first))
                    (map (fun r => PrimFloat.add (x r) (width r)) others) in
      if PrimFloat.eqb zoom_level 0 then Raise ZeroDivisionError
      else Ok (selected_rects ++
               [ {| x0 := PrimFloat.div x_start zoom_level;
                    y0 := PrimFloat.div (y first) zoom_level;
                    x1 := PrimFloat.div x_end zoom_level;
                    y1 := PrimFloat.div (PrimFloat.add (y first) (height first))
                                        zoom_level |} ])
  end.

(** [current_y is None or abs(y - current_y) > rect['height'] * 0.5] *)
Definition new_line (current_y : option Z) (y_int : Z) (r : CharRect) : bool :=
  match current_y with
  | None => true
  | Some cy => Py.int_gt_float (Z.abs (y_int - cy)) (PrimFloat.mul (height r) 0.5)
  end.

(** [for i in range(start_idx, end_idx + 1)]; the result is
    [selected_rects] and [current_line] when the loop ends or breaks. *)
Fixpoint group_lines (text_blocks : list TextBlock) (indices : list Z)
    (zoom_level : float) (selected_rects : list Rect)
    (current_line : list CharRect) (current_y : option Z)
    : result (list Rect * list CharRect) :=
  match indices with
  | [] => Ok (selected_rects, current_line)
  | i :: indices' =>
      if i >=? len text_blocks then Ok (selected_rects, current_line)
      else
        match Py.getitem text_blocks i with
        | Raise e => Raise e
        | Ok block =>
            match Py.int_of_float (y (rect block)) with
            | Raise e => Raise e
            | Ok y_int =>
                if new_line current_y y_int (rect block) then
                  match close_line current_line zoom_level selected_rects with
                  | Raise e => Raise e
                  | Ok selected_rects' =>
                      group_lines text_blocks indices' zoom_level
                        selected_rects' [rect block] (Some y_int)
                  end
                else
                  group_lines text_blocks indices' zoom_level
                    selected_rects (current_line ++ [rect block]) current_y
            end
        end
  end.

(** The list [selected_rects] that [highlight_selected_text] builds from
    the page's [text_blocks], an active selection and the zoom level. *)
Definition selected_rects (text_blocks : list TextBlock)
    (selection_start selection_end : Z) (zoom_level : float)
    : result (list Rect) :=
  let start_idx := Z.min selection_start selection_end in
  let end_idx := Z.max selection_start selection_end in
  match group_lines text_blocks (seqZ start_idx (end_idx + 1 - start_idx))
                    zoom_level [] [] None with
  | Raise e => Raise e
  | Ok (selected, current_line) => close_line current_line zoom_level selected
  end.

End MainWindow.

(** ** Notions used in the statements *)

(** The region a record currently shows: the value of its [fitz.Rect]. *)
Definition region (w : World) (ann : Annotation) : option Rect :=
  heap w !! ann_rect ann.

(** What can be observed of a record: its type, region, page and colour. *)
Definition record_view (w : World) (ann : Annotation)
    : string * option Rect * Z * QColor.t :=
  (ann_type ann, region w ann, ann_page ann, ann_color ann).

(** The records a first execution appends for the rectangles [rs]. *)
Definition new_records (rs : list loc) (page_num : Z) (color : QColor.t)
    : list Annotation :=
  map (fun l => {| ann_type := "highlight"%string; ann_rect := l;
                   ann_page := page_num; ann_color := color |}) rs.

(** The page clean-up of [remove_annotation] does not raise for [page_num]:
    no document is open, or the document completes it. *)
Definition removal_succeeds (w : World) (page_num : Z) : bool :=
  match doc w with
  | None => true
  | Some d => clear_highlights d page_num
  end.

Definition yellow : QColor.t :=
  {| QColor.red := Byte.xff; QColor.green := Byte.xff;
     QColor.blue := Byte.x00; QColor.alpha := Byte.x80 |}.

(** Both stacks of a history are within the depth cap. *)
Definition within_cap {C : Type} (self : CommandHistory.t C) : Prop :=
  len (CommandHistory.undo_stack self) <= CommandHistory.max_stack_size self
  /\ len (CommandHistory.redo_stack self) <= CommandHistory.max_stack_size self.

(** A freshly constructed command, by the arguments of its constructor;
    the command once executed on a store of [start] records; and the same
    for a run of fresh commands executed one after the other. *)
Definition fresh (spec : list loc * Z * QColor.t) : HighlightCommand.t :=
  HighlightCommand.new spec.1.1 spec.1.2 spec.2.

Definition applied (start : Z) (spec : list loc * Z * QColor.t) : HighlightCommand.t :=
  HighlightCommand.set_annotation_indices (fresh spec)
    (Some <$> seqZ start (len spec.1.1)).

Fixpoint applied_all (start : Z) (specs : list (list loc * Z * QColor.t))
    : list HighlightCommand.t :=
  match specs with
  | [] => []
  | spec :: specs' => applied start spec :: applied_all (start + len spec.1.1) specs'
  end.

Definition all_records (specs : list (list loc * Z * QColor.t)) : list Annotation :=
  flat_map (fun spec => new_records spec.1.1 spec.1.2 spec.2) specs.

Definition execute_fresh (spec : list loc * Z * QColor.t)
    : CommandHistory.call (C := HighlightCommand.t) :=
  CommandHistory.CallExecute (fresh spec).

(** An open document of three pages, for the examples: [self.doc[page_num]]
    raises when [page_num] is not one of its pages (the pages are 0, 1, 2,
    and -3, -2, -1 counting from the end). *)
Definition three_pages : FitzDoc :=
  {| clear_highlights := fun page_num => (-3 <=? page_num) && (page_num <? 3) |}.

(** The rectangle of a visual line in the words of the specification: from
    the minimum [x] to the maximum [x + width] of the line's hit-boxes, with
    the [y] and [height] of the first box, all divided by the zoom factor. *)
Definition line_extent (first : CharRect) (others : list CharRect)
    (zoom_level : float) : Rect :=
  {| x0 := PrimFloat.div (Py.min_from (x first) (x <$> others)) zoom_level;
     y0 := PrimFloat.div (y first) zoom_level;
     x1 := PrimFloat.div
             (Py.max_from (PrimFloat.add (x first) (width first))
                ((fun r => PrimFloat.add (x r) (width r)) <$> others))
             zoom_level;
     y1 := PrimFloat.div (PrimFloat.add (y first) (height first)) zoom_level |}.


(** A hit-box of width 6 and height 10, for the examples. *)
Definition hit_box (c : string) (bx by_ : float) : TextBlock :=
  {| text := c; rect := {| x := bx; y := by_; width := 6; height := 10 |} |}.

(** ** ui/main_window.py: the annotations of a saved session *)

(** An entry of the list [annotations_data] that is saved with the
    session: [{'type', 'page', 'color': {'r','g','b','a'},
    'rect': {'x0','y0','x1','y1'}}]. *)
Record AnnotationDict : Type := {
  a_type : string;
  a_page : Z;
  a_color : ColorDict;
  a_rect : RectDict
}.

Module Session.

(** The loop of [save_current_session] over [self.pdf_doc.annotations];
    [None] only if a record refers to no [fitz.Rect]. *)
Definition annotation_to_dict (h : Heap) (ann : Annotation) : option AnnotationDict :=
  r ← h !! ann_rect ann;
  Some {| a_type := ann_type ann;
          a_page := ann_page ann;
          a_color := HighlightCommand.color_to_dict (ann_color ann);
          a_rect := HighlightCommand.rect_to_dict r |}.

Definition annotations_data (w : World) : option (list AnnotationDict) :=
  mapM (annotation_to_dict (heap w)) (annotations w).

(** One round of the restoring loop of [load_last_session]: a new
    [QColor], a new [fitz.Rect] with the saved coordinates, and
    [add_highlight] on that object. *)
Definition restore_annotation (ann_dict : AnnotationDict) (w : World) : World :=
  let color := QColor.rgba (c_r (a_color ann_dict)) (c_g (a_color ann_dict))
                           (c_b (a_color ann_dict)) (c_a (a_color ann_dict)) in
  let rect := length (heap w) in
  let w1 := {| heap := heap w ++ [HighlightCommand.rect_of_dict (a_rect ann_dict)];
               doc := doc w; annotations := annotations w |} in
  PDFDocument.add_highlight (RectObj rect) (a_page ann_dict) color w1.

Definition restore_annotations (data : list AnnotationDict) (w : World) : World :=
  fold_left (fun w ann_dict => restore_annotation ann_dict w) data w.

End Session.

(** ** ui/pdf_display_widget.py and the text search of main_window.py *)

(** A Python [str] is a string whose elements stand for its characters;
    [str.isspace] is taken as a parameter. *)
Module PDFDisplayWidget.

(** The float of a non-negative int below [2^63], as the arithmetic of an
    int with a float takes it (exact below [2^53]). *)
Definition float_of_int (z : Z) : float := PrimFloat.of_uint63 (Uint63.of_Z z).

(** The hit-box of the [i]-th character [char] of a block. *)
Definition char_block (block : TextBlock) (char_width : float) (i : nat) (char : ascii)
    : TextBlock :=
  {| text := String char EmptyString;
     rect := {| x := PrimFloat.add (x (rect block))
                       (PrimFloat.mul (float_of_int (Z.of_nat i)) char_width);
                y := y (rect block);
                width := char_width;
                height := height (rect block) |} |}.

(** The character hit-boxes of one block; a block without text has none
    (and is passed over before the division by [len(text)]). *)
Definition chars_of_block (block : TextBlock) : list TextBlock :=
  match text block with
  | EmptyString => []
  | String _ _ =>
      let char_width :=
        PrimFloat.div (width (rect block))
                      (float_of_int (Z.of_nat (String.length (text block)))) in
      imap (char_block block char_width) (list_ascii_of_string (text block))
  end.

(** [set_text_blocks(blocks)]: the new value of [self.text_blocks]. *)
Definition set_text_blocks (blocks : list TextBlock) : list TextBlock :=
  flat_map chars_of_block blocks.

Section WordBoundaries.
Variable isspace : string -> bool.

(** [while start > 0 and not self.text_blocks[start-1]['text'].isspace():
    start -= 1]; the loop runs at most [start] times. *)
Fixpoint word_start (text_blocks : list TextBlock) (rounds : nat) (start : Z)
    : result Z :=
  match rounds with
  | O => Ok start
  | S rounds' =>
      if start >? 0 then
        match Py.getitem text_blocks (start - 1) with
        | Raise e => Raise e
        | Ok block =>
            if isspace (text block) then Ok start
            else word_start text_blocks rounds' (start - 1)
        end
      else Ok start
  end.

(** [while end < len(self.text_blocks)-1 and not
    self.text_blocks[end+1]['text'].isspace(): end += 1]; the loop runs at
    most [len - 1 - end] times. *)
Fixpoint word_end (text_blocks : list TextBlock) (rounds : nat) (end_ : Z)
    : result Z :=
  match rounds with
  | O => Ok end_
  | S rounds' =>
      if end_ <? len text_blocks - 1 then
        match Py.getitem text_blocks (end_ + 1) with
        | Raise e => Raise e
        | Ok block =>
            if isspace (text block) then Ok end_
            else word_end text_blocks rounds' (end_ + 1)
        end
      else Ok end_
  end.

(** [find_word_boundaries(char_idx)]; [None] stands for the pair
    [(None, None)]. *)
Definition find_word_boundaries (text_blocks : list TextBlock) (char_idx : option Z)
    : result (option (Z * Z)) :=
  match char_idx, text_blocks with
  | None, _ => Ok None
  | _, [] => Ok None
  | Some idx, _ :: _ =>
      match word_start text_blocks (Z.to_nat idx) idx with
      | Raise e => Raise e
      | Ok start =>
          match word_end text_blocks (Z.to_nat (len text_blocks - 1 - idx)) idx with
          | Raise e => Raise e
          | Ok end_ => Ok (Some (start, end_))
          end
      end
  end.

End WordBoundaries.

(** The text that [update_selection] hands to the main window:
    [''.join(self.text_blocks[i]['text'] for i in range(start_idx,
    end_idx + 1))]. *)
Fixpoint join_texts (text_blocks : list TextBlock) (indices : list Z) : result string :=
  match indices with
  | [] => Ok EmptyString
  | i :: indices' =>
      match Py.getitem text_blocks i with
      | Raise e => Raise e
      | Ok block =>
          match join_texts text_blocks indices' with
          | Raise e => Raise e
          | Ok s => Ok (String.append (text block) s)
          end
      end
  end.

Definition selected_text (text_blocks : list TextBlock)
    (selection_start selection_end : Z) : result string :=
  let start_idx := Z.min selection_start selection_end in
  let end_idx := Z.max selection_start selection_end in
  join_texts text_blocks (seqZ start_idx (end_idx + 1 - start_idx)).

(** [a >= f] and [a <= f] for an int [a] and a float [f]: Python compares
    the exact values. *)
Definition int_ge_float (a : Z) (f : float) : bool :=
  match Prim2SF f with
  | S754_zero _ => 0 <=? a
  | S754_infinity s => s
  | S754_nan => false
  | S754_finite s m e =>
      let v := if s then Z.neg m else Z.pos m in
      if 0 <=? e then v * 2 ^ e <=? a else v <=? a * 2 ^ (- e)
  end.

Definition int_le_float (a : Z) (f : float) : bool :=
  match Prim2SF f with
  | S754_zero _ => a <=? 0
  | S754_infinity s => negb s
  | S754_nan => false
  | S754_finite s m e =>
      let v := if s then Z.neg m else Z.pos m in
      if 0 <=? e then a <=? v * 2 ^ e else a * 2 ^ (- e) <=? v
  end.

(** The float of an int that may be negative, as in [pos.x() - f]; the
    coordinates of a [QPoint] are 32-bit. *)
Definition float_of_Z (z : Z) : float :=
  if z <? 0 then PrimFloat.opp (float_of_int (- z)) else float_of_int z.

(** [pos.y() >= rect['y'] and pos.y() <= rect['y'] + rect['height']] *)
Definition within_vertical_bounds (pos_y : Z) (r : CharRect) : bool :=
  int_ge_float pos_y (y r) && int_le_float pos_y (PrimFloat.add (y r) (height r)).

(** [for idx, block in enumerate(self.text_blocks)], from block [idx] on. *)
Fixpoint nearest_from (blocks : list TextBlock) (idx : nat) (pos_x pos_y : Z)
    (min_dist : float) (nearest_idx : option Z) : option Z :=
  match blocks with
  | [] => nearest_idx
  | block :: blocks' =>
      if within_vertical_bounds pos_y (rect block) then
        let char_center_x :=
          PrimFloat.add (x (rect block)) (PrimFloat.div (width (rect block)) 2) in
        let dist := PrimFloat.abs (PrimFloat.sub (float_of_Z pos_x) char_center_x) in
        if PrimFloat.ltb dist min_dist
        then nearest_from blocks' (S idx) pos_x pos_y dist (Some (Z.of_nat idx))
        else nearest_from blocks' (S idx) pos_x pos_y min_dist nearest_idx
      else nearest_from blocks' (S idx) pos_x pos_y min_dist nearest_idx
  end.

Definition find_nearest_char (text_blocks : list TextBlock) (pos_x pos_y : Z)
    : option Z :=
  nearest_from text_blocks 0 pos_x pos_y PrimFloat.infinity None.

(** The attributes that the mouse handlers change, and the text that
    [update_selection] last handed to the main window
    ([current_selection_info['text']]). *)
Record State : Type := mkState {
  selection_start : option Z;
  selection_end : option Z;
  is_selecting : bool;
  current_selection_text : option string
}.

Definition initial : State :=
  {| selection_start := None; selection_end := None; is_selecting := false;
     current_selection_text := None |}.

(** The mouse events, with what the handlers read of them: whether the
    button is the left one, whether the modifiers are exactly Shift, and
    the position. *)
Inductive MouseEvent : Type :=
| MousePress (left_button shift : bool) (pos_x pos_y : Z)
| MouseDoubleClick (left_button : bool) (pos_x pos_y : Z)
| MouseMove (pos_x pos_y : Z)
| MouseRelease (left_button : bool).

Section Mouse.
Variable isspace : string -> bool.
Variable text_blocks : list TextBlock.

Definition update_selection (st : State) : result State :=
  match selection_start st, selection_end st with
  | Some s, Some e =>
      match selected_text text_blocks s e with
      | Raise exn => Raise exn
      | Ok t =>
          Ok {| selection_start := selection_start st;
                selection_end := selection_end st;
                is_selecting := is_selecting st;
                current_selection_text := Some t |}
      end
  | _, _ => Ok st
  end.

Definition mousePressEvent (st : State) (left_button shift : bool)
    (pos_x pos_y : Z) : result State :=
  if left_button then
    match find_nearest_char text_blocks pos_x pos_y with
    | None => Ok st
    | Some char_idx =>
        let extend :=
          shift && match selection_start st with Some _ => true | None => false end in
        update_selection
          {| selection_start := if extend then selection_start st else Some char_idx;
             selection_end := Some char_idx;
             is_selecting := true;
             current_selection_text := current_selection_text st |}
    end
  else Ok st.

Definition mouseDoubleClickEvent (st : State) (left_button : bool)
    (pos_x pos_y : Z) : result State :=
  if left_button then
    match find_nearest_char text_blocks pos_x pos_y with
    | None => Ok st
    | Some char_idx =>
        match find_word_boundaries isspace text_blocks (Some char_idx) with
        | Raise exn => Raise exn
        | Ok bounds =>
            update_selection
              {| selection_start := fst <$> bounds;
                 selection_end := snd <$> bounds;
                 is_selecting := is_selecting st;
                 current_selection_text := current_selection_text st |}
        end
    end
  else Ok st.

Definition mouseMoveEvent (st : State) (pos_x pos_y : Z) : result State :=
  if is_selecting st then
    match find_nearest_char text_blocks pos_x pos_y with
    | None => Ok st
    | Some char_idx =>
        update_selection
          {| selection_start := selection_start st;
             selection_end := Some char_idx;
             is_selecting := is_selecting st;
             current_selection_text := current_selection_text st |}
    end
  else Ok st.

Definition mouseReleaseEvent (st : State) (left_button : bool) : State :=
  if left_button
  then {| selection_start := selection_start st;
          selection_end := selection_end st;
          is_selecting := false;
          current_selection_text := current_selection_text st |}
  else st.

Definition handle (st : State) (ev : MouseEvent) : result State :=
  match ev with
  | MousePress left_button shift pos_x pos_y =>
      mousePressEvent st left_button shift pos_x pos_y
  | MouseDoubleClick left_button pos_x pos_y =>
      mouseDoubleClickEvent st left_button pos_x pos_y
  | MouseMove pos_x pos_y => mouseMoveEvent st pos_x pos_y
  | MouseRelease left_button => Ok (mouseReleaseEvent st left_button)
  end.

(** The handlers run on a sequence of events, up to the first one that
    raises. *)
Fixpoint handle_all (st : State) (events : list MouseEvent) : result State :=
  match events with
  | [] => Ok st
  | ev :: events' =>
      match handle st ev with
      | Raise exn => Raise exn
      | Ok st' => handle_all st' events'
      end
  end.

End Mouse.

End PDFDisplayWidget.

(** The search of [highlight_selected_text] for the text of the last
    selection, when the widget has no active selection. *)
Module TextSearch.

(** [for j, char in enumerate(text[1:], 1)]: [k] is [i + j]. *)
Fixpoint rest_matches (text_blocks : list TextBlock) (k : nat) (chars : list ascii)
    : bool :=
  match chars with
  | [] => true
  | char :: chars' =>
      match text_blocks !! k with
      | None => false
      | Some block =>
          if String.eqb (text block) (String char EmptyString)
          then rest_matches text_blocks (S k) chars'
          else false
      end
  end.

(** [for i, block in enumerate(page_widget.text_blocks)], from block [i]
    on. *)
Fixpoint find_from (text_blocks blocks : list TextBlock) (i : nat)
    (first : ascii) (rest : list ascii) : option nat :=
  match blocks with
  | [] => None
  | block :: blocks' =>
      if String.eqb (text block) (String first EmptyString)
         && rest_matches text_blocks (S i) rest
      then Some i
      else find_from text_blocks blocks' (S i) first rest
  end.

(** The selection [(selection_start, selection_end)] that the search sets,
    or [None] when the text is empty or not found. *)
Definition find_text (text_blocks : list TextBlock) (text_ : string)
    : option (Z * Z) :=
  match list_ascii_of_string text_ with
  | [] => None
  | first :: rest =>
      match find_from text_blocks text_blocks 0 first rest with
      | None => None
      | Some i => Some (Z.of_nat i, Z.of_nat i + Z.of_nat (String.length text_) - 1)
      end
  end.

End TextSearch.

(** ** ui/main_window.py: the document search *)

(** The methods of [str] that [perform_search] calls, a [str] being the
    list of its characters. *)
Module Str.

(** [text.startswith(sub)] *)
Fixpoint startswith (text sub : list ascii) : bool :=
  match sub, text with
  | [], _ => true
  | _ :: _, [] => false
  | c :: sub', d :: text' => Ascii.eqb c d && startswith text' sub'
  end.

(** The lowest index at which [sub] starts in [text], which is the part
    from index [i] on of the whole string. *)
Fixpoint find_from (sub text : list ascii) (i : nat) {struct text} : option nat :=
  if startswith text sub then Some i
  else match text with
       | [] => None
       | _ :: text' => find_from sub text' (S i)
       end.

(** [text.find(sub, start)]: the lowest index at or after [start] where
    [sub] occurs, or [-1]; a negative [start] counts from the end. *)
Definition find (text sub : list ascii) (start : Z) : Z :=
  let start' := if start <? 0 then Z.max 0 (len text + start) else start in
  if len text <? start' then -1
  else match find_from sub (drop (Z.to_nat start') text) (Z.to_nat start') with
       | Some i => Z.of_nat i
       | None => -1
       end.

(** [sub in text] *)
Definition contains (text sub : list ascii) : bool :=
  negb (find text sub 0 =? -1).

End Str.

Module Search.

(** An entry [(page_num, idx, idx + len(query))] of [search_results]. *)
Abbreviation Hit := (Z * Z * Z)%type.

(** The [while True] loop over one page, for at most [fuel] rounds: [None]
    when the rounds do not suffice. *)
Fixpoint find_matches (fuel : nat) (page_num : Z) (text query : list ascii)
    (start_idx : Z) (search_results : list Hit) : option (list Hit) :=
  match fuel with
  | O => None
  | S fuel' =>
      let idx := Str.find text query start_idx in
      if idx =? -1 then Some search_results
      else find_matches fuel' page_num text query (idx + len query)
             (search_results ++ [(page_num, idx, idx + len query)])
  end.

Section PerformSearch.
(** [str.lower] *)
Variable lower : list ascii -> list ascii.

(** [for page_num, text in enumerate(self.pdf_doc.page_text_data)], from
    page [page_num] on. *)
Fixpoint search_pages (fuel : nat) (texts : list (list ascii)) (page_num : Z)
    (query : list ascii) (search_results : list Hit) : option (list Hit) :=
  match texts with
  | [] => Some search_results
  | text :: texts' =>
      if Str.contains (lower text) query then
        match find_matches fuel page_num (lower text) query 0 search_results with
        | None => None
        | Some search_results' =>
            search_pages fuel texts' (page_num + 1) query search_results'
        end
      else search_pages fuel texts' (page_num + 1) query search_results
  end.

(** The list [search_results] that [perform_search] builds for the text of
    the search field. *)
Definition perform_search (fuel : nat) (page_text_data : list (list ascii))
    (field_text : list ascii) : option (list Hit) :=
  search_pages fuel page_text_data 0 (lower field_text) [].

End PerformSearch.

End Search.

(** ** Notions used in the further statements *)

(** The saved entry of a record once it has been restored: the same page
    and colour, the type ['highlight'], and the rectangle padded once
    more. *)
Definition repadded (d : AnnotationDict) : AnnotationDict :=
  {| a_type := "highlight"%string;
     a_page := a_page d;
     a_color := a_color d;
     a_rect := HighlightCommand.rect_to_dict
                 (PDFDocument.pad (HighlightCommand.rect_of_dict (a_rect d))) |}.

(** A colour dict whose four components are within [0 .. 255]. *)
Definition channels_in_range (c : ColorDict) : Prop :=
  0 <= c_r c <= 255 /\ 0 <= c_g c <= 255 /\ 0 <= c_b c <= 255 /\ 0 <= c_a c <= 255.


(** The command that [from_dict] builds from a dict, up to the identity of
    its [fitz.Rect] objects: page, colour and indices from the dict (no
    indices when the key is missing), nothing pending, and rectangles that
    hold the dict's coordinates in the heap [h] and in every extension of
    it. *)
Definition rebuilt_from (h : Heap) (c : HighlightCommand.t) (d : CommandDict) : Prop :=
  HighlightCommand.page_num c = d_page_num d
  /\ HighlightCommand.color c
     = QColor.rgba (c_r (d_color d)) (c_g (d_color d))
                   (c_b (d_color d)) (c_a (d_color d))
  /\ HighlightCommand.annotation_indices c = default [] (d_annotation_indices d)
  /\ HighlightCommand.removed_annotations c = []
  /\ forall h2, mapM (fun l => (h ++ h2) !! l) (HighlightCommand.rects c)
                = Some (HighlightCommand.rect_of_dict <$> d_rects d).

(** The hit-boxes of a selection from [start_idx] to [end_idx], both
    included, as far as [text_blocks] reaches. *)
Definition selected_boxes (text_blocks : list TextBlock) (start_idx end_idx : Z)
    : list TextBlock :=
  take (Z.to_nat (end_idx + 1 - start_idx)) (drop (Z.to_nat start_idx) text_blocks).

(** A line as the loop collects it, its first box and the others; its
    boxes; and its rectangle at a zoom factor. *)
Definition line_boxes (g : CharRect * list CharRect) : list CharRect := g.1 :: g.2.

Definition line_rectangle (zoom_level : float) (g : CharRect * list CharRect) : Rect :=
  line_extent g.1 g.2 zoom_level.

(** [int(rect['y'])] is defined: the coordinate is neither infinite nor
    NaN. *)
Definition finite_y (b : TextBlock) : Prop :=
  exists y_int, Py.int_of_float (y (rect b)) = Ok y_int.

(** A box that the loop keeps on the line whose first box had [int(y)]
    equal to [y_line]: its own [int(y)] is [y_line] and half its height is
    not negative. *)
Definition on_line (y_line : Z) (b : TextBlock) : Prop :=
  Py.int_of_float (y (rect b)) = Ok y_line
  /\ MainWindow.new_line (Some y_line) y_line (rect b) = false.

(** The hit-boxes from index [i] on spell [chars], one character each. *)
Definition spells_at (text_blocks : list TextBlock) (i : nat) (chars : list ascii)
    : Prop :=
  forall j c, chars !! j = Some c ->
    exists b, text_blocks !! (i + j)%nat = Some b /\ text b = String c EmptyString.

(** Every hit-box holds exactly one character, as after [set_text_blocks]. *)
Definition single_chars (text_blocks : list TextBlock) : Prop :=
  Forall (fun b => exists c, text b = String c EmptyString) text_blocks.

(** The texts of a list of hit-boxes, joined. *)
Definition texts_of (boxes : list TextBlock) : string :=
  foldr (fun b s => String.append (text b) s) EmptyString boxes.

(** The index of a hit-box. *)
Definition valid_index (text_blocks : list TextBlock) (i : Z) : Prop :=
  0 <= i < len text_blocks.

(** The selection of a widget is either absent, with no text handed over
    and no selecting under way, or made of two valid indices, and the text
    handed over is the text of the hit-boxes between them. *)
Definition consistent (text_blocks : list TextBlock) (st : PDFDisplayWidget.State)
    : Prop :=
  (PDFDisplayWidget.selection_start st = None
   /\ PDFDisplayWidget.selection_end st = None
   /\ PDFDisplayWidget.is_selecting st = false
   /\ PDFDisplayWidget.current_selection_text st = None)
  \/ exists s e,
       PDFDisplayWidget.selection_start st = Some s
       /\ PDFDisplayWidget.selection_end st = Some e
       /\ valid_index text_blocks s /\ valid_index text_blocks e
       /\ PDFDisplayWidget.current_selection_text st
          = Some (texts_of (selected_boxes text_blocks (Z.min s e) (Z.max s e))).

(** [sub] occurs in [text] at index [k]. *)
Definition occurs_at (text sub : list ascii) (k : nat) : Prop :=
  take (length sub) (drop k text) = sub.

(** A search result lies before another: on an earlier page, or on the
    same page and ending where the other starts or before. *)
Definition before (a b : Z * Z * Z) : Prop :=
  a.1.1 < b.1.1 \/ (a.1.1 = b.1.1 /\ a.2 <= b.1.2).

(** A search result [(page_num, idx, end)] is an occurrence of [query] in
    the lower-cased text of its page. *)
Definition is_hit (lower : list ascii -> list ascii) (texts : list (list ascii))
    (query : list ascii) (r : Z * Z * Z) : Prop :=
  0 <= r.1.1 /\ 0 <= r.1.2 /\ r.2 = r.1.2 + len query
  /\ exists text, texts !! Z.to_nat r.1.1 = Some text
                  /\ occurs_at (lower text) query (Z.to_nat r.1.2).

(** A search result on page [p] that covers index [k]. *)
Definition covers (p k : nat) (r : Z * Z * Z) : Prop :=
  r.1.1 = Z.of_nat p /\ r.1.2 <= Z.of_nat k < r.2.

(** [str.lower] on ASCII text. *)
Definition ascii_lower (text : list ascii) : list ascii :=
  (fun c => if (65 <=? nat_of_ascii c)%nat && (nat_of_ascii c <=? 90)%nat
            then ascii_of_nat (nat_of_ascii c + 32) else c) <$> text.

(** The number of commands that a history holds in its two stacks. *)
Definition history_size {C : Type} (self : CommandHistory.t C) : Z :=
  len (CommandHistory.undo_stack self) + len (CommandHistory.redo_stack self).

(** * Properties *)

(** ** Python lists *)

Section PyLists.
Context {A : Type}.
Implicit Types (l : list A) (x : A).

Lemma len_app l1 l2 : len (l1 ++ l2) = len l1 + len l2.
Proof. unfold len. rewrite length_app. lia. Qed.

Lemma len_nonneg l : 0 <= len l.
Proof. unfold len. lia. Qed.

Lemma pop_snoc l x : Py.pop (l ++ [x]) = Some (x, l).
Proof.
  induction l as [|y l IH]; simpl; [reflexivity|].
  rewrite IH. reflexivity.
Qed.

Lemma pop_Some l x r : Py.pop l = Some (x, r) -> l = r ++ [x].
Proof.
  revert x r. induction l as [|y l IH]; intros x r; simpl; [discriminate|].
  destruct (Py.pop l) as [[z r']|] eqn:E.
  - intros [= <- <-]. rewrite (IH z r' eq_refl). reflexivity.
  - intros [= <- <-]. destruct l as [|z l]; [reflexivity|].
    simpl in E. destruct (Py.pop l) as [[? ?]|]; discriminate.
Qed.

Lemma insert_at_len l x : Py.insert (len l) x l = l ++ [x].
Proof.
  unfold Py.insert, Py.insert_pos.
  destruct (Z.ltb_spec (len l) 0) as [Hneg|_].
  - pose proof (len_nonneg l). lia.
  - rewrite Z.min_id. unfold len. rewrite Nat2Z.id.
    rewrite firstn_all, drop_all. reflexivity.
Qed.

Lemma insert_delete l (i : nat) x :
  l !! i = Some x -> Py.insert (Z.of_nat i) x (delete i l) = l.
Proof.
  intros Hi. pose proof (lookup_lt_Some _ _ _ Hi) as Hlt.
  unfold Py.insert, Py.insert_pos.
  destruct (Z.ltb_spec (Z.of_nat i) 0) as [Hneg|_]; [lia|].
  assert (Hlen : length (delete i l) = (length l - 1)%nat).
  { rewrite length_delete by eauto. reflexivity. }
  replace (Z.to_nat (Z.min (Z.of_nat i) (len (delete i l)))) with i
    by (unfold len; lia).
  rewrite delete_take_drop.
  rewrite take_app_length' by (rewrite length_take; lia).
  rewrite drop_app_length' by (rewrite length_take; lia).
  apply take_drop_middle. exact Hi.
Qed.

End PyLists.

(** ** The annotation store *)

(** Two float literals are told apart by evaluating [PrimFloat.eqb]. *)
Ltac float_discriminate H :=
  match type of H with
  | ?a = ?b =>
      apply (f_equal (fun f => PrimFloat.eqb f b)) in H;
      vm_compute in H; discriminate H
  end.

Lemma add_highlight_annotations rect p c w :
  exists l,
    annotations (PDFDocument.add_highlight rect p c w)
    = annotations w ++ new_records [l] p c.
Proof. destruct rect; eexists; reflexivity. Qed.

Lemma add_highlight_obj_annotations l p c w :
  annotations (PDFDocument.add_highlight (RectObj l) p c w)
  = annotations w ++ new_records [l] p c.
Proof. reflexivity. Qed.

Lemma add_highlight_doc rect p c w :
  doc (PDFDocument.add_highlight rect p c w) = doc w.
Proof. destruct rect; reflexivity. Qed.

(** A rect-like value that is not a [fitz.Rect] is copied: the record
    refers to a new object and no existing object changes. *)
Lemma add_highlight_rect_like v p c w :
  let w' := PDFDocument.add_highlight (RectLike v) p c w in
  heap w' = heap w ++ [PDFDocument.pad v]
  /\ annotations w' = annotations w ++ new_records [length (heap w)] p c.
Proof.
  cbv zeta. unfold PDFDocument.add_highlight. cbn [heap annotations].
  split; [|reflexivity].
  rewrite alter_app_r_alt by lia.
  replace (length (heap w) - length (heap w))%nat with 0%nat by lia. reflexivity.
Qed.

(** C8, as the code has it: [add_highlight(r, p, c)] on a [fitz.Rect]
    object [r] pads that object in place, once ([x0 -= 1], [x1 += 1]), and
    appends exactly one record, referring to [r], at the end of the store,
    so that its index is the previous length; every other [fitz.Rect] and
    every existing record keeps its value, and an existing record keeps its
    region unless it refers to the same object [r].  The method returns
    nothing. *)
Theorem add_highlight_appends_padded
    (r : loc) (v : Rect) (p : Z) (c : QColor.t) (w : World) :
  heap w !! r = Some v ->
  let w' := PDFDocument.add_highlight (RectObj r) p c w in
  let record := {| ann_type := "highlight"%string; ann_rect := r;
                   ann_page := p; ann_color := c |} in
  annotations w' = annotations w ++ [record]
  /\ annotations w' !! length (annotations w) = Some record
  /\ len (annotations w') - 1 = len (annotations w)
  /\ region w' record = Some (PDFDocument.pad v)
  /\ (forall l, l <> r -> heap w' !! l = heap w !! l)
  /\ (forall i a, annotations w !! i = Some a ->
        annotations w' !! i = Some a
        /\ (ann_rect a <> r -> region w' a = region w a))
  /\ doc w' = doc w.
Proof.
  intros Hr w' record. subst w'. unfold region. simpl.
  repeat split.
  - apply list_lookup_middle. reflexivity.
  - rewrite len_app. unfold len. simpl. lia.
  - rewrite list_lookup_alter_eq, Hr. reflexivity.
  - intros l Hl. apply list_lookup_alter_ne. congruence.
  - apply lookup_app_l_Some. assumption.
  - intros Hne. apply list_lookup_alter_ne. congruence.
Qed.

Lemma add_highlight_appends_padded_witness :
  let w := {| heap := [mkRect 10 0 20 5]; doc := None; annotations := [] |} in
  region (PDFDocument.add_highlight (RectObj 0%nat) 0 yellow w)
         (mkAnnotation "highlight" 0%nat 0 yellow)
  = Some (mkRect 9 0 21 5).
Proof.
  intros w.
  exact (proj1 (proj2 (proj2 (proj2
    (add_highlight_appends_padded 0%nat (mkRect 10 0 20 5) 0 yellow w eq_refl))))).
Defined.

(** C8 as stated fails where [r] is the object an existing record already
    refers to: the call pads the shared object, so the existing record's
    region changes. *)
Lemma add_highlight_changes_shared_record :
  let w := {| heap := [mkRect 10 0 20 5]; doc := None;
              annotations := [mkAnnotation "highlight" 0%nat 0 yellow] |} in
  let w' := PDFDocument.add_highlight (RectObj 0%nat) 0 yellow w in
  ~ (forall i a, annotations w !! i = Some a ->
       record_view w' <$> annotations w' !! i = Some (record_view w a)).
Proof.
  intros w w' H.
  specialize (H 0%nat _ eq_refl).
  apply (f_equal (fun o => match o with
                           | Some (_, Some r, _, _) => x0 r
                           | _ => 0%float
                           end)) in H.
  vm_compute in H. float_discriminate H.
Qed.

(** ** HighlightCommand: the first execution *)

Lemma len_snoc {A} (l : list A) (x : A) : len (l ++ [x]) - 1 = len l.
Proof. rewrite len_app. unfold len. simpl. lia. Qed.

Lemma seqZ_len_cons {A} (m : Z) (x : A) (l : list A) :
  seqZ m (len (x :: l)) = m :: seqZ (m + 1) (len l).
Proof.
  rewrite seqZ_cons by (unfold len; simpl; lia).
  f_equal. f_equal; unfold len; simpl; lia.
Qed.

Lemma add_all_indices rs p c idxs w :
  (HighlightCommand.add_all rs p c idxs w).1
  = idxs ++ (Some <$> seqZ (len (annotations w)) (len rs)).
Proof.
  revert idxs w. induction rs as [|r rs IH]; intros idxs w; simpl.
  - rewrite app_nil_r. reflexivity.
  - rewrite IH. rewrite add_highlight_obj_annotations. unfold new_records. simpl.
    rewrite len_snoc, <- app_assoc. f_equal.
    rewrite seqZ_len_cons, len_app. reflexivity.
Qed.

Lemma add_all_annotations rs p c idxs w :
  annotations (HighlightCommand.add_all rs p c idxs w).2
  = annotations w ++ new_records rs p c.
Proof.
  revert idxs w. induction rs as [|r rs IH]; intros idxs w; simpl.
  - rewrite app_nil_r. reflexivity.
  - rewrite IH, add_highlight_obj_annotations, <- app_assoc. reflexivity.
Qed.

Lemma add_all_doc rs p c idxs w :
  doc (HighlightCommand.add_all rs p c idxs w).2 = doc w.
Proof.
  revert idxs w. induction rs as [|r rs IH]; intros idxs w; simpl; [reflexivity|].
  rewrite IH. reflexivity.
Qed.

Lemma add_all_heap rs p c idxs w :
  heap (HighlightCommand.add_all rs p c idxs w).2
  = fold_left (fun h l => alter PDFDocument.pad l h) rs (heap w).
Proof.
  revert idxs w. induction rs as [|r rs IH]; intros idxs w; simpl; [reflexivity|].
  rewrite IH. reflexivity.
Qed.

Lemma execute_first self w :
  HighlightCommand.removed_annotations self = [] ->
  HighlightCommand.execute self w
  = (true,
     HighlightCommand.set_annotation_indices self
       (HighlightCommand.add_all (HighlightCommand.rects self)
          (HighlightCommand.page_num self) (HighlightCommand.color self)
          (HighlightCommand.annotation_indices self) w).1,
     (HighlightCommand.add_all (HighlightCommand.rects self)
          (HighlightCommand.page_num self) (HighlightCommand.color self)
          (HighlightCommand.annotation_indices self) w).2).
Proof.
  intros Hrem. unfold HighlightCommand.execute. rewrite Hrem.
  destruct (HighlightCommand.add_all _ _ _ _ _). reflexivity.
Qed.

Lemma execute_returns_true self w : (HighlightCommand.execute self w).1.1 = true.
Proof.
  unfold HighlightCommand.execute.
  destruct (HighlightCommand.removed_annotations self); [|reflexivity].
  destruct (HighlightCommand.add_all _ _ _ _ _). reflexivity.
Qed.

Lemma execute_clears_removed self w :
  HighlightCommand.removed_annotations (HighlightCommand.execute self w).1.2 = [].
Proof.
  unfold HighlightCommand.execute.
  destruct (HighlightCommand.removed_annotations self) eqn:E; [|reflexivity].
  destruct (HighlightCommand.add_all _ _ _ _ _). simpl. exact E.
Qed.

(** ** CommandHistory: the protocol, for any kind of command *)

Section History.
Context {C : Type} `{Command C}.
Implicit Types (self : CommandHistory.t C) (w : World).


Lemma push_within (m : Z) (stack : list C) (command : C) :
  len stack <= m -> len (CommandHistory.push m stack command) <= m.
Proof.
  intros Hs. unfold CommandHistory.push.
  destruct (Z.gtb_spec (len (stack ++ [command])) m) as [Hgt|Hle]; [|lia].
  unfold len in *. rewrite length_drop, length_app. simpl. lia.
Qed.

Lemma push_full (m : Z) (stack : list C) (command : C) :
  len stack = m -> CommandHistory.push m stack command = drop 1 (stack ++ [command]).
Proof.
  intros Hs. unfold CommandHistory.push.
  destruct (Z.gtb_spec (len (stack ++ [command])) m) as [Hgt|Hle]; [reflexivity|].
  rewrite len_app in Hle. unfold len in *. simpl in Hle. lia.
Qed.

Lemma push_room (m : Z) (stack : list C) (command : C) :
  len stack < m -> CommandHistory.push m stack command = stack ++ [command].
Proof.
  intros Hs. unfold CommandHistory.push.
  destruct (Z.gtb_spec (len (stack ++ [command])) m) as [Hgt|Hle]; [|reflexivity].
  rewrite len_app in Hgt. unfold len in *. simpl in Hgt. lia.
Qed.

Lemma pop_within (m : Z) (stack rest : list C) (command : C) :
  Py.pop stack = Some (command, rest) -> len stack <= m -> len rest <= m.
Proof.
  intros Hp Hs. apply pop_Some in Hp. subst stack.
  rewrite len_app in Hs. pose proof (len_nonneg [command]).
  unfold len in *. simpl in *. lia.
Qed.

(** Pushing a run of commands keeps the newest entries. *)
Lemma push_all (m : Z) (commands stack : list C) :
  len stack <= m ->
  fold_left (CommandHistory.push m) commands stack
  = drop (Z.to_nat (len stack + len commands - m)) (stack ++ commands).
Proof.
  revert stack. induction commands as [|c commands IH]; intros stack Hs.
  - simpl. rewrite app_nil_r.
    replace (Z.to_nat _) with 0%nat by (unfold len in *; simpl; lia).
    reflexivity.
  - simpl. rewrite IH by (apply push_within; exact Hs).
    destruct (Z.eq_dec (len stack) m) as [Hfull|Hroom].
    + rewrite (push_full _ _ _ Hfull).
      assert (Hd : drop 1 (stack ++ [c]) ++ commands
                   = drop 1 (stack ++ c :: commands)).
      { destruct stack; [reflexivity|]. simpl. rewrite !drop_0, <- app_assoc. reflexivity. }
      rewrite Hd, drop_drop. f_equal.
      unfold len in *. rewrite ?length_drop, ?length_app. simpl in *. lia.
    + rewrite push_room by lia.
      rewrite <- app_assoc. simpl. f_equal.
      unfold len in *. rewrite ?length_app. simpl in *. lia.
Qed.

Lemma execute_within self command w :
  within_cap self -> within_cap (CommandHistory.execute self command w).1.2.
Proof.
  intros [Hu Hr]. unfold CommandHistory.execute.
  destruct (command_execute command w) as [[[[|]|e] command'] w'];
    simpl; try (split; assumption).
  split; simpl; [apply push_within; assumption|].
  unfold len in *. simpl. lia.
Qed.

Lemma undo_within self w :
  within_cap self -> within_cap (CommandHistory.undo self w).1.2.
Proof.
  intros [Hu Hr]. unfold CommandHistory.undo.
  destruct (Py.pop (CommandHistory.undo_stack self)) as [[command rest]|] eqn:Hp;
    [|split; assumption].
  pose proof (pop_within _ _ _ _ Hp Hu) as Hrest.
  destruct (command_undo command w) as [[[[|]|e] command'] w'];
    simpl; split; simpl; try assumption.
  apply push_within; assumption.
Qed.

Lemma redo_within self w :
  within_cap self -> within_cap (CommandHistory.redo self w).1.2.
Proof.
  intros [Hu Hr]. unfold CommandHistory.redo.
  destruct (Py.pop (CommandHistory.redo_stack self)) as [[command rest]|] eqn:Hp;
    [|split; assumption].
  pose proof (pop_within _ _ _ _ Hp Hr) as Hrest.
  destruct (command_execute command w) as [[[[|]|e] command'] w'];
    simpl; split; simpl; try assumption.
  apply push_within; assumption.
Qed.

Lemma step_within (c : CommandHistory.call) (sw : CommandHistory.t C * World) :
  within_cap sw.1 -> within_cap (CommandHistory.step c sw).1.
Proof.
  intros Hw. unfold CommandHistory.step. destruct c.
  - pose proof (execute_within sw.1 command sw.2 Hw) as Hx.
    destruct (CommandHistory.execute _ _ _) as [[? ?] ?]. exact Hx.
  - pose proof (undo_within sw.1 sw.2 Hw) as Hx.
    destruct (CommandHistory.undo _ _) as [[? ?] ?]. exact Hx.
  - pose proof (redo_within sw.1 sw.2 Hw) as Hx.
    destruct (CommandHistory.redo _ _) as [[? ?] ?]. exact Hx.
Qed.

Lemma run_within (calls : list CommandHistory.call) (sw : CommandHistory.t C * World) :
  within_cap sw.1 -> within_cap (CommandHistory.run calls sw).1.
Proof.
  revert sw. induction calls as [|c calls IH]; intros sw Hw; simpl; [exact Hw|].
  apply IH, step_within, Hw.
Qed.

(** C5: whatever the two stacks hold, when [command.execute()] succeeds
    inside [CommandHistory.execute(command)], the call succeeds, the redo
    stack is empty afterwards and [will_lose_redo_history()] is false. *)
Theorem execute_discards_redo self command w command' w' :
  command_execute command w = (Ok true, command', w') ->
  (CommandHistory.execute self command w).1.1 = Ok true
  /\ CommandHistory.redo_stack (CommandHistory.execute self command w).1.2 = []
  /\ CommandHistory.will_lose_redo_history
       (CommandHistory.execute self command w).1.2 = false.
Proof.
  intros Hx. unfold CommandHistory.execute. rewrite Hx. simpl.
  repeat split.
Qed.

End History.

Lemma execute_discards_redo_witness :
  let w := {| heap := [mkRect 10 0 20 5; mkRect 10 12 20 17]; doc := None;
              annotations := new_records [0%nat] 0 yellow |} in
  let self :=
    {| CommandHistory.undo_stack := [applied 0 ([0%nat], 0, yellow)];
       CommandHistory.redo_stack :=
         [HighlightCommand.set_removed_annotations
            (applied 1 ([1%nat], 0, yellow)) (new_records [1%nat] 0 yellow)];
       CommandHistory.max_stack_size := 100 |} in
  let command := fresh ([1%nat], 0, yellow) in
  CommandHistory.will_lose_redo_history self = true
  /\ CommandHistory.redo_stack (CommandHistory.execute self command w).1.2 = []
  /\ CommandHistory.will_lose_redo_history
       (CommandHistory.execute self command w).1.2 = false.
Proof.
  intros w self command. split; [reflexivity|].
  eapply proj2, execute_discards_redo. reflexivity.
Defined.

(** ** CommandHistory with highlight commands *)

Lemma history_execute_highlight
    (self : CommandHistory.t HighlightCommand.t) (command : HighlightCommand.t)
    (w : World) :
  CommandHistory.execute self command w
  = (Ok true,
     {| CommandHistory.undo_stack :=
          CommandHistory.push (CommandHistory.max_stack_size self)
            (CommandHistory.undo_stack self)
            (HighlightCommand.execute command w).1.2;
        CommandHistory.redo_stack := [];
        CommandHistory.max_stack_size := CommandHistory.max_stack_size self |},
     (HighlightCommand.execute command w).2).
Proof.
  unfold CommandHistory.execute. simpl.
  pose proof (execute_returns_true command w) as Ht.
  destruct (HighlightCommand.execute command w) as [[b command'] w'].
  simpl in Ht. subst b. reflexivity.
Qed.


Lemma execute_fresh_spec (spec : list loc * Z * QColor.t) (w : World) :
  (HighlightCommand.execute (fresh spec) w).1.2 = applied (len (annotations w)) spec
  /\ annotations (HighlightCommand.execute (fresh spec) w).2
     = annotations w ++ new_records spec.1.1 spec.1.2 spec.2.
Proof.
  rewrite execute_first by reflexivity. simpl.
  rewrite add_all_indices, add_all_annotations. split; reflexivity.
Qed.

Lemma run_execute_fresh spec specs (self : CommandHistory.t HighlightCommand.t) w :
  CommandHistory.run (execute_fresh <$> spec :: specs) (self, w)
  = CommandHistory.run (execute_fresh <$> specs)
      ({| CommandHistory.undo_stack :=
            CommandHistory.push (CommandHistory.max_stack_size self)
              (CommandHistory.undo_stack self) (applied (len (annotations w)) spec);
          CommandHistory.redo_stack := [];
          CommandHistory.max_stack_size := CommandHistory.max_stack_size self |},
       (HighlightCommand.execute (fresh spec) w).2).
Proof.
  rewrite fmap_cons. unfold CommandHistory.run at 1. simpl fold_left.
  unfold CommandHistory.step at 2. unfold execute_fresh at 2.
  cbn [fst snd]. rewrite history_execute_highlight.
  destruct (execute_fresh_spec spec w) as [-> _]. reflexivity.
Qed.

Lemma run_fresh_max specs (self : CommandHistory.t HighlightCommand.t) w :
  CommandHistory.max_stack_size
    (CommandHistory.run (execute_fresh <$> specs) (self, w)).1
  = CommandHistory.max_stack_size self.
Proof.
  revert self w. induction specs as [|spec specs IH]; intros self w; [reflexivity|].
  rewrite run_execute_fresh, IH. reflexivity.
Qed.

Lemma run_fresh_undo_stack specs (self : CommandHistory.t HighlightCommand.t) w :
  CommandHistory.undo_stack
    (CommandHistory.run (execute_fresh <$> specs) (self, w)).1
  = fold_left (CommandHistory.push (CommandHistory.max_stack_size self))
      (applied_all (len (annotations w)) specs) (CommandHistory.undo_stack self).
Proof.
  revert self w. induction specs as [|spec specs IH]; intros self w; [reflexivity|].
  rewrite run_execute_fresh, IH. cbn [CommandHistory.max_stack_size
    CommandHistory.undo_stack applied_all fold_left].
  destruct (execute_fresh_spec spec w) as [_ ->].
  rewrite len_app. unfold new_records, len at 2. rewrite length_map.
  reflexivity.
Qed.

Lemma run_fresh_annotations specs (self : CommandHistory.t HighlightCommand.t) w :
  annotations (CommandHistory.run (execute_fresh <$> specs) (self, w)).2
  = annotations w ++ all_records specs.
Proof.
  revert self w. induction specs as [|spec specs IH]; intros self w.
  - simpl. rewrite app_nil_r. reflexivity.
  - rewrite run_execute_fresh, IH.
    destruct (execute_fresh_spec spec w) as [_ ->].
    rewrite <- app_assoc. reflexivity.
Qed.

Lemma applied_all_length start specs :
  length (applied_all start specs) = length specs.
Proof.
  revert start. induction specs as [|spec specs IH]; intros start; simpl; congruence.
Qed.

Section HistoryRuns.
Context {C : Type} `{Command C}.

Lemma step_max_stack_size (c : CommandHistory.call) (sw : CommandHistory.t C * World) :
  CommandHistory.max_stack_size (CommandHistory.step c sw).1
  = CommandHistory.max_stack_size sw.1.
Proof.
  unfold CommandHistory.step. destruct c.
  - unfold CommandHistory.execute.
    destruct (command_execute command sw.2) as [[[[|]|e] command'] w']; reflexivity.
  - unfold CommandHistory.undo.
    destruct (Py.pop _) as [[command rest]|]; [|reflexivity].
    destruct (command_undo command sw.2) as [[[[|]|e] command'] w']; reflexivity.
  - unfold CommandHistory.redo.
    destruct (Py.pop _) as [[command rest]|]; [|reflexivity].
    destruct (command_execute command sw.2) as [[[[|]|e] command'] w']; reflexivity.
Qed.

Lemma run_max_stack_size (calls : list CommandHistory.call)
    (sw : CommandHistory.t C * World) :
  CommandHistory.max_stack_size (CommandHistory.run calls sw).1
  = CommandHistory.max_stack_size sw.1.
Proof.
  revert sw. induction calls as [|c calls IH]; intros sw; simpl; [reflexivity|].
  rewrite IH. apply step_max_stack_size.
Qed.

End HistoryRuns.

(** C6: from a history within its cap, executing [max_stack_size + 1] new
    highlight commands leaves exactly [max_stack_size] entries on the undo
    stack: the commands after the first, each as its execution left it.
    The first-executed command is no longer tracked, yet the store still
    holds the records of all the commands, its own first.  And whatever
    calls to execute, undo and redo are made from a history within the cap,
    both stacks stay within the (unchanged) cap. *)
Theorem depth_cap_evicts_oldest
    (specs : list (list loc * Z * QColor.t))
    (self : CommandHistory.t HighlightCommand.t) (w : World) :
  within_cap self ->
  len specs = CommandHistory.max_stack_size self + 1 ->
  let after := CommandHistory.run (execute_fresh <$> specs) (self, w) in
  len (CommandHistory.undo_stack after.1) = CommandHistory.max_stack_size self
  /\ CommandHistory.undo_stack after.1
     = drop 1 (applied_all (len (annotations w)) specs)
  /\ annotations after.2 = annotations w ++ all_records specs
  /\ (forall (calls : list CommandHistory.call)
             (sw : CommandHistory.t HighlightCommand.t * World),
        within_cap sw.1 ->
        within_cap (CommandHistory.run calls sw).1
        /\ CommandHistory.max_stack_size (CommandHistory.run calls sw).1
           = CommandHistory.max_stack_size sw.1).
Proof.
  intros [Hu Hr] Hn after. subst after.
  assert (Hstack :
    CommandHistory.undo_stack
      (CommandHistory.run (execute_fresh <$> specs) (self, w)).1
    = drop 1 (applied_all (len (annotations w)) specs)).
  { rewrite run_fresh_undo_stack, push_all by exact Hu.
    replace (Z.to_nat _) with (length (CommandHistory.undo_stack self) + 1)%nat
      by (unfold len in *; rewrite applied_all_length; lia).
    rewrite drop_app_add'; reflexivity. }
  split; [|split; [exact Hstack|split]].
  - rewrite Hstack. unfold len in *.
    rewrite length_drop, applied_all_length. lia.
  - apply run_fresh_annotations.
  - intros calls sw Hw. split; [apply run_within, Hw|apply run_max_stack_size].
Qed.

Lemma depth_cap_evicts_oldest_witness :
  let w := {| heap := [mkRect 10 0 20 5; mkRect 10 12 20 17]; doc := None;
              annotations := [] |} in
  let self : CommandHistory.t HighlightCommand.t := CommandHistory.new 1 in
  let specs := [([0%nat], 0, yellow); ([1%nat], 0, yellow)] in
  CommandHistory.undo_stack
    (CommandHistory.run (execute_fresh <$> specs) (self, w)).1
  = [applied 1 ([1%nat], 0, yellow)]
  /\ annotations (CommandHistory.run (execute_fresh <$> specs) (self, w)).2
     = new_records [0%nat; 1%nat] 0 yellow.
Proof.
  intros w self specs.
  assert (Hcap : within_cap self) by (unfold within_cap, len; simpl; lia).
  assert (Hn : len specs = CommandHistory.max_stack_size self + 1) by reflexivity.
  pose proof (depth_cap_evicts_oldest specs self w Hcap Hn) as (_ & Hs & Ha & _).
  split; [exact Hs|exact Ha].
Defined.

(** ** HighlightCommand: undo and redo of an applied command *)

Lemma set_annotations_same w : HighlightCommand.set_annotations w (annotations w) = w.
Proof. destruct w. reflexivity. Qed.

Lemma seqZ_len_snoc {A} (m : Z) (l : list A) (x : A) :
  seqZ m (len (l ++ [x])) = seqZ m (len l) ++ [m + len l].
Proof.
  rewrite len_app, seqZ_app by (unfold len; simpl; lia).
  reflexivity.
Qed.

Lemma remove_annotation_last w anns a :
  annotations w = anns ++ [a] ->
  removal_succeeds w (ann_page a) = true ->
  PDFDocument.remove_annotation (len anns) w
  = (true, HighlightCommand.set_annotations w anns).
Proof.
  intros Ha Hok. unfold PDFDocument.remove_annotation. rewrite Ha.
  assert (Hin : (0 <=? len anns) && (len anns <? len (anns ++ [a])) = true).
  { rewrite len_app. unfold len. simpl.
    apply andb_true_intro. split; [apply Z.leb_le|apply Z.ltb_lt]; lia. }
  rewrite Hin.
  replace (Z.to_nat (len anns)) with (length anns) by (unfold len; lia).
  rewrite list_lookup_middle by reflexivity.
  assert (Hdel : delete (length anns) (anns ++ [a]) = anns).
  { rewrite delete_take_drop, take_app_length.
    rewrite drop_ge by (rewrite length_app; simpl; lia).
    apply app_nil_r. }
  rewrite Hdel. unfold removal_succeeds in Hok.
  unfold HighlightCommand.set_annotations.
  destruct (doc w); [rewrite Hok|]; reflexivity.
Qed.

Lemma undo_loop_applied news : forall anns acc w,
  annotations w = anns ++ news ->
  Forall (fun a => removal_succeeds w (ann_page a) = true) news ->
  HighlightCommand.undo_loop (rev (Some <$> seqZ (len anns) (len news))) acc w
  = (Ok true, news ++ acc, HighlightCommand.set_annotations w anns).
Proof.
  induction news as [|a news IH] using rev_ind; intros anns acc w Ha Hok.
  - simpl. rewrite app_nil_r in Ha. rewrite <- Ha, set_annotations_same. reflexivity.
  - rewrite seqZ_len_snoc, fmap_app, rev_app_distr. simpl.
    apply Forall_app in Hok as [Hnews Hlast]. rewrite Forall_singleton in Hlast.
    rewrite app_assoc in Ha.
    assert (Hidx : len anns + len news = len (anns ++ news)) by (rewrite len_app; lia).
    rewrite Hidx.
    assert (Hin : (0 <=? len (anns ++ news))
                  && (len (anns ++ news) <? len (annotations w)) = true).
    { rewrite Ha, (len_app _ [a]). unfold len. simpl.
      apply andb_true_intro. split; [apply Z.leb_le|apply Z.ltb_lt]; lia. }
    rewrite Hin.
    replace (Z.to_nat (len (anns ++ news))) with (length (anns ++ news))
      by (unfold len; lia).
    rewrite Ha at 1. rewrite list_lookup_middle by reflexivity.
    rewrite (remove_annotation_last w (anns ++ news) a Ha Hlast).
    rewrite IH; [|reflexivity|exact Hnews].
    rewrite <- app_assoc. reflexivity.
Qed.

Lemma restore_all_applied news : forall anns w,
  annotations w = anns ->
  HighlightCommand.restore_all (Some <$> seqZ (len anns) (len news)) news w
  = HighlightCommand.set_annotations w (anns ++ news).
Proof.
  induction news as [|a news IH]; intros anns w Ha.
  - simpl. rewrite app_nil_r, <- Ha. symmetry. apply set_annotations_same.
  - rewrite seqZ_len_cons. simpl. unfold HighlightCommand.restore. rewrite Ha.
    rewrite Z.leb_refl, insert_at_len.
    replace (len anns + 1) with (len (anns ++ [a]))
      by (rewrite len_app; reflexivity).
    rewrite (IH (anns ++ [a])) by reflexivity.
    rewrite <- app_assoc. reflexivity.
Qed.

Lemma restore_all_doc indices removed w :
  doc (HighlightCommand.restore_all indices removed w) = doc w.
Proof.
  revert indices w. induction removed as [|a removed IH]; intros [|idx indices] w;
    try reflexivity.
  simpl. rewrite IH. unfold HighlightCommand.restore.
  destruct idx as [i|]; [destruct (i <=? _)|]; reflexivity.
Qed.


Lemma execute_doc self w : doc (HighlightCommand.execute self w).2 = doc w.
Proof.
  unfold HighlightCommand.execute.
  destruct (HighlightCommand.removed_annotations self) eqn:E.
  - pose proof (add_all_doc (HighlightCommand.rects self)
      (HighlightCommand.page_num self) (HighlightCommand.color self)
      (HighlightCommand.annotation_indices self) w) as Hd.
    destruct (HighlightCommand.add_all _ _ _ _ _). exact Hd.
  - apply restore_all_doc.
Qed.

Lemma new_records_pages rs p c (w : World) :
  removal_succeeds w p = true ->
  Forall (fun a => removal_succeeds w (ann_page a) = true) (new_records rs p c).
Proof.
  intros Hok. unfold new_records. apply Forall_map, Forall_forall.
  intros l _. exact Hok.
Qed.

Lemma len_new_records rs p c : len (new_records rs p c) = len rs.
Proof. unfold len, new_records. rewrite length_map. reflexivity. Qed.

Lemma undo_applied spec anns w :
  spec.1.1 <> [] ->
  annotations w = anns ++ new_records spec.1.1 spec.1.2 spec.2 ->
  removal_succeeds w spec.1.2 = true ->
  HighlightCommand.undo (applied (len anns) spec) w
  = (Ok true,
     HighlightCommand.set_removed_annotations (applied (len anns) spec)
       (new_records spec.1.1 spec.1.2 spec.2),
     HighlightCommand.set_annotations w anns).
Proof.
  intros Hne Ha Hok. unfold HighlightCommand.undo.
  destruct (HighlightCommand.annotation_indices (applied (len anns) spec))
    as [|i rest] eqn:E.
  - exfalso. apply Hne. apply (f_equal length) in E. simpl in E.
    rewrite length_fmap, length_seqZ in E.
    unfold len in E. destruct (spec.1.1); [reflexivity|simpl in E; lia].
  - rewrite <- E. simpl.
    rewrite <- (len_new_records spec.1.1 spec.1.2 spec.2).
    rewrite (undo_loop_applied _ anns [] w Ha (new_records_pages _ _ _ w Hok)).
    rewrite app_nil_r. reflexivity.
Qed.

Lemma execute_reversed self w :
  HighlightCommand.removed_annotations self <> [] ->
  HighlightCommand.execute self w
  = (true, HighlightCommand.set_removed_annotations self [],
     HighlightCommand.restore_all (HighlightCommand.annotation_indices self)
       (HighlightCommand.removed_annotations self) w).
Proof.
  intros Hne. unfold HighlightCommand.execute.
  destruct (HighlightCommand.removed_annotations self); [contradiction|reflexivity].
Qed.

(** Undo, then redo, of a command whose records are the last ones of the
    store: the undo removes them, the redo puts them back. *)
Lemma undo_redo_applied spec anns w :
  spec.1.1 <> [] ->
  annotations w = anns ++ new_records spec.1.1 spec.1.2 spec.2 ->
  removal_succeeds w spec.1.2 = true ->
  let s2 := HighlightCommand.undo (applied (len anns) spec) w in
  let s3 := HighlightCommand.execute s2.1.2 s2.2 in
  s2.1.1 = Ok true
  /\ annotations s2.2 = anns
  /\ s3.2 = w
  /\ s3.1.2 = applied (len anns) spec.
Proof.
  intros Hne Ha Hok s2 s3. subst s3 s2.
  rewrite (undo_applied spec anns w Hne Ha Hok). cbn [fst snd].
  split; [reflexivity|]. split; [reflexivity|].
  rewrite execute_reversed.
  - cbn [fst snd]. split; [|reflexivity].
    cbn [HighlightCommand.set_removed_annotations
         HighlightCommand.annotation_indices
         HighlightCommand.removed_annotations applied
         HighlightCommand.set_annotation_indices].
    rewrite <- (len_new_records spec.1.1 spec.1.2 spec.2).
    rewrite (restore_all_applied _ anns) by reflexivity.
    unfold HighlightCommand.set_annotations. cbn [heap doc annotations].
    rewrite <- Ha. destruct w. reflexivity.
  - cbn [HighlightCommand.set_removed_annotations
         HighlightCommand.removed_annotations].
    destruct spec as [[rs p] c]. cbn [fst snd] in *.
    destruct rs; [contradiction|discriminate].
Qed.

Lemma filter_new_records rs p c :
  filter (fun ann => ann_page ann = p) (new_records rs p c) = new_records rs p c.
Proof.
  unfold new_records. induction rs as [|l rs IH]; [reflexivity|].
  simpl. rewrite filter_cons_True by reflexivity. f_equal. exact IH.
Qed.

(** C1: for a command constructed with regions [R], page [P] and colour
    [C], on any store, [execute(); undo(); redo()] leaves the store exactly
    as it was after the first [execute()]: the same records in the same
    order, referring to the same [fitz.Rect] objects with unchanged
    coordinates, hence the same sequence of records of page [P]; and the
    command is again as the first [execute()] left it.  The page clean-up
    that [remove_annotation] asks of the open document is taken not to
    raise for page [P]. *)
Theorem execute_undo_redo_round_trip
    (R : list loc) (P : Z) (C : QColor.t) (w : World) :
  removal_succeeds w P = true ->
  let s1 := HighlightCommand.execute (HighlightCommand.new R P C) w in
  let s2 := HighlightCommand.undo s1.1.2 s1.2 in
  let s3 := HighlightCommand.execute s2.1.2 s2.2 in
  PDFDocument.records_for_page P s3.2 = PDFDocument.records_for_page P s1.2
  /\ record_view s3.2 <$> PDFDocument.records_for_page P s3.2
     = record_view s1.2 <$> PDFDocument.records_for_page P s1.2
  /\ s3.2 = s1.2
  /\ s3.1.2 = s1.1.2
  /\ annotations s2.2 = annotations w
  /\ PDFDocument.records_for_page P s1.2
     = PDFDocument.records_for_page P w ++ new_records R P C.
Proof.
  intros Hok s1 s2 s3.
  destruct (execute_fresh_spec (R, P, C) w) as [Hc Ha].
  change (fresh (R, P, C)) with (HighlightCommand.new R P C) in Hc, Ha.
  cbn [fst snd] in Ha. fold s1 in Hc, Ha.
  assert (Hall : s3.2 = s1.2 /\ s3.1.2 = s1.1.2 /\ annotations s2.2 = annotations w).
  { destruct R as [|r R].
    - subst s3 s2 s1. repeat split.
    - assert (Hdoc : removal_succeeds s1.2 P = true).
      { unfold removal_succeeds. subst s1. rewrite execute_doc. exact Hok. }
      destruct (undo_redo_applied (r :: R, P, C) (annotations w) s1.2
                  ltac:(discriminate) Ha Hdoc) as (_ & Hu & Hw & Hcmd).
      rewrite <- Hc in Hu, Hw, Hcmd.
      split; [exact Hw|split; [exact Hcmd|exact Hu]]. }
  destruct Hall as (Hw & Hcmd & Hu).
  split; [rewrite Hw; reflexivity|]. split; [rewrite Hw; reflexivity|].
  split; [exact Hw|]. split; [exact Hcmd|]. split; [exact Hu|].
  unfold PDFDocument.records_for_page.
  rewrite Ha, filter_app, filter_new_records. reflexivity.
Qed.

Lemma execute_undo_redo_round_trip_witness :
  let w := {| heap := [mkRect 10 0 20 5; mkRect 10 12 20 17];
              doc := Some three_pages; annotations := [] |} in
  let s1 := HighlightCommand.execute (HighlightCommand.new [0%nat; 1%nat] 0 yellow) w in
  let s2 := HighlightCommand.undo s1.1.2 s1.2 in
  let s3 := HighlightCommand.execute s2.1.2 s2.2 in
  PDFDocument.records_for_page 0 s3.2 = new_records [0%nat; 1%nat] 0 yellow
  /\ s3.2 = s1.2
  /\ annotations s2.2 = [].
Proof.
  intros w.
  pose proof (execute_undo_redo_round_trip [0%nat; 1%nat] 0 yellow w eq_refl)
    as (H1 & _ & H3 & _ & H5 & H6).
  cbv zeta. split; [|split].
  - rewrite H1. exact H6.
  - exact H3.
  - exact H5.
Defined.

(** C1 as stated fails in a store whose open document raises during the
    page clean-up of [remove_annotation], here for a command on page 7 of a
    document of three pages: [undo()] has already put the record into
    [removed_annotations] when the removal is rolled back and reported as
    failed, so the following [execute()] inserts the record a second
    time. *)
Lemma round_trip_fails_when_removal_raises :
  let w := {| heap := [mkRect 10 0 20 5]; doc := Some three_pages;
              annotations := [] |} in
  let s1 := HighlightCommand.execute (HighlightCommand.new [0%nat] 7 yellow) w in
  let s2 := HighlightCommand.undo s1.1.2 s1.2 in
  let s3 := HighlightCommand.execute s2.1.2 s2.2 in
  s2.1.1 = Ok false
  /\ PDFDocument.records_for_page 7 s1.2 = new_records [0%nat] 7 yellow
  /\ PDFDocument.records_for_page 7 s3.2 = new_records [0%nat; 0%nat] 7 yellow
  /\ PDFDocument.records_for_page 7 s3.2 <> PDFDocument.records_for_page 7 s1.2.
Proof.
  intros w s1 s2 s3. repeat split.
  intros H. apply (f_equal length) in H. vm_compute in H. discriminate H.
Qed.

(** ** HighlightCommand.undo and indices that are out of range *)


Lemma remove_annotation_cases index w :
  (exists a, annotations w !! Z.to_nat index = Some a
             /\ removal_succeeds w (ann_page a) = true
             /\ PDFDocument.remove_annotation index w
                = (true, HighlightCommand.set_annotations w
                           (delete (Z.to_nat index) (annotations w))))
  \/ (PDFDocument.remove_annotation index w).1 = false.
Proof.
  unfold PDFDocument.remove_annotation, removal_succeeds.
  destruct ((0 <=? index) && (index <? len (annotations w))); [|right; reflexivity].
  destruct (annotations w !! Z.to_nat index) as [a|] eqn:Ha; [|right; reflexivity].
  destruct (doc w) as [d|] eqn:Hd.
  - destruct (clear_highlights d (ann_page a)) eqn:Hc; [|right; reflexivity].
    left. exists a. unfold HighlightCommand.set_annotations. rewrite Hd. auto.
  - left. exists a. unfold HighlightCommand.set_annotations. rewrite Hd. auto.
Qed.

Lemma remove_annotation_false index w a :
  0 <= index < len (annotations w) ->
  annotations w !! Z.to_nat index = Some a ->
  (PDFDocument.remove_annotation index w).1 = false ->
  removal_succeeds w (ann_page a) = false.
Proof.
  intros Hin Ha. unfold PDFDocument.remove_annotation, removal_succeeds.
  destruct (Z.leb_spec 0 index), (Z.ltb_spec index (len (annotations w)));
    try lia.
  simpl. rewrite Ha. destruct (doc w) as [d|]; [|discriminate].
  destruct (clear_highlights d (ann_page a)); [discriminate|reflexivity].
Qed.

(** A removal that fails has put the record back: the store is unchanged. *)
Lemma remove_annotation_rollback index w :
  (PDFDocument.remove_annotation index w).1 = false ->
  (PDFDocument.remove_annotation index w).2 = w.
Proof.
  unfold PDFDocument.remove_annotation.
  destruct (Z.leb_spec 0 index) as [H0|H0]; [|reflexivity].
  destruct (index <? len (annotations w)); [|reflexivity]. cbn [andb].
  destruct (annotations w !! Z.to_nat index) as [a|] eqn:Ha; [|reflexivity].
  destruct (doc w) as [d|] eqn:Hd; [|discriminate].
  destruct (clear_highlights d (ann_page a)); [discriminate|].
  intros _. cbn [snd].
  rewrite <- (Z2Nat.id index H0) at 1. rewrite (insert_delete _ _ _ Ha).
  rewrite <- Hd. destruct w. reflexivity.
Qed.






(** ** Serialization of a command *)

Lemma channel_get (ch : QColor.t -> byte) (c : QColor.t) :
  QColor.channel (QColor.get ch c) = Some (ch c).
Proof.
  unfold QColor.channel, QColor.get.
  pose proof (Byte.to_N_bounded (ch c)) as Hb.
  assert (Hin : (0 <=? Z.of_N (Byte.to_N (ch c)))
                && (Z.of_N (Byte.to_N (ch c)) <=? 255) = true).
  { apply andb_true_intro. split; [apply Z.leb_le|apply Z.leb_le]; lia. }
  rewrite Hin, N2Z.id. apply Byte.of_to_N.
Qed.

Lemma rgba_of_channels (c : QColor.t) :
  QColor.rgba (QColor.get QColor.red c) (QColor.get QColor.green c)
              (QColor.get QColor.blue c) (QColor.get QColor.alpha c) = c.
Proof.
  unfold QColor.rgba. rewrite !channel_get. destruct c. reflexivity.
Qed.

Lemma rect_of_to_dict (r : Rect) :
  HighlightCommand.rect_of_dict (HighlightCommand.rect_to_dict r) = r.
Proof. destruct r. reflexivity. Qed.

Lemma rect_to_of_dict (d : RectDict) :
  HighlightCommand.rect_to_dict (HighlightCommand.rect_of_dict d) = d.
Proof. destruct d. reflexivity. Qed.

(** The objects allocated in a block are found there, whatever is
    allocated later. *)
Lemma lookup_block (rs : list Rect) : forall (h h2 : list Rect),
  mapM (fun l => (h ++ rs ++ h2) !! l) (seq (length h) (length rs)) = Some rs.
Proof.
  induction rs as [|r rs IH]; intros h h2; [reflexivity|].
  cbn [length seq mapM]. 
  rewrite (list_lookup_middle h (rs ++ h2) r) by reflexivity.
  specialize (IH (h ++ [r]) h2).
  rewrite length_app in IH. simpl in IH.
  replace (length h + 1)%nat with (S (length h)) in IH by lia.
  rewrite <- app_assoc in IH. simpl in IH.
  simpl. rewrite IH. reflexivity.
Qed.

Lemma lookups_heap_app (h h2 : list Rect) (ls : list loc) (rs : list Rect) :
  mapM (fun l => h !! l) ls = Some rs ->
  mapM (fun l => (h ++ h2) !! l) ls = Some rs.
Proof.
  rewrite !mapM_Some. intros HF. eapply Forall2_impl; [exact HF|].
  intros l r Hl. apply lookup_app_l_Some. exact Hl.
Qed.

Lemma to_dict_inv h self data :
  HighlightCommand.to_dict h self = Some data ->
  exists rs,
    mapM (fun l => h !! l) (HighlightCommand.rects self) = Some rs
    /\ data = {| d_type := "highlight"%string;
                 d_rects := map HighlightCommand.rect_to_dict rs;
                 d_page_num := HighlightCommand.page_num self;
                 d_color := HighlightCommand.color_to_dict (HighlightCommand.color self);
                 d_annotation_indices :=
                   Some (HighlightCommand.annotation_indices self) |}.
Proof.
  unfold HighlightCommand.to_dict. intros Hd.
  destruct (mapM _ (HighlightCommand.rects self)) as [rs|]; [|discriminate].
  simpl in Hd. injection Hd as <-. exists rs. split; reflexivity.
Qed.

Lemma to_dict_heap_app h h2 self data :
  HighlightCommand.to_dict h self = Some data ->
  HighlightCommand.to_dict (h ++ h2) self = Some data.
Proof.
  intros Hd. destruct (to_dict_inv _ _ _ Hd) as (rs & Hrs & ->).
  unfold HighlightCommand.to_dict.
  rewrite (lookups_heap_app _ h2 _ _ Hrs). reflexivity.
Qed.

Lemma map_rect_of_to_dict (rs : list Rect) :
  map HighlightCommand.rect_of_dict (map HighlightCommand.rect_to_dict rs) = rs.
Proof.
  induction rs as [|r rs IH]; [reflexivity|].
  simpl. rewrite IH, rect_of_to_dict. reflexivity.
Qed.

(** What [from_dict] makes of a dict that [to_dict] emitted. *)
Lemma from_dict_of_to_dict h0 self data h :
  HighlightCommand.to_dict h0 self = Some data ->
  exists rs,
    mapM (fun l => h0 !! l) (HighlightCommand.rects self) = Some rs
    /\ HighlightCommand.from_dict data h
       = ({| HighlightCommand.rects := seq (length h) (length rs);
             HighlightCommand.page_num := HighlightCommand.page_num self;
             HighlightCommand.color := HighlightCommand.color self;
             HighlightCommand.annotation_indices :=
               HighlightCommand.annotation_indices self;
             HighlightCommand.removed_annotations := [] |},
          h ++ rs).
Proof.
  intros Hd. destruct (to_dict_inv _ _ _ Hd) as (rs & Hrs & ->).
  exists rs. split; [exact Hrs|].
  unfold HighlightCommand.from_dict. cbn [d_rects d_color d_page_num
    d_annotation_indices HighlightCommand.color_to_dict c_r c_g c_b c_a].
  rewrite map_rect_of_to_dict, rgba_of_channels. reflexivity.
Qed.

Lemma to_dict_of_from_dict h0 self data h h2 :
  HighlightCommand.to_dict h0 self = Some data ->
  HighlightCommand.to_dict ((HighlightCommand.from_dict data h).2 ++ h2)
    (HighlightCommand.from_dict data h).1 = Some data.
Proof.
  intros Hd. destruct (from_dict_of_to_dict _ _ _ h Hd) as (rs & Hrs & ->).
  destruct (to_dict_inv _ _ _ Hd) as (rs' & Hrs' & ->).
  assert (rs' = rs) by congruence. subst rs'.
  unfold HighlightCommand.to_dict. cbn [fst snd HighlightCommand.rects].
  rewrite <- app_assoc, lookup_block. reflexivity.
Qed.

(** C2, as the code has it: [to_dict] does not emit the pending snapshot,
    so for a command in the Reversed state the command rebuilt by
    [from_dict(to_dict(command))] has the same page, colour, indices and
    region coordinates (on new [fitz.Rect] objects), and serializes to the
    same dict, but its [removed_annotations] is empty.  Calling [execute()]
    on it therefore performs a first execution: it succeeds and appends one
    new record per region, for the new objects, at the end of the store. *)
Theorem from_dict_yields_first_execution
    (self : HighlightCommand.t) (h : Heap) (data : CommandDict) :
  HighlightCommand.removed_annotations self <> [] ->
  HighlightCommand.to_dict h self = Some data ->
  let command := (HighlightCommand.from_dict data h).1 in
  let h' := (HighlightCommand.from_dict data h).2 in
  HighlightCommand.removed_annotations command = []
  /\ HighlightCommand.page_num command = HighlightCommand.page_num self
  /\ HighlightCommand.color command = HighlightCommand.color self
  /\ HighlightCommand.annotation_indices command
     = HighlightCommand.annotation_indices self
  /\ mapM (fun l => h' !! l) (HighlightCommand.rects command)
     = mapM (fun l => h !! l) (HighlightCommand.rects self)
  /\ HighlightCommand.to_dict h' command = Some data
  /\ (forall w,
        (HighlightCommand.execute command w).1.1 = true
        /\ annotations (HighlightCommand.execute command w).2
           = annotations w
             ++ new_records (HighlightCommand.rects command)
                  (HighlightCommand.page_num self) (HighlightCommand.color self)).
Proof.
  intros _ Hd command h'. subst command h'.
  pose proof (to_dict_of_from_dict _ _ _ h [] Hd) as Hround.
  rewrite app_nil_r in Hround.
  destruct (from_dict_of_to_dict _ _ _ h Hd) as (rs & Hrs & Hfrom).
  rewrite Hfrom in *. cbn [fst snd] in *.
  cbn [HighlightCommand.removed_annotations HighlightCommand.page_num
       HighlightCommand.color HighlightCommand.annotation_indices
       HighlightCommand.rects].
  repeat split; try exact Hround.
  - rewrite Hrs. pose proof (lookup_block rs h []) as Hb.
    rewrite app_nil_r in Hb. exact Hb.
  - apply execute_returns_true.
  - rewrite execute_first by reflexivity. cbn [snd].
    rewrite add_all_annotations. reflexivity.
Qed.

Lemma from_dict_yields_first_execution_witness :
  let h := [mkRect 9 0 21 5] in
  let self := HighlightCommand.set_removed_annotations
                (applied 0 ([0%nat], 0, yellow)) (new_records [0%nat] 0 yellow) in
  let data := {| d_type := "highlight"%string;
                 d_rects := [ {| d_x0 := 9; d_y0 := 0; d_x1 := 21; d_y1 := 5 |} ];
                 d_page_num := 0;
                 d_color := {| c_r := 255; c_g := 255; c_b := 0; c_a := 128 |};
                 d_annotation_indices := Some [Some 0] |} in
  HighlightCommand.to_dict h self = Some data
  /\ HighlightCommand.removed_annotations (HighlightCommand.from_dict data h).1 = []
  /\ HighlightCommand.to_dict (HighlightCommand.from_dict data h).2
       (HighlightCommand.from_dict data h).1 = Some data.
Proof.
  intros h self data.
  assert (Hrev : HighlightCommand.removed_annotations self <> []) by discriminate.
  assert (Hd : HighlightCommand.to_dict h self = Some data) by reflexivity.
  pose proof (from_dict_yields_first_execution self h data Hrev Hd)
    as (H1 & _ & _ & _ & _ & H6 & _).
  split; [exact Hd|split; [exact H1|exact H6]].
Defined.

(** C2 as stated fails.  A command is executed and undone on an empty
    store, serialized and rebuilt.  The rebuilt command has no pending
    snapshot; [execute()] on it does not reinsert the removed record but
    adds a new one, whose rectangle has been padded a second time. *)
Lemma rebuilt_command_is_not_reversed :
  let w := {| heap := [mkRect 10 0 20 5]; doc := None; annotations := [] |} in
  let s1 := HighlightCommand.execute (HighlightCommand.new [0%nat] 0 yellow) w in
  let s2 := HighlightCommand.undo s1.1.2 s1.2 in
  let reversed := s2.1.2 in
  let data := {| d_type := "highlight"%string;
                 d_rects := [ {| d_x0 := 9; d_y0 := 0; d_x1 := 21; d_y1 := 5 |} ];
                 d_page_num := 0;
                 d_color := {| c_r := 255; c_g := 255; c_b := 0; c_a := 128 |};
                 d_annotation_indices := Some [Some 0] |} in
  let rebuilt := HighlightCommand.from_dict data (heap s2.2) in
  let w' := {| heap := rebuilt.2; doc := doc s2.2; annotations := annotations s2.2 |} in
  let redone := (HighlightCommand.execute reversed s2.2).2 in
  let replayed := (HighlightCommand.execute rebuilt.1 w').2 in
  HighlightCommand.to_dict (heap s2.2) reversed = Some data
  /\ HighlightCommand.removed_annotations reversed = new_records [0%nat] 0 yellow
  /\ HighlightCommand.removed_annotations rebuilt.1 = []
  /\ record_view redone <$> annotations redone
     = [("highlight"%string, Some (mkRect 9 0 21 5), 0, yellow)]
  /\ record_view replayed <$> annotations replayed
     = [("highlight"%string, Some (mkRect 8 0 22 5), 0, yellow)]
  /\ record_view replayed <$> annotations replayed
     <> record_view redone <$> annotations redone.
Proof.
  intros w s1 s2 reversed data rebuilt w' redone replayed.
  assert (H1 : record_view redone <$> annotations redone
               = [("highlight"%string, Some (mkRect 9 0 21 5), 0, yellow)])
    by reflexivity.
  assert (H2 : record_view replayed <$> annotations replayed
               = [("highlight"%string, Some (mkRect 8 0 22 5), 0, yellow)])
    by reflexivity.
  split; [reflexivity|]. split; [reflexivity|]. split; [reflexivity|].
  split; [exact H1|split; [exact H2|]].
  rewrite H1, H2. intros H.
  apply (f_equal (fun l => match l with
                           | (_, Some r, _, _) :: _ => x0 r
                           | _ => 0%float
                           end)) in H.
  simpl in H. float_discriminate H.
Qed.

(** ** The index list after an execution *)

Lemma execute_first_indices_length self w :
  HighlightCommand.removed_annotations self = [] ->
  len (HighlightCommand.annotation_indices (HighlightCommand.execute self w).1.2)
  = len (HighlightCommand.annotation_indices self) + len (HighlightCommand.rects self).
Proof.
  intros Hrem. rewrite execute_first by exact Hrem. cbn [fst snd].
  cbn [HighlightCommand.set_annotation_indices HighlightCommand.annotation_indices].
  rewrite add_all_indices, len_app. f_equal.
  unfold len. rewrite length_fmap, length_seqZ. lia.
Qed.

Lemma execute_fresh_invariant (R : list loc) (P : Z) (C : QColor.t) (w : World) :
  let executed := (HighlightCommand.execute (HighlightCommand.new R P C) w).1.2 in
  len (HighlightCommand.rects executed)
  = len (HighlightCommand.annotation_indices executed)
  /\ HighlightCommand.removed_annotations executed = [].
Proof.
  intros executed. subst executed. split; [|apply execute_clears_removed].
  rewrite execute_first_indices_length by reflexivity.
  rewrite execute_first by reflexivity. reflexivity.
Qed.

(** C4 at the failing input.  A command with one region is executed and
    undone on an empty store, serialized with [to_dict] and rebuilt with
    [from_dict] (what saving and loading a session does to the redo
    stack); [execute()] on the rebuilt command succeeds and leaves the
    snapshot empty, but appends the new index to the one that was loaded:
    two indices for one region. *)
Lemma execute_on_rebuilt_command_breaks_invariant :
  let w := {| heap := [mkRect 10 0 20 5]; doc := None; annotations := [] |} in
  let s1 := HighlightCommand.execute (HighlightCommand.new [0%nat] 0 yellow) w in
  let s2 := HighlightCommand.undo s1.1.2 s1.2 in
  let data := {| d_type := "highlight"%string;
                 d_rects := [ {| d_x0 := 9; d_y0 := 0; d_x1 := 21; d_y1 := 5 |} ];
                 d_page_num := 0;
                 d_color := {| c_r := 255; c_g := 255; c_b := 0; c_a := 128 |};
                 d_annotation_indices := Some [Some 0] |} in
  let rebuilt := HighlightCommand.from_dict data (heap s2.2) in
  let w' := {| heap := rebuilt.2; doc := doc s2.2; annotations := annotations s2.2 |} in
  let s3 := HighlightCommand.execute rebuilt.1 w' in
  HighlightCommand.to_dict (heap s2.2) s2.1.2 = Some data
  /\ HighlightCommand.annotation_indices rebuilt.1 = [Some 0]
  /\ s3.1.1 = true
  /\ HighlightCommand.removed_annotations s3.1.2 = []
  /\ HighlightCommand.annotation_indices s3.1.2 = [Some 0; Some 0]
  /\ len (HighlightCommand.rects s3.1.2) = 1
  /\ len (HighlightCommand.annotation_indices s3.1.2) = 2
  /\ len (HighlightCommand.rects s3.1.2)
     <> len (HighlightCommand.annotation_indices s3.1.2).
Proof.
  intros w s1 s2 data rebuilt w' s3. repeat split. discriminate.
Qed.

(** ** Serialization of a history *)

Lemma load_stack_of_to_dict (data : list CommandDict) :
  forall (stack : list HighlightCommand.t) (h : Heap)
         (commands0 : list HighlightCommand.t) (h0 : Heap),
    mapM (HighlightCommand.to_dict h0) commands0 = Some data ->
    exists commands ext,
      CommandHistory.load_stack data stack h = (stack ++ commands, h ++ ext)
      /\ forall h2,
           mapM (HighlightCommand.to_dict (h ++ ext ++ h2)) commands = Some data.
Proof.
  induction data as [|d data IH]; intros stack h commands0 h0 Hm.
  - exists [], []. rewrite !app_nil_r. split; reflexivity.
  - apply mapM_Some in Hm.
    destruct commands0 as [|c0 commands0]; [inversion Hm|].
    apply Forall2_cons in Hm as [Hd Hm]. apply mapM_Some in Hm.
    destruct (to_dict_inv _ _ _ Hd) as (rs0 & _ & Hshape).
    assert (Htype : String.eqb (d_type d) "highlight" = true)
      by (rewrite Hshape; reflexivity).
    cbn [CommandHistory.load_stack]. rewrite Htype.
    destruct (from_dict_of_to_dict _ _ _ h Hd) as (rs & _ & Hfrom).
    pose proof (fun h2 => to_dict_of_from_dict _ _ _ h h2 Hd) as Hback.
    destruct (HighlightCommand.from_dict d h) as [c h1].
    injection Hfrom as _ ->. cbn [fst snd] in Hback.
    destruct (IH (stack ++ [c]) (h ++ rs) commands0 h0 Hm)
      as (commands & ext & Hload & Hdicts).
    rewrite Hload. exists (c :: commands), (rs ++ ext).
    split; [rewrite <- !app_assoc; reflexivity|].
    intros h2. cbn [mapM].
    replace (h ++ (rs ++ ext) ++ h2) with ((h ++ rs) ++ ext ++ h2)
      by (rewrite <- !app_assoc; reflexivity).
    rewrite Hback, Hdicts. reflexivity.
Qed.

Lemma history_to_dict_inv h self data :
  CommandHistory.to_dict h self = Some data ->
  exists us rs,
    mapM (HighlightCommand.to_dict h) (CommandHistory.undo_stack self) = Some us
    /\ mapM (HighlightCommand.to_dict h) (CommandHistory.redo_stack self) = Some rs
    /\ data = {| h_undo_stack := Some us; h_redo_stack := Some rs;
                 h_max_stack_size := Some (CommandHistory.max_stack_size self) |}.
Proof.
  unfold CommandHistory.to_dict. intros Hd.
  destruct (mapM _ (CommandHistory.undo_stack self)) as [us|]; [|discriminate].
  destruct (mapM _ (CommandHistory.redo_stack self)) as [rs|]; [|discriminate].
  simpl in Hd. injection Hd as <-. exists us, rs. repeat split.
Qed.

(** C7: the dict that [to_dict] gives for a history of highlight commands,
    loaded with [load_from_dict] into any history (it is cleared first), on
    any heap, gives a history whose [to_dict] is the very same dict: the
    same keys in the same order with the same values, so that its
    serialization is the same bytes, for [json.dumps] as for every function
    of the dict. *)
Theorem to_dict_load_from_dict_to_dict
    (h0 : Heap) (history : CommandHistory.t HighlightCommand.t) (data : HistoryDict)
    (target : CommandHistory.t HighlightCommand.t) (h : Heap) :
  CommandHistory.to_dict h0 history = Some data ->
  let loaded := (CommandHistory.load_from_dict target data h).1 in
  let h' := (CommandHistory.load_from_dict target data h).2 in
  CommandHistory.to_dict h' loaded = Some data
  /\ forall (B : Type) (dumps : HistoryDict -> B),
       dumps <$> CommandHistory.to_dict h' loaded
       = dumps <$> CommandHistory.to_dict h0 history.
Proof.
  intros Hd loaded h'. subst loaded h'.
  assert (Hround : CommandHistory.to_dict
            (CommandHistory.load_from_dict target data h).2
            (CommandHistory.load_from_dict target data h).1 = Some data).
  { destruct (history_to_dict_inv _ _ _ Hd) as (us & rs & Hus & Hrs & ->).
    unfold CommandHistory.load_from_dict.
    cbn [h_undo_stack h_redo_stack h_max_stack_size default
         CommandHistory.clear CommandHistory.undo_stack CommandHistory.redo_stack].
    unfold id.
    destruct (load_stack_of_to_dict us [] h _ _ Hus) as (cu & e1 & -> & Hcu).
    destruct (load_stack_of_to_dict rs [] (h ++ e1) _ _ Hrs) as (cr & e2 & -> & Hcr).
    cbn [fst snd]. unfold CommandHistory.to_dict.
    cbn [CommandHistory.undo_stack CommandHistory.redo_stack
         CommandHistory.max_stack_size app].
    specialize (Hcu e2). specialize (Hcr []).
    rewrite app_nil_r in Hcr. rewrite app_assoc in Hcu.
    rewrite Hcu, Hcr. reflexivity. }
  split; [exact Hround|].
  intros B dumps. rewrite Hround, Hd. reflexivity.
Qed.

Lemma to_dict_load_from_dict_to_dict_witness :
  let h0 := [mkRect 9 0 21 5; mkRect 9 12 21 17] in
  let history :=
    {| CommandHistory.undo_stack := [applied 0 ([0%nat], 0, yellow)];
       CommandHistory.redo_stack :=
         [HighlightCommand.set_removed_annotations
            (applied 1 ([1%nat], 0, yellow)) (new_records [1%nat] 0 yellow)];
       CommandHistory.max_stack_size := 100 |} in
  exists data,
    CommandHistory.to_dict h0 history = Some data
    /\ CommandHistory.to_dict
         (CommandHistory.load_from_dict (CommandHistory.new 100) data []).2
         (CommandHistory.load_from_dict (CommandHistory.new 100) data []).1
       = Some data.
Proof.
  intros h0 history. eexists. split; [reflexivity|].
  eapply proj1, (to_dict_load_from_dict_to_dict h0 history). reflexivity.
Defined.

(** ** From the selection to rectangles *)

Lemma getitem_middle {A} (prefix suffix : list A) (b : A) :
  Py.getitem (prefix ++ b :: suffix) (len prefix) = Ok b.
Proof.
  unfold Py.getitem.
  assert (Hn : (len prefix <? 0) = false) by apply Z.ltb_ge, len_nonneg.
  cbv zeta. rewrite !Hn.
  replace (Z.to_nat (len prefix)) with (length prefix) by (unfold len; lia).
  rewrite list_lookup_middle by reflexivity. reflexivity.
Qed.

Lemma index_in_range {A} (prefix suffix : list A) (b : A) :
  (len prefix >=? len (prefix ++ b :: suffix)) = false.
Proof.
  rewrite len_app. pose proof (len_nonneg suffix).
  unfold len in *. simpl length. rewrite Z.geb_leb. apply Z.leb_gt. lia.
Qed.

(** The loop reaches the first box of a new line: the line collected so
    far is closed and the box starts the next one. *)
Lemma group_lines_new_line text_blocks prefix b suffix rest zoom
    selected current_line current_y y_int selected' :
  text_blocks = prefix ++ b :: suffix ->
  Py.int_of_float (y (rect b)) = Ok y_int ->
  MainWindow.new_line current_y y_int (rect b) = true ->
  MainWindow.close_line current_line zoom selected = Ok selected' ->
  MainWindow.group_lines text_blocks (len prefix :: rest) zoom
    selected current_line current_y
  = MainWindow.group_lines text_blocks rest zoom selected' [rect b] (Some y_int).
Proof.
  intros -> Hy Hnew Hclose. cbn [MainWindow.group_lines].
  rewrite index_in_range, getitem_middle, Hy, Hnew, Hclose. reflexivity.
Qed.

Lemma group_lines_continue text_blocks prefix b suffix rest zoom
    selected current_line current_y y_int :
  text_blocks = prefix ++ b :: suffix ->
  Py.int_of_float (y (rect b)) = Ok y_int ->
  MainWindow.new_line current_y y_int (rect b) = false ->
  MainWindow.group_lines text_blocks (len prefix :: rest) zoom
    selected current_line current_y
  = MainWindow.group_lines text_blocks rest zoom
      selected (current_line ++ [rect b]) current_y.
Proof.
  intros -> Hy Hsame. cbn [MainWindow.group_lines].
  rewrite index_in_range, getitem_middle, Hy, Hsame. reflexivity.
Qed.

(** The loop runs over boxes that stay on the current line: they are
    collected. *)
Lemma group_lines_same_line zoom y_line line :
  forall text_blocks prefix suffix rest selected current_line,
    text_blocks = prefix ++ line ++ suffix ->
    Forall (fun b => Py.int_of_float (y (rect b)) = Ok y_line
                     /\ MainWindow.new_line (Some y_line) y_line (rect b) = false)
           line ->
    MainWindow.group_lines text_blocks (seqZ (len prefix) (len line) ++ rest) zoom
      selected current_line (Some y_line)
    = MainWindow.group_lines text_blocks rest zoom
        selected (current_line ++ (rect <$> line)) (Some y_line).
Proof.
  induction line as [|b line IH];
    intros text_blocks prefix suffix rest selected current_line Htb Hline.
  - simpl. rewrite app_nil_r. reflexivity.
  - apply Forall_cons in Hline as [[Hy Hsame] Hline].
    rewrite seqZ_len_cons. cbn [app].
    rewrite (group_lines_continue text_blocks prefix b (line ++ suffix)
               _ _ _ _ _ _ Htb Hy Hsame).
    replace (len prefix + 1) with (len (prefix ++ [b]))
      by (rewrite len_app; reflexivity).
    rewrite (IH text_blocks (prefix ++ [b]) suffix rest selected
               (current_line ++ [rect b])); [|rewrite Htb, <- app_assoc; reflexivity|exact Hline].
    rewrite fmap_cons, <- app_assoc. reflexivity.
Qed.

Lemma close_line_extent first others zoom selected :
  PrimFloat.eqb zoom 0 = false ->
  MainWindow.close_line (first :: others) zoom selected
  = Ok (selected ++ [line_extent first others zoom]).
Proof. intros Hz. unfold MainWindow.close_line. rewrite Hz. reflexivity. Qed.






(** * Further properties of the code *)

(** ** remove_annotation *)

(** X1: [remove_annotation(index)] removes exactly the record at [index] and
    returns [True] when the index is in range and the page clean-up does
    not raise; in every other case it returns [False] and the store is as
    it was, the record put back at its place. *)
Theorem remove_annotation_removes_or_restores (index : Z) (w : World) :
  (exists a,
      0 <= index < len (annotations w)
      /\ annotations w !! Z.to_nat index = Some a
      /\ removal_succeeds w (ann_page a) = true
      /\ PDFDocument.remove_annotation index w
         = (true, HighlightCommand.set_annotations w
                    (delete (Z.to_nat index) (annotations w)))
      /\ len (annotations (PDFDocument.remove_annotation index w).2)
         = len (annotations w) - 1)
  \/ (PDFDocument.remove_annotation index w = (false, w)
      /\ (0 <= index < len (annotations w) ->
          exists a, annotations w !! Z.to_nat index = Some a
                    /\ removal_succeeds w (ann_page a) = false)).
Proof.
  destruct (remove_annotation_cases index w) as [(a & Ha & Hok & Hrm)|Hfalse].
  - left. exists a.
    assert (Hin : 0 <= index < len (annotations w)).
    { revert Hrm. unfold PDFDocument.remove_annotation.
      destruct (Z.leb_spec 0 index), (Z.ltb_spec index (len (annotations w)));
        cbn [andb]; try discriminate. lia. }
    repeat split; try assumption; try lia.
    rewrite Hrm. cbn [snd HighlightCommand.set_annotations annotations].
    unfold len in *. rewrite length_delete by eauto. lia.
  - right. split.
    + pose proof (remove_annotation_rollback index w Hfalse) as Hw.
      destruct (PDFDocument.remove_annotation index w) as [ok w'].
      simpl in Hfalse, Hw. subst. reflexivity.
    + intros Hin.
      destruct (annotations w !! Z.to_nat index) as [a|] eqn:Ha.
      * exists a. split; [reflexivity|].
        eapply remove_annotation_false; eassumption.
      * apply lookup_ge_None in Ha. unfold len in Hin. lia.
Qed.

(** ** Undo and redo of records anywhere in the store *)

Lemma restore_all_app indices1 : forall removed1 indices2 removed2 w,
  length indices1 = length removed1 ->
  HighlightCommand.restore_all (indices1 ++ indices2) (removed1 ++ removed2) w
  = HighlightCommand.restore_all indices2 removed2
      (HighlightCommand.restore_all indices1 removed1 w).
Proof.
  induction indices1 as [|idx indices1 IH];
    intros [|a removed1] indices2 removed2 w Hlen; try discriminate.
  - reflexivity.
  - simpl. apply IH. simpl in Hlen. lia.
Qed.

Lemma removal_succeeds_set_annotations w anns p :
  removal_succeeds (HighlightCommand.set_annotations w anns) p
  = removal_succeeds w p.
Proof. reflexivity. Qed.

Lemma Forall2_impl_elem_of {A B} (P Q : A -> B -> Prop) (l : list A) (k : list B) :
  Forall2 P l k ->
  (forall x y, x ∈ l -> P x y -> Q x y) ->
  Forall2 Q l k.
Proof.
  induction 1 as [|x y l k Hxy _ IH]; intros Himp; constructor.
  - apply Himp; [left|exact Hxy].
  - apply IH. intros x' y' Hx'. apply Himp. right. exact Hx'.
Qed.

(** With strictly increasing indices that are all in range, the loop of
    [undo] (which visits them from the last to the first) removes exactly
    the records at these positions, collects them in store order, and the
    restoring loop of [execute] puts each one back where it was. *)
Lemma undo_loop_ascending (zs : list Z) : forall acc w,
  StronglySorted Z.lt zs ->
  Forall (fun z => 0 <= z < len (annotations w)) zs ->
  Forall (fun a => removal_succeeds w (ann_page a) = true) (annotations w) ->
  exists picked rest,
    HighlightCommand.undo_loop (rev (Some <$> zs)) acc w
    = (Ok true, picked ++ acc, HighlightCommand.set_annotations w rest)
    /\ Forall2 (fun z a => annotations w !! Z.to_nat z = Some a) zs picked
    /\ HighlightCommand.restore_all (Some <$> zs) picked
         (HighlightCommand.set_annotations w rest) = w
    /\ rest `sublist_of` annotations w
    /\ (length rest + length zs = length (annotations w))%nat.
Proof.
  induction zs as [|z zs IH] using rev_ind; intros acc w Hsorted Hrange Hok.
  - exists [], (annotations w). simpl. rewrite set_annotations_same.
    repeat split; [constructor|reflexivity|lia].
  - apply StronglySorted_app in Hsorted as (Hlt & Hsorted & _).
    apply Forall_app in Hrange as [Hrange Hz]. rewrite Forall_singleton in Hz.
    rewrite fmap_app, rev_app_distr. cbn [fmap list_fmap rev app].
    cbn [HighlightCommand.undo_loop].
    assert (Hin : (0 <=? z) && (z <? len (annotations w)) = true).
    { apply andb_true_intro. split; [apply Z.leb_le|apply Z.ltb_lt]; lia. }
    rewrite Hin.
    destruct (annotations w !! Z.to_nat z) as [a|] eqn:Ha;
      [|apply lookup_ge_None in Ha; unfold len in Hz; lia].
    destruct (remove_annotation_cases z w) as [(a' & Ha' & _ & Hrm)|Hfalse].
    2:{ exfalso. pose proof (remove_annotation_false z w a Hz Ha Hfalse) as Hbad.
        rewrite Forall_forall in Hok.
        rewrite (Hok a) in Hbad; [discriminate|].
        eapply list_elem_of_lookup_2; exact Ha. }
    rewrite Hrm.
    set (w1 := HighlightCommand.set_annotations w
                 (delete (Z.to_nat z) (annotations w))).
    assert (Hlen1 : (length (annotations w1) + 1 = length (annotations w))%nat).
    { subst w1. cbn [HighlightCommand.set_annotations annotations].
      rewrite length_delete by eauto. unfold len in Hz. lia. }
    assert (Hbelow : Forall (fun z' => z' < z) zs).
    { apply Forall_forall. intros z' Hz'. apply Hlt; [exact Hz'|].
      apply list_elem_of_singleton. reflexivity. }
    destruct (IH (a :: acc) w1 Hsorted) as (picked & rest & Hloop & Hpick & Hback & Hsub & Hlen).
    + rewrite Forall_forall in Hrange, Hbelow. apply Forall_forall.
      intros z' Hz'. specialize (Hrange z' Hz'). specialize (Hbelow z' Hz').
      unfold len in *. lia.
    + subst w1. cbn [HighlightCommand.set_annotations annotations].
      apply Forall_delete. exact Hok.
    + exists (picked ++ [a]), rest.
      rewrite Hloop, <- app_assoc. cbn [app].
      split; [reflexivity|]. split; [|split; [|split]].
      * apply Forall2_app; [|constructor; [exact Ha|constructor]].
        eapply Forall2_impl_elem_of; [exact Hpick|].
        intros z' b Hz' Hb. subst w1.
        cbn [HighlightCommand.set_annotations annotations] in Hb.
        rewrite list_lookup_delete_lt in Hb; [exact Hb|].
        rewrite Forall_forall in Hrange, Hbelow.
        specialize (Hrange z' Hz'). specialize (Hbelow z' Hz'). lia.
      * rewrite restore_all_app by (rewrite length_fmap; eapply Forall2_length; exact Hpick).
        change (HighlightCommand.set_annotations w rest)
          with (HighlightCommand.set_annotations w1 rest).
        rewrite Hback. cbn [HighlightCommand.restore_all HighlightCommand.restore].
        assert (Hle : (z <=? len (annotations w1)) = true).
        { apply Z.leb_le. unfold len in *. lia. }
        rewrite Hle. subst w1.
        cbn [HighlightCommand.set_annotations annotations heap doc].
        pose proof (insert_delete (annotations w) (Z.to_nat z) a Ha) as Hins.
        rewrite Z2Nat.id in Hins by lia.
        rewrite Hins. destruct w. reflexivity.
      * etransitivity; [exact Hsub|]. subst w1. apply sublist_delete.
      * rewrite length_app. simpl. lia.
Qed.

(** X2: For a command whose recorded indices are strictly increasing and all
    in range, wherever in the store they point, [undo()] succeeds, removes
    exactly the records at these indices and keeps them, in store order, as
    its pending snapshot; [execute()] then succeeds and puts every record
    back at its index: the store is exactly as before the [undo()]. *)
Theorem undo_then_redo_restores_store
    (self : HighlightCommand.t) (w : World) (zs : list Z) :
  HighlightCommand.annotation_indices self = Some <$> zs ->
  zs <> [] ->
  StronglySorted Z.lt zs ->
  Forall (fun z => 0 <= z < len (annotations w)) zs ->
  Forall (fun a => removal_succeeds w (ann_page a) = true) (annotations w) ->
  let s2 := HighlightCommand.undo self w in
  let s3 := HighlightCommand.execute s2.1.2 s2.2 in
  s2.1.1 = Ok true
  /\ Forall2 (fun z a => annotations w !! Z.to_nat z = Some a) zs
       (HighlightCommand.removed_annotations s2.1.2)
  /\ annotations s2.2 `sublist_of` annotations w
  /\ (length (annotations s2.2) + length zs = length (annotations w))%nat
  /\ s3.1.1 = true
  /\ s3.2 = w
  /\ s3.1.2 = HighlightCommand.set_removed_annotations self [].
Proof.
  intros Hidx Hne Hsorted Hrange Hok s2 s3. subst s3 s2.
  destruct (undo_loop_ascending zs [] w Hsorted Hrange Hok)
    as (picked & rest & Hloop & Hpick & Hback & Hsub & Hlen).
  rewrite app_nil_r in Hloop.
  assert (Hundo : HighlightCommand.undo self w
    = (Ok true, HighlightCommand.set_removed_annotations self picked,
       HighlightCommand.set_annotations w rest)).
  { unfold HighlightCommand.undo. rewrite Hidx.
    destruct zs as [|z zs]; [contradiction|].
    cbn [fmap list_fmap]. cbn [fmap list_fmap] in Hloop.
    rewrite Hloop. reflexivity. }
  rewrite Hundo. cbn [fst snd].
  assert (Hpicked : picked <> []).
  { intros ->. apply Forall2_length in Hpick. destruct zs; [contradiction|discriminate]. }
  rewrite execute_reversed
    by (cbn [HighlightCommand.set_removed_annotations
             HighlightCommand.removed_annotations]; exact Hpicked).
  cbn [fst snd HighlightCommand.set_removed_annotations
       HighlightCommand.removed_annotations HighlightCommand.annotation_indices
       HighlightCommand.set_annotations annotations].
  rewrite Hidx.
  repeat split; try assumption.
Qed.

Lemma undo_then_redo_restores_store_witness :
  let w := {| heap := [mkRect 9 0 21 5; mkRect 9 12 21 17];
              doc := Some three_pages;
              annotations := new_records [0%nat; 1%nat; 0%nat; 1%nat] 0 yellow |} in
  let self := HighlightCommand.set_annotation_indices
                (HighlightCommand.new [1%nat; 1%nat] 0 yellow) [Some 1; Some 3] in
  annotations (HighlightCommand.undo self w).2 = new_records [0%nat; 0%nat] 0 yellow
  /\ (HighlightCommand.execute (HighlightCommand.undo self w).1.2
        (HighlightCommand.undo self w).2).2 = w.
Proof.
  intros w self.
  assert (Hsorted : StronglySorted Z.lt [1; 3]).
  { repeat constructor. }
  assert (Hrange : Forall (fun z => 0 <= z < len (annotations w)) [1; 3]).
  { repeat constructor; try (unfold len; simpl; lia). }
  assert (Hok : Forall (fun a => removal_succeeds w (ann_page a) = true)
                  (annotations w)).
  { repeat constructor. }
  pose proof (undo_then_redo_restores_store self w [1; 3] eq_refl
                ltac:(discriminate) Hsorted Hrange Hok) as (_ & _ & _ & _ & _ & H & _).
  split; [reflexivity|exact H].
Defined.

(** ** Undo and redo with arbitrary indices *)








Lemma undo_loop_with_none (indices : list (option Z)) : forall removed w,
  None ∈ indices ->
  (HighlightCommand.undo_loop indices removed w).1.1 = Raise TypeError
  \/ (HighlightCommand.undo_loop indices removed w).1.1 = Ok false.
Proof.
  induction indices as [|idx indices IH]; intros removed w Hin.
  - apply elem_of_nil in Hin. contradiction.
  - destruct idx as [z|]; [|left; reflexivity].
    apply elem_of_cons in Hin as [Hin|Hin]; [discriminate|].
    cbn [HighlightCommand.undo_loop].
    destruct ((0 <=? z) && (z <? len (annotations w))) eqn:Hrange;
      [|apply IH, Hin].
    destruct (annotations w !! Z.to_nat z) as [a|] eqn:Ha.
    + destruct (PDFDocument.remove_annotation z w) as [[|] w1];
        [apply IH, Hin|right; reflexivity].
    + exfalso. apply andb_prop in Hrange as [H0 H1].
      apply Z.leb_le in H0. apply Z.ltb_lt in H1.
      apply lookup_ge_None in Ha. unfold len in H1. lia.
Qed.

(** X4: An index that is [None] makes [undo()] fail: the comparison
    [0 <= idx] raises [TypeError] when the loop reaches it, unless a
    failing removal has made [undo()] return [False] before.  ([execute()]
    accepts [None] and appends the record.) *)
Theorem undo_with_none_index_fails (self : HighlightCommand.t) (w : World) :
  None ∈ HighlightCommand.annotation_indices self ->
  ((HighlightCommand.undo self w).1.1 = Raise TypeError
   \/ (HighlightCommand.undo self w).1.1 = Ok false)
  /\ (HighlightCommand.undo self w).1.1 <> Ok true.
Proof.
  intros Hin.
  assert (H : (HighlightCommand.undo self w).1.1 = Raise TypeError
              \/ (HighlightCommand.undo self w).1.1 = Ok false).
  { unfold HighlightCommand.undo.
    destruct (HighlightCommand.annotation_indices self) as [|idx indices] eqn:E;
      [right; reflexivity|].
    pose proof (undo_loop_with_none (rev (idx :: indices)) [] w) as Hloop.
    destruct (HighlightCommand.undo_loop (rev (idx :: indices)) [] w)
      as [[r removed] w'].
    apply Hloop. apply list_elem_of_In, in_rev. rewrite rev_involutive.
    apply list_elem_of_In. exact Hin. }
  split; [exact H|]. destruct H as [-> | ->]; discriminate.
Qed.

Lemma undo_with_none_index_fails_witness :
  let w := {| heap := [mkRect 9 0 21 5]; doc := None;
              annotations := new_records [0%nat] 0 yellow |} in
  let self := HighlightCommand.set_annotation_indices
                (HighlightCommand.new [0%nat] 0 yellow) [None; Some 0] in
  (HighlightCommand.undo self w).1.1 = Raise TypeError
  /\ annotations (HighlightCommand.undo self w).2 = [].
Proof.
  intros w self. split; [|reflexivity].
  destruct (undo_with_none_index_fails self w) as [[H|H] _].
  - apply list_elem_of_here.
  - exact H.
  - discriminate H.
Defined.

(** ** A command through the history: execute, undo, redo *)

Lemma push_shape {C} (m : Z) (stack : list C) (command : C) :
  0 < m -> len stack <= m ->
  exists kept,
    CommandHistory.push m stack command = kept ++ [command]
    /\ len kept < m
    /\ (kept = stack \/ kept = drop 1 stack).
Proof.
  intros Hm Hs. destruct (Z.eq_dec (len stack) m) as [Hfull|Hroom].
  - exists (drop 1 stack). rewrite push_full by exact Hfull.
    destruct stack as [|c stack]; [unfold len in Hfull; simpl in Hfull; lia|].
    simpl. rewrite !drop_0. split; [reflexivity|]. split; [|right; reflexivity].
    unfold len in *. simpl in Hfull. lia.
  - exists stack. rewrite push_room by lia.
    split; [reflexivity|]. split; [lia|left; reflexivity].
Qed.

(** X5: A new highlight command with at least one region, submitted to a
    history within its cap (of at least 1): [execute], [undo] and [redo]
    all return [True]; after the undo the store holds the records it held
    before the command, the command alone is on the redo stack and
    [will_lose_redo_history()] is true; after the redo the history and the
    store are exactly as the [execute] left them. *)
Theorem history_execute_undo_redo
    (self : CommandHistory.t HighlightCommand.t)
    (R : list loc) (P : Z) (C : QColor.t) (w : World) :
  within_cap self ->
  0 < CommandHistory.max_stack_size self ->
  R <> [] ->
  removal_succeeds w P = true ->
  let s1 := CommandHistory.execute self (HighlightCommand.new R P C) w in
  let s2 := CommandHistory.undo s1.1.2 s1.2 in
  let s3 := CommandHistory.redo s2.1.2 s2.2 in
  s1.1.1 = Ok true /\ s2.1.1 = Ok true /\ s3.1.1 = Ok true
  /\ annotations s1.2 = annotations w ++ new_records R P C
  /\ annotations s2.2 = annotations w
  /\ len (CommandHistory.redo_stack s2.1.2) = 1
  /\ CommandHistory.will_lose_redo_history s2.1.2 = true
  /\ s3.1.2 = s1.1.2
  /\ s3.2 = s1.2.
Proof.
  intros [Hu _] Hm HR Hok s1 s2 s3. subst s3 s2 s1.
  rewrite history_execute_highlight.
  destruct (execute_fresh_spec (R, P, C) w) as [Hc Ha].
  change (fresh (R, P, C)) with (HighlightCommand.new R P C) in Hc, Ha.
  cbn [fst snd] in Ha. rewrite Hc.
  set (w1 := (HighlightCommand.execute (HighlightCommand.new R P C) w).2) in *.
  assert (Hdoc : removal_succeeds w1 P = true).
  { unfold removal_succeeds. subst w1. rewrite execute_doc. exact Hok. }
  destruct (undo_redo_applied (R, P, C) (annotations w) w1 HR Ha Hdoc)
    as (Hundo & Hanns & Hw & Hcmd).
  destruct (push_shape (CommandHistory.max_stack_size self)
              (CommandHistory.undo_stack self)
              (applied (len (annotations w)) (R, P, C)) Hm Hu)
    as (kept & Hpush & Hkept & _).
  cbn [fst snd]. rewrite Hpush.
  unfold CommandHistory.undo.
  cbn [CommandHistory.undo_stack CommandHistory.redo_stack
       CommandHistory.max_stack_size].
  rewrite pop_snoc. cbn [command_undo HighlightCommand_Command].
  destruct (HighlightCommand.undo (applied (len (annotations w)) (R, P, C)) w1)
    as [[r2 c2] w2] eqn:Hu2.
  cbn [fst snd] in Hundo, Hanns, Hw, Hcmd. subst r2.
  cbn [fst snd].
  assert (Hredo : CommandHistory.push (CommandHistory.max_stack_size self) [] c2
                  = [c2]).
  { apply (push_room (C := HighlightCommand.t)). unfold len. simpl. lia. }
  rewrite Hredo.
  unfold CommandHistory.redo.
  cbn [CommandHistory.undo_stack CommandHistory.redo_stack
       CommandHistory.max_stack_size].
  change (Py.pop [c2]) with (Some (c2, @nil HighlightCommand.t)).
  cbn [command_execute HighlightCommand_Command].
  pose proof (execute_returns_true c2 w2) as Ht.
  destruct (HighlightCommand.execute c2 w2) as [[b3 c3] w3].
  cbn [fst snd] in Ht, Hw, Hcmd. subst b3 c3 w3.
  cbn [fst snd].
  rewrite (push_room (C := HighlightCommand.t)) by exact Hkept.
  repeat split; try assumption.
Qed.

Lemma history_execute_undo_redo_witness :
  let w := {| heap := [mkRect 10 0 20 5; mkRect 10 12 20 17];
              doc := Some three_pages; annotations := [] |} in
  let self : CommandHistory.t HighlightCommand.t := CommandHistory.new 100 in
  let s1 := CommandHistory.execute self
              (HighlightCommand.new [0%nat; 1%nat] 0 yellow) w in
  let s2 := CommandHistory.undo s1.1.2 s1.2 in
  let s3 := CommandHistory.redo s2.1.2 s2.2 in
  annotations s2.2 = [] /\ s3.1.2 = s1.1.2 /\ s3.2 = s1.2.
Proof.
  intros w self.
  assert (Hcap : within_cap self) by (unfold within_cap, len; simpl; lia).
  pose proof (history_execute_undo_redo self [0%nat; 1%nat] 0 yellow w Hcap
                ltac:(reflexivity) ltac:(discriminate) eq_refl)
    as (_ & _ & _ & _ & H5 & _ & _ & H8 & H9).
  cbv zeta. split; [exact H5|split; [exact H8|exact H9]].
Defined.

(** ** Loading arbitrary dicts *)

Lemma channel_in_range (z : Z) :
  0 <= z <= 255 ->
  exists b, QColor.channel z = Some b /\ Z.of_N (Byte.to_N b) = z.
Proof.
  intros Hz. unfold QColor.channel.
  assert (Hin : (0 <=? z) && (z <=? 255) = true).
  { apply andb_true_intro. split; apply Z.leb_le; lia. }
  rewrite Hin.
  pose proof (Byte.to_of_N_option_map (Z.to_N z)) as Hb.
  assert (Hle : N.leb (Z.to_N z) 255 = true) by (apply N.leb_le; lia).
  rewrite Hle in Hb.
  destruct (Byte.of_N (Z.to_N z)) as [b|]; [|discriminate].
  simpl in Hb. injection Hb as Hb. exists b. split; [reflexivity|].
  rewrite Hb. apply Z2N.id. lia.
Qed.

Lemma color_to_dict_rgba (c : ColorDict) :
  channels_in_range c ->
  HighlightCommand.color_to_dict
    (QColor.rgba (c_r c) (c_g c) (c_b c) (c_a c)) = c.
Proof.
  intros (Hr & Hg & Hb & Ha).
  destruct (channel_in_range _ Hr) as (r & Er & Hr').
  destruct (channel_in_range _ Hg) as (g & Eg & Hg').
  destruct (channel_in_range _ Hb) as (b & Eb & Hb').
  destruct (channel_in_range _ Ha) as (a & Ea & Ha').
  unfold QColor.rgba. rewrite Er, Eg, Eb, Ea.
  unfold HighlightCommand.color_to_dict, QColor.get. simpl.
  rewrite Hr', Hg', Hb', Ha'. destruct c. reflexivity.
Qed.

Lemma color_to_dict_in_range (c : QColor.t) :
  channels_in_range (HighlightCommand.color_to_dict c).
Proof.
  unfold channels_in_range, HighlightCommand.color_to_dict, QColor.get. simpl.
  pose proof (Byte.to_N_bounded (QColor.red c)).
  pose proof (Byte.to_N_bounded (QColor.green c)).
  pose proof (Byte.to_N_bounded (QColor.blue c)).
  pose proof (Byte.to_N_bounded (QColor.alpha c)).
  lia.
Qed.

Lemma lookup_block_fmap {A} (f : A -> Rect) (xs : list A) (h h2 : list Rect) :
  mapM (fun l => (h ++ (f <$> xs) ++ h2) !! l) (seq (length h) (length xs))
  = Some (f <$> xs).
Proof.
  pose proof (lookup_block (f <$> xs) h h2) as Hb.
  rewrite length_fmap in Hb. exact Hb.
Qed.

Lemma from_dict_rebuilt (data : CommandDict) (h : Heap) :
  (HighlightCommand.from_dict data h).2
  = h ++ (HighlightCommand.rect_of_dict <$> d_rects data)
  /\ rebuilt_from (HighlightCommand.from_dict data h).2
       (HighlightCommand.from_dict data h).1 data.
Proof.
  unfold HighlightCommand.from_dict, rebuilt_from. cbn [fst snd].
  cbn [HighlightCommand.set_annotation_indices HighlightCommand.new
       HighlightCommand.page_num HighlightCommand.color HighlightCommand.rects
       HighlightCommand.annotation_indices HighlightCommand.removed_annotations].
  repeat split.
  intros h2. rewrite length_map.
  change (map HighlightCommand.rect_of_dict (d_rects data))
    with (HighlightCommand.rect_of_dict <$> d_rects data).
  rewrite <- app_assoc. apply lookup_block_fmap.
Qed.


Lemma fmap_rect_to_of_dict (ds : list RectDict) :
  map HighlightCommand.rect_to_dict (HighlightCommand.rect_of_dict <$> ds) = ds.
Proof.
  induction ds as [|d ds IH]; [reflexivity|].
  simpl. rewrite rect_to_of_dict. f_equal. exact IH.
Qed.

(** X6: Decoding then encoding: [to_dict] of the command that [from_dict]
    builds gives back the dict it was built from, whenever the dict has
    the type ['highlight'], colour components within [0 .. 255] and the
    key ['annotation_indices']. *)
Theorem to_dict_from_dict (data : CommandDict) (h : Heap) :
  d_type data = "highlight"%string ->
  channels_in_range (d_color data) ->
  is_Some (d_annotation_indices data) ->
  HighlightCommand.to_dict (HighlightCommand.from_dict data h).2
    (HighlightCommand.from_dict data h).1 = Some data.
Proof.
  intros Htype Hcolor [indices Hidx].
  destruct (from_dict_rebuilt data h) as [_ (Hp & Hc & Hi & _ & Hrects)].
  unfold HighlightCommand.to_dict.
  specialize (Hrects []). rewrite app_nil_r in Hrects. rewrite Hrects.
  cbn [mbind option_bind]. rewrite Hp, Hc, Hi.
  rewrite color_to_dict_rgba by exact Hcolor.
  rewrite fmap_rect_to_of_dict.
  destruct data as [ty rs pg col idx]. cbn in Htype, Hidx |- *.
  subst ty idx. reflexivity.
Qed.

Lemma to_dict_from_dict_witness :
  let data := {| d_type := "highlight"%string;
                 d_rects := [ {| d_x0 := 9; d_y0 := 0; d_x1 := 21; d_y1 := 5 |} ];
                 d_page_num := 2;
                 d_color := {| c_r := 255; c_g := 255; c_b := 0; c_a := 128 |};
                 d_annotation_indices := Some [Some 4] |} in
  HighlightCommand.to_dict (HighlightCommand.from_dict data []).2
    (HighlightCommand.from_dict data []).1 = Some data.
Proof.
  intros data. apply to_dict_from_dict.
  - reflexivity.
  - unfold channels_in_range. simpl. lia.
  - eexists. reflexivity.
Defined.



(** ** Saving and restoring the annotations of a session *)

Lemma restore_annotation_spec (d : AnnotationDict) (w : World) :
  heap (Session.restore_annotation d w)
  = heap w ++ [PDFDocument.pad (HighlightCommand.rect_of_dict (a_rect d))]
  /\ annotations (Session.restore_annotation d w)
     = annotations w
       ++ new_records [length (heap w)] (a_page d)
            (QColor.rgba (c_r (a_color d)) (c_g (a_color d))
                         (c_b (a_color d)) (c_a (a_color d)))
  /\ doc (Session.restore_annotation d w) = doc w.
Proof.
  unfold Session.restore_annotation, PDFDocument.add_highlight.
  cbn [heap annotations doc]. repeat split.
  rewrite alter_app_r_alt by lia.
  replace (length (heap w) - length (heap w))%nat with 0%nat by lia.
  reflexivity.
Qed.

Lemma annotation_to_dict_heap_app h h2 ann d :
  Session.annotation_to_dict h ann = Some d ->
  Session.annotation_to_dict (h ++ h2) ann = Some d.
Proof.
  unfold Session.annotation_to_dict.
  destruct (h !! ann_rect ann) as [r|] eqn:Hr; [|discriminate].
  rewrite (lookup_app_l_Some _ h2 _ _ Hr). intros H. exact H.
Qed.

Lemma annotation_to_dict_in_range h ann d :
  Session.annotation_to_dict h ann = Some d -> channels_in_range (a_color d).
Proof.
  unfold Session.annotation_to_dict.
  destruct (h !! ann_rect ann) as [r|]; [|discriminate].
  cbn [mbind option_bind]. intros [= <-]. apply color_to_dict_in_range.
Qed.

Lemma annotations_data_restore_annotation (d : AnnotationDict) (w : World)
    (old : list AnnotationDict) :
  Session.annotations_data w = Some old ->
  channels_in_range (a_color d) ->
  Session.annotations_data (Session.restore_annotation d w)
  = Some (old ++ [repadded d]).
Proof.
  intros Hold Hcolor. unfold Session.annotations_data in *.
  destruct (restore_annotation_spec d w) as (-> & -> & _).
  apply mapM_Some. apply mapM_Some in Hold.
  apply Forall2_app.
  - eapply Forall2_impl; [exact Hold|].
    intros ann e. apply annotation_to_dict_heap_app.
  - constructor; [|constructor].
    unfold Session.annotation_to_dict. cbn [ann_rect ann_type ann_page ann_color].
    rewrite list_lookup_middle by reflexivity. cbn [mbind option_bind].
    rewrite color_to_dict_rgba by exact Hcolor. reflexivity.
Qed.

Lemma annotations_data_restore_annotations (data : list AnnotationDict) :
  forall (w : World) (old : list AnnotationDict),
    Session.annotations_data w = Some old ->
    Forall (fun d => channels_in_range (a_color d)) data ->
    Session.annotations_data (Session.restore_annotations data w)
    = Some (old ++ (repadded <$> data)).
Proof.
  induction data as [|d data IH]; intros w old Hold Hcolors.
  - simpl. rewrite app_nil_r. exact Hold.
  - apply Forall_cons in Hcolors as [Hd Hcolors].
    cbn [Session.restore_annotations fold_left].
    change (fold_left _ data ?w0) with (Session.restore_annotations data w0).
    rewrite (IH _ (old ++ [repadded d]));
      [|apply annotations_data_restore_annotation; assumption|exact Hcolors].
    rewrite <- app_assoc. reflexivity.
Qed.

Lemma annotations_data_in_range (w : World) (data : list AnnotationDict) :
  Session.annotations_data w = Some data ->
  Forall (fun d => channels_in_range (a_color d)) data.
Proof.
  unfold Session.annotations_data. intros Hd. apply mapM_Some in Hd.
  induction Hd as [|ann d anns ds Hann _ IH]; constructor; [|exact IH].
  eapply annotation_to_dict_in_range. exact Hann.
Qed.

(** X8: The annotations saved with a session and restored into an empty store
    come back in the same order with the same pages and colours, but not
    with the same rectangles: the restoring loop goes through
    [add_highlight], which pads every rectangle once more, so that saving
    the restored store gives the saved entries with [x0] lowered and [x1]
    raised by another unit. *)
Theorem restored_annotations_are_padded_again
    (w w0 : World) (data : list AnnotationDict) :
  Session.annotations_data w = Some data ->
  annotations w0 = [] ->
  let w' := Session.restore_annotations data w0 in
  Session.annotations_data w' = Some (repadded <$> data)
  /\ length (annotations w') = length (annotations w)
  /\ a_page <$> (repadded <$> data) = ann_page <$> annotations w
  /\ a_color <$> (repadded <$> data)
     = (fun a => HighlightCommand.color_to_dict (ann_color a)) <$> annotations w.
Proof.
  intros Hsave Hempty w'. subst w'.
  assert (Hnone : Session.annotations_data w0 = Some []).
  { unfold Session.annotations_data. rewrite Hempty. reflexivity. }
  pose proof (annotations_data_restore_annotations data w0 [] Hnone
                (annotations_data_in_range w data Hsave)) as Hdata.
  cbn [app] in Hdata. split; [exact Hdata|].
  unfold Session.annotations_data in Hsave, Hdata.
  apply mapM_Some in Hsave. apply mapM_Some in Hdata.
  split.
  - apply Forall2_length in Hsave, Hdata.
    rewrite length_fmap in Hdata. congruence.
  - clear Hdata. induction Hsave as [|ann d anns ds Hann _ IH].
    + split; reflexivity.
    + destruct IH as [IH1 IH2]. rewrite !fmap_cons, IH1, IH2.
      unfold Session.annotation_to_dict in Hann.
      destruct (heap w !! ann_rect ann); [|discriminate].
      cbn [mbind option_bind] in Hann. injection Hann as <-.
      split; reflexivity.
Qed.

Lemma restored_annotations_are_padded_again_witness :
  let w := {| heap := [mkRect 9 0 21 5]; doc := Some three_pages;
              annotations := new_records [0%nat] 0 yellow |} in
  let w0 := {| heap := []; doc := Some three_pages; annotations := [] |} in
  let saved := {| a_type := "highlight"%string; a_page := 0;
                  a_color := {| c_r := 255; c_g := 255; c_b := 0; c_a := 128 |};
                  a_rect := {| d_x0 := 9; d_y0 := 0; d_x1 := 21; d_y1 := 5 |} |} in
  let again := {| a_type := "highlight"%string; a_page := 0;
                  a_color := {| c_r := 255; c_g := 255; c_b := 0; c_a := 128 |};
                  a_rect := {| d_x0 := 8; d_y0 := 0; d_x1 := 22; d_y1 := 5 |} |} in
  Session.annotations_data w = Some [saved]
  /\ Session.annotations_data (Session.restore_annotations [saved] w0) = Some [again].
Proof.
  intros w w0 saved again.
  assert (Hsave : Session.annotations_data w = Some [saved]) by reflexivity.
  split; [exact Hsave|].
  exact (proj1 (restored_annotations_are_padded_again w w0 [saved] Hsave eq_refl)).
Defined.

(** ** The rectangles of any selection *)

Lemma group_lines_stop text_blocks (start n : Z) zoom selected current_line current_y :
  len text_blocks <= start \/ n <= 0 ->
  MainWindow.group_lines text_blocks (seqZ start n) zoom
    selected current_line current_y
  = Ok (selected, current_line).
Proof.
  intros Hstop. destruct (Z.le_gt_cases n 0) as [Hn|Hn].
  - rewrite seqZ_nil by exact Hn. reflexivity.
  - destruct Hstop as [Hs|Hn']; [|lia].
    rewrite seqZ_cons by lia. cbn [MainWindow.group_lines].
    assert (Hge : (start >=? len text_blocks) = true)
      by (rewrite Z.geb_leb; apply Z.leb_le; exact Hs).
    rewrite Hge. reflexivity.
Qed.

Lemma group_lines_int_raises text_blocks prefix b suffix rest zoom
    selected current_line current_y e :
  text_blocks = prefix ++ b :: suffix ->
  Py.int_of_float (y (rect b)) = Raise e ->
  MainWindow.group_lines text_blocks (len prefix :: rest) zoom
    selected current_line current_y = Raise e.
Proof.
  intros -> Hy. cbn [MainWindow.group_lines].
  rewrite index_in_range, getitem_middle, Hy. reflexivity.
Qed.

Lemma group_lines_close_raises text_blocks prefix b suffix rest zoom
    selected current_line current_y y_int e :
  text_blocks = prefix ++ b :: suffix ->
  Py.int_of_float (y (rect b)) = Ok y_int ->
  MainWindow.new_line current_y y_int (rect b) = true ->
  MainWindow.close_line current_line zoom selected = Raise e ->
  MainWindow.group_lines text_blocks (len prefix :: rest) zoom
    selected current_line current_y = Raise e.
Proof.
  intros -> Hy Hnew Hclose. cbn [MainWindow.group_lines].
  rewrite index_in_range, getitem_middle, Hy, Hnew, Hclose. reflexivity.
Qed.

(** What the loop does over a run of consecutive boxes: it raises (for a
    [y] that [int()] rejects, or on closing a line at zoom factor zero),
    or it has closed some lines, each a run of consecutive boxes, and
    holds the rest as the current line; no box is lost or taken twice. *)
Lemma group_lines_partition zoom (boxes : list TextBlock) :
  forall text_blocks prefix suffix tail selected current_line current_y,
    text_blocks = prefix ++ boxes ++ suffix ->
    (exists e,
        MainWindow.group_lines text_blocks
          (seqZ (len prefix) (len boxes) ++ tail) zoom
          selected current_line current_y = Raise e
        /\ ((e = ZeroDivisionError /\ PrimFloat.eqb zoom 0 = true)
            \/ exists b, b ∈ boxes /\ Py.int_of_float (y (rect b)) = Raise e))
    \/ (exists lines current_line' current_y',
          MainWindow.group_lines text_blocks
            (seqZ (len prefix) (len boxes) ++ tail) zoom
            selected current_line current_y
          = MainWindow.group_lines text_blocks tail zoom
              (selected ++ (line_rectangle zoom <$> lines))
              current_line' current_y'
          /\ concat (line_boxes <$> lines) ++ current_line'
             = current_line ++ (rect <$> boxes)
          /\ (current_line <> [] \/ boxes <> [] -> current_line' <> [])).
Proof.
  induction boxes as [|b boxes IH];
    intros text_blocks prefix suffix tail selected current_line current_y Htb.
  - right. exists [], current_line, current_y. simpl.
    rewrite !app_nil_r. repeat split. intros [H|H]; [exact H|contradiction].
  - assert (Htb' : text_blocks = (prefix ++ [b]) ++ boxes ++ suffix)
      by (rewrite Htb, <- app_assoc; reflexivity).
    assert (Hstep : forall sel cl cy,
      (exists e,
          MainWindow.group_lines text_blocks
            (seqZ (len (prefix ++ [b])) (len boxes) ++ tail) zoom sel cl cy
          = Raise e
          /\ ((e = ZeroDivisionError /\ PrimFloat.eqb zoom 0 = true)
              \/ exists b', b' ∈ b :: boxes
                            /\ Py.int_of_float (y (rect b')) = Raise e))
      \/ (exists lines cl' cy',
            MainWindow.group_lines text_blocks
              (seqZ (len (prefix ++ [b])) (len boxes) ++ tail) zoom sel cl cy
            = MainWindow.group_lines text_blocks tail zoom
                (sel ++ (line_rectangle zoom <$> lines)) cl' cy'
            /\ concat (line_boxes <$> lines) ++ cl' = cl ++ (rect <$> boxes)
            /\ (cl <> [] -> cl' <> []))).
    { intros sel cl cy.
      destruct (IH text_blocks (prefix ++ [b]) suffix tail sel cl cy Htb')
        as [(e & He & Hwhy)|(lines & cl' & cy' & Hrun & Hcover & Hne)].
      - left. exists e. split; [exact He|].
        destruct Hwhy as [Hz|(b' & Hb' & Hraise)]; [left; exact Hz|].
        right. exists b'. split; [right; exact Hb'|exact Hraise].
      - right. exists lines, cl', cy'. split; [exact Hrun|].
        split; [exact Hcover|]. intros Hcl. apply Hne. left. exact Hcl. }
    rewrite seqZ_len_cons. cbn [app].
    replace (len prefix + 1) with (len (prefix ++ [b]))
      by (rewrite len_app; reflexivity).
    destruct (Py.int_of_float (y (rect b))) as [y_int|e] eqn:Hy.
    2:{ left. exists e. split.
        - apply (group_lines_int_raises text_blocks prefix b (boxes ++ suffix));
            assumption.
        - right. exists b. split; [left|exact Hy]. }
    destruct (MainWindow.new_line current_y y_int (rect b)) eqn:Hnew.
    + destruct (MainWindow.close_line current_line zoom selected)
        as [selected'|e] eqn:Hclose.
      * rewrite (group_lines_new_line text_blocks prefix b (boxes ++ suffix)
                   _ zoom selected current_line current_y y_int selected'
                   Htb Hy Hnew Hclose).
        destruct (Hstep selected' [rect b] (Some y_int))
          as [Hraise|(lines & cl' & cy' & Hrun & Hcover & Hne)];
          [left; exact Hraise|].
        right. rewrite Hrun.
        destruct current_line as [|first others].
        -- injection Hclose as <-. exists lines, cl', cy'.
           split; [reflexivity|]. split; [exact Hcover|].
           intros _. apply Hne. discriminate.
        -- unfold MainWindow.close_line in Hclose.
           destruct (PrimFloat.eqb zoom 0); [discriminate|].
           injection Hclose as <-.
           exists ((first, others) :: lines), cl', cy'.
           split; [rewrite fmap_cons, <- app_assoc; reflexivity|].
           split; [|intros _; apply Hne; discriminate].
           rewrite fmap_cons. cbn [concat line_boxes fst snd].
           rewrite <- !app_assoc. cbn [app]. rewrite Hcover. reflexivity.
      * left. exists e. split.
        -- apply (group_lines_close_raises text_blocks prefix b (boxes ++ suffix)
                    _ zoom selected current_line current_y y_int);
             assumption.
        -- left. unfold MainWindow.close_line in Hclose.
           destruct current_line; [discriminate|].
           destruct (PrimFloat.eqb zoom 0) eqn:Hz; [|discriminate].
           injection Hclose as <-. split; reflexivity.
    + rewrite (group_lines_continue text_blocks prefix b (boxes ++ suffix)
                 _ zoom selected current_line current_y y_int Htb Hy Hnew).
      destruct (Hstep selected (current_line ++ [rect b]) current_y)
        as [Hraise|(lines & cl' & cy' & Hrun & Hcover & Hne)];
        [left; exact Hraise|].
      right. exists lines, cl', cy'. rewrite Hrun.
      split; [reflexivity|]. split.
      * rewrite Hcover, <- app_assoc. reflexivity.
      * intros _. apply Hne. destruct current_line; discriminate.
Qed.

Lemma selection_indices (text_blocks : list TextBlock) (s n : Z) :
  0 <= s < len text_blocks -> 0 < n ->
  let boxes := take (Z.to_nat n) (drop (Z.to_nat s) text_blocks) in
  text_blocks
  = take (Z.to_nat s) text_blocks ++ boxes
    ++ drop (Z.to_nat n) (drop (Z.to_nat s) text_blocks)
  /\ len (take (Z.to_nat s) text_blocks) = s
  /\ boxes <> []
  /\ seqZ s n = seqZ s (len boxes) ++ seqZ (s + len boxes) (n - len boxes)
  /\ (len text_blocks <= s + len boxes \/ n - len boxes <= 0).
Proof.
  intros Hs Hn boxes. subst boxes. unfold len in *.
  assert (Hdrop : length (drop (Z.to_nat s) text_blocks)
                  = (length text_blocks - Z.to_nat s)%nat) by apply length_drop.
  split; [rewrite take_drop, take_drop; reflexivity|].
  split; [rewrite length_take; lia|].
  split.
  { intros H. apply (f_equal length) in H. rewrite length_take in H.
    simpl in H. lia. }
  rewrite length_take. split.
  - rewrite <- seqZ_app by lia. f_equal. lia.
  - lia.
Qed.

(** Every outcome of the rectangle computation for a selection that
    starts at a non-negative index. *)
Lemma selected_rects_cases (text_blocks : list TextBlock) (s e : Z) (zoom : float) :
  0 <= Z.min s e ->
  let boxes := selected_boxes text_blocks (Z.min s e) (Z.max s e) in
  (exists exn,
      MainWindow.selected_rects text_blocks s e zoom = Raise exn
      /\ ((exn = ZeroDivisionError /\ PrimFloat.eqb zoom 0 = true /\ boxes <> [])
          \/ exists b, b ∈ boxes /\ Py.int_of_float (y (rect b)) = Raise exn))
  \/ (exists lines,
        MainWindow.selected_rects text_blocks s e zoom
        = Ok (line_rectangle zoom <$> lines)
        /\ concat (line_boxes <$> lines) = rect <$> boxes
        /\ (boxes <> [] -> PrimFloat.eqb zoom 0 = false)).
Proof.
  intros Hmin boxes. subst boxes. unfold MainWindow.selected_rects, selected_boxes.
  set (s' := Z.min s e) in *. set (e' := Z.max s e).
  assert (Hn : 0 < e' + 1 - s') by (subst s' e'; lia).
  destruct (Z.le_gt_cases (len text_blocks) s') as [Hbeyond|Hinside].
  - right. exists []. rewrite group_lines_stop by (left; exact Hbeyond).
    rewrite drop_ge by (unfold len in Hbeyond; lia).
    rewrite take_nil. repeat split. intros H; contradiction.
  - destruct (selection_indices text_blocks s' (e' + 1 - s')
                ltac:(split; [exact Hmin|exact Hinside]) Hn)
      as (Htb & Hprefix & Hboxes & Hseq & Hstop).
    set (boxes := take (Z.to_nat (e' + 1 - s')) (drop (Z.to_nat s') text_blocks)) in *.
    rewrite Hseq.
    replace (seqZ s' (len boxes))
      with (seqZ (len (take (Z.to_nat s') text_blocks)) (len boxes))
      by (rewrite Hprefix; reflexivity).
    destruct (group_lines_partition zoom boxes text_blocks _ _
                (seqZ (s' + len boxes) (e' + 1 - s' - len boxes)) [] [] None Htb)
      as [(exn & Hraise & Hwhy)|(lines & cl & cy & Hrun & Hcover & Hne)].
    + left. exists exn. rewrite Hraise. split; [reflexivity|].
      destruct Hwhy as [[Hz1 Hz2]|Hint]; [left; repeat split; assumption|].
      right. exact Hint.
    + rewrite Hrun, group_lines_stop by exact Hstop. cbn [app] in *.
      destruct cl as [|first others]; [exfalso; apply Hne; [right; exact Hboxes|reflexivity]|].
      unfold MainWindow.close_line.
      destruct (PrimFloat.eqb zoom 0) eqn:Hz.
      * left. exists ZeroDivisionError. split; [reflexivity|].
        left. repeat split. exact Hboxes.
      * right. exists (lines ++ [(first, others)]).
        rewrite fmap_app. split; [reflexivity|]. split; [|intros _; reflexivity].
        rewrite fmap_app, concat_app. cbn [fmap list_fmap concat line_boxes fst snd].
        rewrite app_nil_r. exact Hcover.
Qed.

(** X9: The rectangles of a selection, whenever the computation completes:
    they are the rectangles of consecutive runs of the selected hit-boxes,
    in order, and the runs together are exactly the selected boxes: every
    selected character lies in one rectangle, none in two. *)
Theorem selected_rects_cover_the_selection
    (text_blocks : list TextBlock) (s e : Z) (zoom : float) (rects : list Rect) :
  0 <= Z.min s e ->
  MainWindow.selected_rects text_blocks s e zoom = Ok rects ->
  exists lines,
    rects = line_rectangle zoom <$> lines
    /\ concat (line_boxes <$> lines)
       = rect <$> selected_boxes text_blocks (Z.min s e) (Z.max s e)
    /\ (length rects <= length (selected_boxes text_blocks (Z.min s e) (Z.max s e)))%nat.
Proof.
  intros Hmin Hok.
  destruct (selected_rects_cases text_blocks s e zoom Hmin)
    as [(exn & Hraise & _)|(lines & Hres & Hcover & _)];
    [rewrite Hraise in Hok; discriminate|].
  rewrite Hres in Hok. injection Hok as <-.
  exists lines. split; [reflexivity|]. split; [exact Hcover|].
  rewrite length_fmap.
  rewrite <- (length_fmap rect (selected_boxes _ _ _)), <- Hcover.
  clear. induction lines as [|[f o] lines IH]; [simpl; lia|].
  rewrite fmap_cons. cbn [concat line_boxes fst snd length].
  rewrite length_app. simpl. lia.
Qed.

Lemma selected_rects_cover_the_selection_witness :
  exists lines,
    [ mkRect 2 0 10 (PrimFloat.div 10 1.5); mkRect 2 8 6 (PrimFloat.div 22 1.5) ]
    = line_rectangle 1.5 <$> lines
    /\ concat (line_boxes <$> lines)
       = rect <$> [hit_box "a" 3 0; hit_box "b" 9 0; hit_box "c" 3 12].
Proof.
  destruct (selected_rects_cover_the_selection
              [hit_box "a" 3 0; hit_box "b" 9 0; hit_box "c" 3 12; hit_box "d" 9 12]
              2 0 1.5%float
              [ mkRect 2 0 10 (PrimFloat.div 10 1.5);
                mkRect 2 8 6 (PrimFloat.div 22 1.5) ])
    as (lines & Hr & Hc & _).
  - simpl. lia.
  - vm_compute. reflexivity.
  - exists lines. split; [exact Hr|exact Hc].
Defined.

(** X10: A selection that starts at or beyond the end of [text_blocks] (in
    particular any selection on a page without text) gives no rectangle
    and raises nothing, whatever the zoom factor. *)
Theorem selection_beyond_the_text_is_empty
    (text_blocks : list TextBlock) (s e : Z) (zoom : float) :
  len text_blocks <= Z.min s e ->
  MainWindow.selected_rects text_blocks s e zoom = Ok [].
Proof.
  intros Hbeyond. unfold MainWindow.selected_rects.
  rewrite group_lines_stop by (left; exact Hbeyond). reflexivity.
Qed.

Lemma selection_beyond_the_text_is_empty_witness :
  MainWindow.selected_rects [hit_box "a" 3 0] 4 1 0%float = Ok [].
Proof.
  apply selection_beyond_the_text_is_empty. unfold len. simpl. lia.
Defined.

Lemma selected_boxes_nonempty (text_blocks : list TextBlock) (s e : Z) :
  0 <= Z.min s e < len text_blocks ->
  selected_boxes text_blocks (Z.min s e) (Z.max s e) <> [].
Proof.
  intros Hs. unfold selected_boxes.
  apply (selection_indices text_blocks (Z.min s e) (Z.max s e + 1 - Z.min s e) Hs).
  lia.
Qed.

(** X11: At zoom factor zero every selection that reaches at least one hit-box
    raises [ZeroDivisionError]: no rectangle list is produced (the [y] of
    the selected boxes being finite, so that [int()] accepts them). *)
Theorem selection_at_zoom_zero_raises
    (text_blocks : list TextBlock) (s e : Z) (zoom : float) :
  PrimFloat.eqb zoom 0 = true ->
  0 <= Z.min s e < len text_blocks ->
  Forall finite_y (selected_boxes text_blocks (Z.min s e) (Z.max s e)) ->
  MainWindow.selected_rects text_blocks s e zoom = Raise ZeroDivisionError.
Proof.
  intros Hz Hs Hfinite.
  destruct (selected_rects_cases text_blocks s e zoom (proj1 Hs))
    as [(exn & Hraise & [(-> & _)|(b & Hb & Hint)])|(lines & _ & _ & Hzoom)].
  - exact Hraise.
  - rewrite Forall_forall in Hfinite. destruct (Hfinite b Hb) as [y_int Hy].
    rewrite Hy in Hint. discriminate.
  - rewrite (Hzoom (selected_boxes_nonempty text_blocks s e Hs)) in Hz.
    discriminate.
Qed.

Lemma selection_at_zoom_zero_raises_witness :
  MainWindow.selected_rects [hit_box "a" 3 0; hit_box "b" 9 0] 0 1 0%float
  = Raise ZeroDivisionError.
Proof.
  apply selection_at_zoom_zero_raises.
  - reflexivity.
  - unfold len. simpl. lia.
  - repeat constructor; eexists; vm_compute; reflexivity.
Defined.

Lemma group_one_line text_blocks prefix b others suffix tail zoom y_line :
  text_blocks = prefix ++ (b :: others) ++ suffix ->
  Forall (on_line y_line) (b :: others) ->
  MainWindow.group_lines text_blocks
    (seqZ (len prefix) (len (b :: others)) ++ tail) zoom [] [] None
  = MainWindow.group_lines text_blocks tail zoom
      [] (rect b :: (rect <$> others)) (Some y_line).
Proof.
  intros Htb Hline. apply Forall_cons in Hline as [[Hy _] Hothers].
  rewrite seqZ_len_cons. cbn [app].
  rewrite (group_lines_new_line text_blocks prefix b (others ++ suffix)
             _ zoom [] [] None y_line [] Htb Hy eq_refl eq_refl).
  replace (len prefix + 1) with (len (prefix ++ [b]))
    by (rewrite len_app; reflexivity).
  rewrite (group_lines_same_line zoom y_line others text_blocks (prefix ++ [b]) suffix);
    [reflexivity|rewrite Htb, <- app_assoc; reflexivity|exact Hothers].
Qed.

(** X12: A selection whose hit-boxes all stay on one line (the same [int(y)],
    no negative height) gives exactly one rectangle, the extent of the
    selected boxes only, also when the selection is part of a line. *)
Theorem selection_on_one_line
    (text_blocks : list TextBlock) (s e : Z) (zoom : float)
    (y_line : Z) (b : TextBlock) (others : list TextBlock) :
  0 <= Z.min s e ->
  selected_boxes text_blocks (Z.min s e) (Z.max s e) = b :: others ->
  Forall (on_line y_line) (b :: others) ->
  PrimFloat.eqb zoom 0 = false ->
  MainWindow.selected_rects text_blocks s e zoom
  = Ok [line_extent (rect b) (rect <$> others) zoom].
Proof.
  intros Hmin Hboxes Hline Hz.
  assert (Hinside : Z.min s e < len text_blocks).
  { destruct (Z.le_gt_cases (len text_blocks) (Z.min s e)) as [Hbeyond|H];
      [|exact H].
    unfold selected_boxes in Hboxes.
    rewrite drop_ge, take_nil in Hboxes by (unfold len in Hbeyond; lia).
    discriminate. }
  destruct (selection_indices text_blocks (Z.min s e)
              (Z.max s e + 1 - Z.min s e) ltac:(split; assumption) ltac:(lia))
    as (Htb & Hprefix & _ & Hseq & Hstop).
  unfold selected_boxes in Hboxes. rewrite Hboxes in Htb, Hseq, Hstop.
  unfold MainWindow.selected_rects. rewrite Hseq.
  replace (seqZ (Z.min s e) (len (b :: others)))
    with (seqZ (len (take (Z.to_nat (Z.min s e)) text_blocks)) (len (b :: others)))
    by (rewrite Hprefix; reflexivity).
  rewrite (group_one_line text_blocks _ b others _ _ zoom y_line Htb Hline).
  rewrite group_lines_stop by exact Hstop.
  apply close_line_extent, Hz.
Qed.

Lemma selection_on_one_line_witness :
  MainWindow.selected_rects
    [hit_box "a" 3 0; hit_box "b" 9 0; hit_box "c" 15 0; hit_box "d" 3 12]
    2 1 1.5%float
  = Ok [mkRect 6 0 14 (PrimFloat.div 10 1.5)].
Proof.
  etransitivity.
  - apply (selection_on_one_line _ 2 1 1.5%float 0 (hit_box "b" 9 0) [hit_box "c" 15 0]).
    + simpl. lia.
    + reflexivity.
    + repeat constructor.
    + reflexivity.
  - vm_compute. reflexivity.
Defined.

(** ** Word boundaries *)

Lemma getitem_in_range {A} (l : list A) (i : Z) :
  0 <= i < len l ->
  exists x, Py.getitem l i = Ok x /\ l !! Z.to_nat i = Some x.
Proof.
  intros Hi. unfold Py.getitem.
  assert (Hn : (i <? 0) = false) by (apply Z.ltb_ge; lia).
  cbv zeta. rewrite !Hn.
  destruct (l !! Z.to_nat i) as [x|] eqn:Hx.
  - exists x. split; reflexivity.
  - apply lookup_ge_None in Hx. unfold len in Hi. lia.
Qed.

Section WordBoundariesProperties.
Variable isspace : string -> bool.
Variable text_blocks : list TextBlock.

Lemma word_start_spec (rounds : nat) : forall start,
  rounds = Z.to_nat start ->
  0 <= start <= len text_blocks ->
  exists r,
    PDFDisplayWidget.word_start isspace text_blocks rounds start = Ok r
    /\ 0 <= r <= start
    /\ (forall i b, r <= i < start -> text_blocks !! Z.to_nat i = Some b ->
                    isspace (text b) = false)
    /\ (r = 0 \/ exists b, text_blocks !! Z.to_nat (r - 1) = Some b
                           /\ isspace (text b) = true).
Proof.
  induction rounds as [|rounds IH]; intros start Hrounds Hstart.
  - exists start. simpl. split; [reflexivity|]. split; [lia|].
    split; [intros; lia|left; lia].
  - cbn [PDFDisplayWidget.word_start].
    assert (Hpos : (start >? 0) = true) by (apply Z.gtb_lt; lia).
    rewrite Hpos.
    destruct (getitem_in_range text_blocks (start - 1) ltac:(lia))
      as (b & Hget & Hb).
    rewrite Hget. destruct (isspace (text b)) eqn:Hspace.
    + exists start. split; [reflexivity|]. split; [lia|].
      split; [intros; lia|]. right. exists b. split; assumption.
    + destruct (IH (start - 1) ltac:(lia) ltac:(lia))
        as (r & Hr & Hrange & Hword & Hstop).
      exists r. split; [exact Hr|]. split; [lia|]. split; [|exact Hstop].
      intros i b' Hi Hb'.
      destruct (Z.eq_dec i (start - 1)) as [->|Hne].
      * rewrite Hb in Hb'. injection Hb' as <-. exact Hspace.
      * apply (Hword i b'); [lia|exact Hb'].
Qed.

Lemma word_end_spec (rounds : nat) : forall end_,
  rounds = Z.to_nat (len text_blocks - 1 - end_) ->
  -1 <= end_ < len text_blocks ->
  exists r,
    PDFDisplayWidget.word_end isspace text_blocks rounds end_ = Ok r
    /\ end_ <= r < len text_blocks
    /\ (forall i b, end_ < i <= r -> text_blocks !! Z.to_nat i = Some b ->
                    isspace (text b) = false)
    /\ (r = len text_blocks - 1
        \/ exists b, text_blocks !! Z.to_nat (r + 1) = Some b
                     /\ isspace (text b) = true).
Proof.
  induction rounds as [|rounds IH]; intros end_ Hrounds Hend.
  - exists end_. simpl. split; [reflexivity|]. split; [lia|].
    split; [intros; lia|left; lia].
  - cbn [PDFDisplayWidget.word_end].
    assert (Hlt : (end_ <? len text_blocks - 1) = true) by (apply Z.ltb_lt; lia).
    rewrite Hlt.
    destruct (getitem_in_range text_blocks (end_ + 1) ltac:(lia))
      as (b & Hget & Hb).
    rewrite Hget. destruct (isspace (text b)) eqn:Hspace.
    + exists end_. split; [reflexivity|]. split; [lia|].
      split; [intros; lia|]. right. exists b. split; assumption.
    + destruct (IH (end_ + 1) ltac:(lia) ltac:(lia))
        as (r & Hr & Hrange & Hword & Hstop).
      exists r. split; [exact Hr|]. split; [lia|]. split; [|exact Hstop].
      intros i b' Hi Hb'.
      destruct (Z.eq_dec i (end_ + 1)) as [->|Hne].
      * rewrite Hb in Hb'. injection Hb' as <-. exact Hspace.
      * apply (Hword i b'); [lia|exact Hb'].
Qed.

(** X13: [find_word_boundaries] on a valid character index returns a pair
    [(start, end)] of valid indices around it; no character between
    [start] and [end] other than possibly the one at the index itself is
    whitespace; and the word cannot be extended: [start] is 0 or follows a
    whitespace character, [end] is the last index or precedes one. *)
Theorem find_word_boundaries_spec (char_idx : Z) :
  0 <= char_idx < len text_blocks ->
  exists start end_,
    PDFDisplayWidget.find_word_boundaries isspace text_blocks (Some char_idx)
    = Ok (Some (start, end_))
    /\ 0 <= start <= char_idx /\ char_idx <= end_ < len text_blocks
    /\ (forall i b, start <= i <= end_ -> i <> char_idx ->
                    text_blocks !! Z.to_nat i = Some b -> isspace (text b) = false)
    /\ (start = 0 \/ exists b, text_blocks !! Z.to_nat (start - 1) = Some b
                               /\ isspace (text b) = true)
    /\ (end_ = len text_blocks - 1
        \/ exists b, text_blocks !! Z.to_nat (end_ + 1) = Some b
                     /\ isspace (text b) = true).
Proof.
  intros Hidx.
  destruct (word_start_spec (Z.to_nat char_idx) char_idx eq_refl ltac:(lia))
    as (start & Hs & Hsr & Hsw & Hss).
  destruct (word_end_spec (Z.to_nat (len text_blocks - 1 - char_idx)) char_idx
              eq_refl ltac:(lia))
    as (end_ & He & Her & Hew & Hes).
  exists start, end_. unfold PDFDisplayWidget.find_word_boundaries.
  destruct text_blocks as [|b0 tb] eqn:Htb;
    [unfold len in Hidx; simpl in Hidx; lia|].
  rewrite Hs, He. split; [reflexivity|]. split; [exact Hsr|]. split; [exact Her|].
  split; [|split; assumption].
  intros i b Hi Hne Hb.
  destruct (Z.lt_ge_cases i char_idx) as [Hlt|Hge].
  - apply (Hsw i b); [lia|exact Hb].
  - apply (Hew i b); [lia|exact Hb].
Qed.

End WordBoundariesProperties.

Lemma find_word_boundaries_spec_witness :
  let isspace := fun s : string => String.eqb s " " in
  let tb := [hit_box "a" 0 0; hit_box " " 6 0; hit_box "b" 12 0;
             hit_box "c" 18 0; hit_box " " 24 0; hit_box "d" 30 0] in
  PDFDisplayWidget.find_word_boundaries isspace tb (Some 3) = Ok (Some (2, 3)).
Proof.
  intros isspace tb.
  destruct (find_word_boundaries_spec isspace tb 3) as (start & end_ & H & _).
  - unfold len. simpl. lia.
  - rewrite H. vm_compute in H. symmetry. exact H.
Defined.

(** ** The text search of [highlight_selected_text] *)

Lemma rest_matches_spec (text_blocks : list TextBlock) (chars : list ascii) :
  forall k, TextSearch.rest_matches text_blocks k chars = true
            <-> spells_at text_blocks k chars.
Proof.
  induction chars as [|c chars IH]; intros k; cbn [TextSearch.rest_matches].
  - split; [|reflexivity]. intros _ j c Hj. discriminate.
  - destruct (text_blocks !! k) as [b|] eqn:Hb.
    + destruct (String.eqb (text b) (String c EmptyString)) eqn:Heq.
      * apply String.eqb_eq in Heq. rewrite IH. split.
        -- intros Hrest [|j] c' Hj; simpl in Hj.
           ++ injection Hj as <-. exists b. rewrite Nat.add_0_r. split; assumption.
           ++ destruct (Hrest j c' Hj) as (b' & Hb' & Ht). exists b'.
              rewrite Nat.add_succ_r. split; assumption.
        -- intros Hall j c' Hj. destruct (Hall (S j) c' Hj) as (b' & Hb' & Ht).
           exists b'. rewrite Nat.add_succ_r in Hb'. split; assumption.
      * apply String.eqb_neq in Heq. split; [discriminate|].
        intros Hall. destruct (Hall 0%nat c eq_refl) as (b' & Hb' & Ht).
        rewrite Nat.add_0_r, Hb in Hb'. injection Hb' as <-. contradiction.
    + split; [discriminate|].
      intros Hall. destruct (Hall 0%nat c eq_refl) as (b' & Hb' & Ht).
      rewrite Nat.add_0_r, Hb in Hb'. discriminate.
Qed.

Lemma find_from_test (text_blocks : list TextBlock) (i : nat) (b : TextBlock)
    (first : ascii) (rest : list ascii) :
  text_blocks !! i = Some b ->
  String.eqb (text b) (String first EmptyString)
  && TextSearch.rest_matches text_blocks (S i) rest
  = TextSearch.rest_matches text_blocks i (first :: rest).
Proof.
  intros Hb. cbn [TextSearch.rest_matches]. rewrite Hb.
  destruct (String.eqb (text b) (String first EmptyString)); reflexivity.
Qed.

Lemma find_from_spec (text_blocks : list TextBlock) (first : ascii)
    (rest : list ascii) (blocks : list TextBlock) :
  forall i, drop i text_blocks = blocks ->
  match TextSearch.find_from text_blocks blocks i first rest with
  | Some n =>
      (i <= n)%nat
      /\ TextSearch.rest_matches text_blocks n (first :: rest) = true
      /\ forall m, (i <= m < n)%nat ->
           TextSearch.rest_matches text_blocks m (first :: rest) = false
  | None =>
      forall m, (i <= m)%nat ->
        TextSearch.rest_matches text_blocks m (first :: rest) = false
  end.
Proof.
  induction blocks as [|b blocks IH]; intros i Hdrop;
    cbn [TextSearch.find_from].
  - intros m Hm. cbn [TextSearch.rest_matches].
    assert (Hnone : text_blocks !! m = None).
    { apply lookup_ge_None.
      assert (Hlen : length (drop i text_blocks) = 0%nat) by (rewrite Hdrop; reflexivity).
      rewrite length_drop in Hlen. lia. }
    rewrite Hnone. reflexivity.
  - assert (Hb : text_blocks !! i = Some b).
    { rewrite <- (Nat.add_0_r i), <- lookup_drop, Hdrop. reflexivity. }
    assert (Hnext : drop (S i) text_blocks = blocks).
    { rewrite (drop_S _ _ _ Hb) in Hdrop. injection Hdrop as ->. reflexivity. }
    rewrite (find_from_test _ _ _ _ _ Hb).
    destruct (TextSearch.rest_matches text_blocks i (first :: rest)) eqn:Hhere.
    + split; [lia|]. split; [exact Hhere|]. intros m Hm. lia.
    + specialize (IH (S i) Hnext).
      destruct (TextSearch.find_from text_blocks blocks (S i) first rest) as [n|].
      * destruct IH as (Hle & Hn & Hbefore). split; [lia|]. split; [exact Hn|].
        intros m Hm. destruct (Nat.eq_dec m i) as [->|Hne]; [exact Hhere|].
        apply Hbefore. lia.
      * intros m Hm. destruct (Nat.eq_dec m i) as [->|Hne]; [exact Hhere|].
        apply IH. lia.
Qed.

Lemma length_string_of_list_ascii (chars : list ascii) :
  String.length (string_of_list_ascii chars) = length chars.
Proof. induction chars as [|c chars IH]; simpl; [reflexivity|]. rewrite IH. reflexivity. Qed.

Lemma length_list_ascii_of_string (s : string) :
  length (list_ascii_of_string s) = String.length s.
Proof. induction s as [|c s IH]; simpl; [reflexivity|]. rewrite IH. reflexivity. Qed.

Lemma spells_at_in_range (text_blocks : list TextBlock) (i : nat) (chars : list ascii) :
  spells_at text_blocks i chars -> chars <> [] ->
  (i + length chars <= length text_blocks)%nat.
Proof.
  intros Hspell Hne.
  destruct (Nat.eq_dec (length chars) 0%nat) as [Hz|Hnz].
  { destruct chars; [contradiction|discriminate]. }
  destruct (lookup_lt_is_Some_2 chars (length chars - 1)%nat ltac:(lia)) as [c Hc].
  destruct (Hspell _ _ Hc) as (b & Hb & _).
  apply lookup_lt_Some in Hb. lia.
Qed.

(** X14: When the search of [highlight_selected_text] finds the text, the
    selection it sets starts at a valid index, is as long as the text, the
    hit-boxes of the selection spell the text character by character, and
    no earlier index does: it is the first occurrence. *)
Theorem find_text_finds_first_occurrence
    (text_blocks : list TextBlock) (text_ : string) (s e : Z) :
  TextSearch.find_text text_blocks text_ = Some (s, e) ->
  0 <= s /\ e = s + Z.of_nat (String.length text_) - 1 /\ s <= e < len text_blocks
  /\ spells_at text_blocks (Z.to_nat s) (list_ascii_of_string text_)
  /\ forall i, (i < Z.to_nat s)%nat ->
       ~ spells_at text_blocks i (list_ascii_of_string text_).
Proof.
  unfold TextSearch.find_text. intros Hfind.
  pose proof (length_list_ascii_of_string text_) as Hlen.
  destruct (list_ascii_of_string text_) as [|first rest] eqn:Hchars; [discriminate|].
  pose proof (find_from_spec text_blocks first rest text_blocks 0%nat (drop_0 _)) as Hspec.
  destruct (TextSearch.find_from text_blocks text_blocks 0%nat first rest) as [n|];
    [|discriminate].
  injection Hfind as <- <-. destruct Hspec as (_ & Hn & Hbefore).
  rewrite Nat2Z.id. apply rest_matches_spec in Hn.
  pose proof (spells_at_in_range _ _ _ Hn ltac:(discriminate)) as Hrange.
  simpl in Hlen, Hrange. unfold len.
  split; [lia|]. split; [reflexivity|]. split; [lia|]. split; [exact Hn|].
  intros i Hi Hspell. apply rest_matches_spec in Hspell.
  rewrite Hbefore in Hspell by lia. discriminate.
Qed.

Lemma find_text_finds_first_occurrence_witness :
  let tb := [hit_box "a" 0 0; hit_box "b" 6 0; hit_box "a" 12 0; hit_box "b" 18 0] in
  TextSearch.find_text tb "ab" = Some (0, 1)
  /\ spells_at tb 0%nat (list_ascii_of_string "ab").
Proof.
  intros tb.
  assert (H : TextSearch.find_text tb "ab" = Some (0, 1)) by reflexivity.
  split; [exact H|].
  exact (proj1 (proj2 (proj2 (proj2
           (find_text_finds_first_occurrence tb "ab" 0 1 H))))).
Defined.

(** X15: The search gives up exactly when the text is empty or occurs
    nowhere in the hit-boxes of the page. *)
Theorem find_text_none_iff_no_occurrence
    (text_blocks : list TextBlock) (text_ : string) :
  TextSearch.find_text text_blocks text_ = None
  <-> text_ = EmptyString
      \/ forall i, ~ spells_at text_blocks i (list_ascii_of_string text_).
Proof.
  unfold TextSearch.find_text.
  destruct text_ as [|first text_]; cbn [list_ascii_of_string].
  { split; [left|]; reflexivity. }
  pose proof (find_from_spec text_blocks first (list_ascii_of_string text_)
                text_blocks 0%nat (drop_0 _)) as Hspec.
  destruct (TextSearch.find_from text_blocks text_blocks 0%nat first
              (list_ascii_of_string text_)) as [n|].
  - destruct Hspec as (_ & Hn & _). apply rest_matches_spec in Hn.
    split; [discriminate|]. intros [Hempty|Hnone]; [discriminate|].
    destruct (Hnone n Hn).
  - split; [|reflexivity]. intros _. right. intros i Hspell.
    apply rest_matches_spec in Hspell. rewrite Hspec in Hspell by lia.
    discriminate.
Qed.

(** ** The selected text *)

Lemma join_texts_in_range (text_blocks : list TextBlock) (n : nat) :
  forall s : nat, (s + n <= length text_blocks)%nat ->
  PDFDisplayWidget.join_texts text_blocks (seqZ (Z.of_nat s) (Z.of_nat n))
  = Ok (texts_of (take n (drop s text_blocks))).
Proof.
  induction n as [|n IH]; intros s Hs.
  - reflexivity.
  - rewrite Nat2Z.inj_succ, seqZ_cons by lia.
    cbn [PDFDisplayWidget.join_texts].
    destruct (getitem_in_range text_blocks (Z.of_nat s)
                ltac:(unfold len; lia)) as (b & Hget & Hb).
    rewrite Hget. rewrite Nat2Z.id in Hb.
    replace (Z.succ (Z.of_nat s)) with (Z.of_nat (S s)) by lia.
    replace (Z.pred (Z.succ (Z.of_nat n))) with (Z.of_nat n) by lia.
    rewrite (IH (S s)) by lia.
    rewrite (drop_S _ _ _ Hb). reflexivity.
Qed.

Lemma selected_text_in_range (text_blocks : list TextBlock) (s e : Z) :
  0 <= s < len text_blocks -> 0 <= e < len text_blocks ->
  PDFDisplayWidget.selected_text text_blocks s e
  = Ok (texts_of (selected_boxes text_blocks (Z.min s e) (Z.max s e))).
Proof.
  intros Hs He. unfold PDFDisplayWidget.selected_text, selected_boxes. cbv zeta.
  unfold len in Hs, He.
  rewrite <- (Z2Nat.id (Z.min s e)) at 1 by lia.
  rewrite <- (Z2Nat.id (Z.max s e + 1 - Z.min s e)) at 1 by lia.
  apply join_texts_in_range. lia.
Qed.

Lemma texts_of_single_chars (boxes : list TextBlock) :
  single_chars boxes ->
  exists chars, texts_of boxes = string_of_list_ascii chars
                /\ length chars = length boxes
                /\ spells_at boxes 0 chars.
Proof.
  induction boxes as [|b boxes IH]; intros Hsingle.
  - exists []. split; [reflexivity|]. split; [reflexivity|].
    intros j c Hj. discriminate.
  - apply Forall_cons in Hsingle as [[c Hc] Hsingle].
    destruct (IH Hsingle) as (chars & Htexts & Hlen & Hspell).
    exists (c :: chars). cbn [texts_of foldr]. fold (texts_of boxes).
    rewrite Hc, Htexts. split; [reflexivity|]. split; [simpl; lia|].
    intros [|j] c' Hj; simpl in Hj.
    + injection Hj as <-. exists b. split; [reflexivity|exact Hc].
    + destruct (Hspell j c' Hj) as (b' & Hb' & Ht). exists b'.
      split; [exact Hb'|exact Ht].
Qed.

Lemma spells_at_texts_of (text_blocks : list TextBlock) (chars : list ascii) :
  forall i, spells_at text_blocks i chars ->
  texts_of (take (length chars) (drop i text_blocks)) = string_of_list_ascii chars.
Proof.
  induction chars as [|c chars IH]; intros i Hspell.
  - reflexivity.
  - destruct (Hspell 0%nat c eq_refl) as (b & Hb & Ht).
    rewrite Nat.add_0_r in Hb. rewrite (drop_S _ _ _ Hb).
    cbn [length take texts_of foldr string_of_list_ascii].
    fold (texts_of (take (length chars) (drop (S i) text_blocks))).
    rewrite (IH (S i)), Ht; [reflexivity|].
    intros j c' Hj. destruct (Hspell (S j) c' Hj) as (b' & Hb' & Ht').
    exists b'. rewrite Nat.add_succ_r in Hb'. split; assumption.
Qed.

Lemma spells_at_drop (text_blocks : list TextBlock) (i n : nat) (chars : list ascii) :
  spells_at (take n (drop i text_blocks)) 0 chars ->
  spells_at text_blocks i chars.
Proof.
  intros Hspell j c Hj. destruct (Hspell j c Hj) as (b & Hb & Ht).
  exists b. split; [|exact Ht].
  apply lookup_take_Some in Hb as [Hb _]. rewrite lookup_drop in Hb. exact Hb.
Qed.

(** X16: Searching for the text of a selection of single-character
    hit-boxes always succeeds: it finds a selection of the same length that
    starts at or before the original one and has the same text.  It is the
    first occurrence of the text, so it may be another place than the one
    that was selected. *)
Theorem search_finds_selected_text
    (text_blocks : list TextBlock) (s e : Z) :
  single_chars text_blocks ->
  0 <= s < len text_blocks -> 0 <= e < len text_blocks ->
  exists t s',
    PDFDisplayWidget.selected_text text_blocks s e = Ok t
    /\ TextSearch.find_text text_blocks t = Some (s', s' + (Z.max s e - Z.min s e))
    /\ 0 <= s' <= Z.min s e
    /\ PDFDisplayWidget.selected_text text_blocks s' (s' + (Z.max s e - Z.min s e))
       = Ok t.
Proof.
  intros Hsingle Hs He.
  pose proof (selected_text_in_range text_blocks s e Hs He) as Hsel.
  set (lo := Z.min s e) in *. set (hi := Z.max s e) in *.
  assert (Hlo : 0 <= lo <= hi /\ hi < len text_blocks) by (unfold lo, hi; lia).
  assert (Hboxes : single_chars (selected_boxes text_blocks lo hi)).
  { unfold selected_boxes, single_chars. apply Forall_take, Forall_drop. exact Hsingle. }
  destruct (texts_of_single_chars _ Hboxes) as (chars & Htexts & Hlen & Hspell).
  assert (Hcount : length chars = Z.to_nat (hi + 1 - lo)).
  { rewrite Hlen. unfold selected_boxes.
    rewrite length_take, length_drop. unfold len in Hlo. lia. }
  apply spells_at_drop in Hspell.
  exists (string_of_list_ascii chars). rewrite Htexts in Hsel.
  unfold TextSearch.find_text.
  rewrite list_ascii_of_string_of_list_ascii, length_string_of_list_ascii.
  destruct chars as [|first rest] eqn:Hchars; [simpl in Hcount; lia|].
  pose proof (find_from_spec text_blocks first rest text_blocks 0%nat (drop_0 _))
    as Hspec.
  destruct (TextSearch.find_from text_blocks text_blocks 0%nat first rest) as [n|].
  - destruct Hspec as (_ & Hn & Hbefore).
    assert (Hfirst : (n <= Z.to_nat lo)%nat).
    { destruct (Nat.le_gt_cases n (Z.to_nat lo)) as [H|H]; [exact H|].
      apply rest_matches_spec in Hspell.
      rewrite Hbefore in Hspell by lia. discriminate. }
    apply rest_matches_spec in Hn.
    pose proof (spells_at_in_range _ _ _ Hn ltac:(discriminate)) as Hrange.
    exists (Z.of_nat n). split; [exact Hsel|].
    split; [f_equal; f_equal; lia|]. split; [lia|].
    rewrite selected_text_in_range by (unfold len; lia).
    f_equal. unfold selected_boxes.
    rewrite Z.min_l, Z.max_r by lia.
    replace (Z.to_nat (Z.of_nat n + (hi - lo) + 1 - Z.of_nat n))
      with (length (first :: rest)) by lia.
    rewrite Nat2Z.id. apply spells_at_texts_of. exact Hn.
  - apply rest_matches_spec in Hspell. rewrite Hspec in Hspell by lia.
    discriminate.
Qed.

Lemma search_finds_selected_text_witness :
  let tb := [hit_box "a" 0 0; hit_box "b" 6 0; hit_box "a" 12 0; hit_box "b" 18 0] in
  exists t s',
    PDFDisplayWidget.selected_text tb 3 2 = Ok t
    /\ TextSearch.find_text tb t = Some (s', s' + (Z.max 3 2 - Z.min 3 2))
    /\ 0 <= s' <= Z.min 3 2
    /\ PDFDisplayWidget.selected_text tb s' (s' + (Z.max 3 2 - Z.min 3 2)) = Ok t.
Proof.
  intros tb. apply (search_finds_selected_text tb 3 2).
  - unfold single_chars, tb, hit_box. repeat constructor; eexists; reflexivity.
  - unfold len. simpl. lia.
  - unfold len. simpl. lia.
Defined.

(** ** The character under the pointer *)

Lemma nearest_from_valid (text_blocks : list TextBlock) (pos_x pos_y : Z)
    (P : Z -> Prop) :
  (forall i b, text_blocks !! i = Some b ->
               PDFDisplayWidget.within_vertical_bounds pos_y (rect b) = true ->
               P (Z.of_nat i)) ->
  forall blocks idx min_dist nearest_idx r,
    drop idx text_blocks = blocks ->
    (forall i, nearest_idx = Some i -> P i) ->
    PDFDisplayWidget.nearest_from blocks idx pos_x pos_y min_dist nearest_idx = Some r ->
    P r.
Proof.
  intros HP. induction blocks as [|b blocks IH];
    intros idx min_dist nearest_idx r Hdrop Hnearest;
    cbn [PDFDisplayWidget.nearest_from].
  - intros Hr. apply Hnearest. exact Hr.
  - assert (Hb : text_blocks !! idx = Some b).
    { rewrite <- (Nat.add_0_r idx), <- lookup_drop, Hdrop. reflexivity. }
    assert (Hnext : drop (S idx) text_blocks = blocks).
    { rewrite (drop_S _ _ _ Hb) in Hdrop. injection Hdrop as ->. reflexivity. }
    destruct (PDFDisplayWidget.within_vertical_bounds pos_y (rect b)) eqn:Hin.
    + cbv zeta.
      destruct (PrimFloat.ltb _ min_dist).
      * apply (IH (S idx)); [exact Hnext|].
        intros i Hi. injection Hi as <-. apply (HP idx b Hb Hin).
      * apply (IH (S idx)); assumption.
    + apply (IH (S idx)); assumption.
Qed.

Lemma nearest_from_none (pos_x pos_y : Z) :
  forall blocks idx min_dist,
    Forall (fun b => PDFDisplayWidget.within_vertical_bounds pos_y (rect b) = false)
           blocks ->
    PDFDisplayWidget.nearest_from blocks idx pos_x pos_y min_dist None = None.
Proof.
  induction blocks as [|b blocks IH]; intros idx min_dist Hall;
    cbn [PDFDisplayWidget.nearest_from]; [reflexivity|].
  apply Forall_cons in Hall as [Hb Hall]. rewrite Hb. apply IH. exact Hall.
Qed.

Lemma find_nearest_char_valid (text_blocks : list TextBlock) (pos_x pos_y idx : Z) :
  PDFDisplayWidget.find_nearest_char text_blocks pos_x pos_y = Some idx ->
  valid_index text_blocks idx.
Proof.
  unfold PDFDisplayWidget.find_nearest_char.
  apply (nearest_from_valid text_blocks pos_x pos_y (valid_index text_blocks)).
  - intros i b Hb _. apply lookup_lt_Some in Hb. unfold valid_index, len. lia.
  - apply drop_0.
  - discriminate.
Qed.

(** X17: The index that [find_nearest_char] returns is a valid index of
    [text_blocks], and the pointer is within the vertical bounds of that
    hit-box, whatever its horizontal distance; and when the pointer is
    within the vertical bounds of no hit-box, the result is [None]. *)
Theorem find_nearest_char_under_pointer
    (text_blocks : list TextBlock) (pos_x pos_y : Z) :
  match PDFDisplayWidget.find_nearest_char text_blocks pos_x pos_y with
  | Some idx =>
      valid_index text_blocks idx
      /\ exists b, text_blocks !! Z.to_nat idx = Some b
                   /\ PDFDisplayWidget.within_vertical_bounds pos_y (rect b) = true
  | None => True
  end
  /\ (Forall (fun b => PDFDisplayWidget.within_vertical_bounds pos_y (rect b) = false)
             text_blocks ->
      PDFDisplayWidget.find_nearest_char text_blocks pos_x pos_y = None).
Proof.
  split.
  - destruct (PDFDisplayWidget.find_nearest_char text_blocks pos_x pos_y)
      as [idx|] eqn:Hfind; [|exact I].
    unfold PDFDisplayWidget.find_nearest_char in Hfind.
    revert Hfind.
    apply (nearest_from_valid text_blocks pos_x pos_y
             (fun i => valid_index text_blocks i
                       /\ exists b, text_blocks !! Z.to_nat i = Some b
                                    /\ PDFDisplayWidget.within_vertical_bounds
                                         pos_y (rect b) = true)).
    + intros i b Hb Hin. split.
      * apply lookup_lt_Some in Hb. unfold valid_index, len. lia.
      * exists b. rewrite Nat2Z.id. split; assumption.
    + apply drop_0.
    + discriminate.
  - apply nearest_from_none.
Qed.

(** ** The mouse handlers *)

Lemma find_word_boundaries_valid (isspace : string -> bool)
    (text_blocks : list TextBlock) (char_idx : Z) :
  valid_index text_blocks char_idx ->
  exists start end_,
    PDFDisplayWidget.find_word_boundaries isspace text_blocks (Some char_idx)
    = Ok (Some (start, end_))
    /\ valid_index text_blocks start /\ valid_index text_blocks end_.
Proof.
  unfold valid_index. intros Hidx.
  destruct (word_start_spec isspace text_blocks (Z.to_nat char_idx) char_idx
              eq_refl ltac:(lia)) as (start & Hs & Hsr & _).
  destruct (word_end_spec isspace text_blocks
              (Z.to_nat (len text_blocks - 1 - char_idx)) char_idx
              eq_refl ltac:(lia)) as (end_ & He & Her & _).
  exists start, end_. unfold PDFDisplayWidget.find_word_boundaries.
  destruct text_blocks as [|b0 tb] eqn:Htb;
    [unfold len in Hidx; simpl in Hidx; lia|].
  rewrite Hs, He. split; [reflexivity|]. split; lia.
Qed.

Lemma update_selection_valid (text_blocks : list TextBlock) (s e : Z)
    (selecting : bool) (t : option string) :
  valid_index text_blocks s -> valid_index text_blocks e ->
  exists st',
    PDFDisplayWidget.update_selection text_blocks
      {| PDFDisplayWidget.selection_start := Some s;
         PDFDisplayWidget.selection_end := Some e;
         PDFDisplayWidget.is_selecting := selecting;
         PDFDisplayWidget.current_selection_text := t |} = Ok st'
    /\ consistent text_blocks st'.
Proof.
  intros Hs He. unfold PDFDisplayWidget.update_selection.
  cbn [PDFDisplayWidget.selection_start PDFDisplayWidget.selection_end
       PDFDisplayWidget.is_selecting].
  rewrite (selected_text_in_range text_blocks s e Hs He).
  eexists. split; [reflexivity|]. right. exists s, e.
  cbn. repeat split; try apply Hs; try apply He.
Qed.

Lemma handle_consistent (isspace : string -> bool) (text_blocks : list TextBlock)
    (st : PDFDisplayWidget.State) (ev : PDFDisplayWidget.MouseEvent) :
  consistent text_blocks st ->
  exists st', PDFDisplayWidget.handle isspace text_blocks st ev = Ok st'
              /\ consistent text_blocks st'.
Proof.
  intros Hst.
  destruct ev as [left_button shift pos_x pos_y|left_button pos_x pos_y
                 |pos_x pos_y|left_button];
    cbn [PDFDisplayWidget.handle].
  - unfold PDFDisplayWidget.mousePressEvent.
    destruct left_button; [|exists st; split; [reflexivity|exact Hst]].
    destruct (PDFDisplayWidget.find_nearest_char text_blocks pos_x pos_y)
      as [char_idx|] eqn:Hfind; [|exists st; split; [reflexivity|exact Hst]].
    apply find_nearest_char_valid in Hfind. cbv zeta.
    destruct Hst as [(Hs & _)|(s & e & Hs & _ & Hvs & _)]; rewrite Hs.
    + rewrite andb_false_r. cbv beta iota.
      apply update_selection_valid; exact Hfind.
    + rewrite andb_true_r. destruct shift; cbv beta iota.
      * apply update_selection_valid; assumption.
      * apply update_selection_valid; exact Hfind.
  - unfold PDFDisplayWidget.mouseDoubleClickEvent.
    destruct left_button; [|exists st; split; [reflexivity|exact Hst]].
    destruct (PDFDisplayWidget.find_nearest_char text_blocks pos_x pos_y)
      as [char_idx|] eqn:Hfind; [|exists st; split; [reflexivity|exact Hst]].
    apply find_nearest_char_valid in Hfind.
    destruct (find_word_boundaries_valid isspace text_blocks char_idx Hfind)
      as (start & end_ & Hbounds & Hstart & Hend).
    rewrite Hbounds. cbn [fmap option_fmap option_map fst snd].
    apply update_selection_valid; assumption.
  - unfold PDFDisplayWidget.mouseMoveEvent.
    destruct (PDFDisplayWidget.is_selecting st) eqn:Hsel;
      [|exists st; split; [reflexivity|exact Hst]].
    destruct (PDFDisplayWidget.find_nearest_char text_blocks pos_x pos_y)
      as [char_idx|] eqn:Hfind; [|exists st; split; [reflexivity|exact Hst]].
    apply find_nearest_char_valid in Hfind.
    destruct Hst as [(_ & _ & Hno & _)|(s & e & Hs & _ & Hvs & _)];
      [rewrite Hno in Hsel; discriminate|].
    rewrite Hs. apply update_selection_valid; assumption.
  - eexists. split; [reflexivity|].
    unfold PDFDisplayWidget.mouseReleaseEvent.
    destruct left_button; [|exact Hst].
    destruct Hst as [(Hs & He & Hno & Ht)|(s & e & Hs & He & Hvs & Hve & Ht)].
    + left. cbn. repeat split; assumption.
    + right. exists s, e. cbn. repeat split; try assumption; try apply Hvs;
        try apply Hve.
Qed.

(** X18: Whatever mouse events reach a widget whose selection is
    consistent, no handler raises, and the selection stays consistent:
    either absent, or two valid indices of [text_blocks] together with the
    text of the hit-boxes between them as the text handed to the main
    window. *)
Theorem mouse_events_keep_selection_consistent
    (isspace : string -> bool) (text_blocks : list TextBlock)
    (events : list PDFDisplayWidget.MouseEvent) (st : PDFDisplayWidget.State) :
  consistent text_blocks st ->
  exists st', PDFDisplayWidget.handle_all isspace text_blocks st events = Ok st'
              /\ consistent text_blocks st'.
Proof.
  revert st. induction events as [|ev events IH]; intros st Hst.
  - exists st. split; [reflexivity|exact Hst].
  - cbn [PDFDisplayWidget.handle_all].
    destruct (handle_consistent isspace text_blocks st ev Hst) as (st1 & Hev & Hst1).
    rewrite Hev. apply IH. exact Hst1.
Qed.

Lemma mouse_events_keep_selection_consistent_witness :
  let isspace := fun s : string => String.eqb s " " in
  let tb := [hit_box "a" 0 0; hit_box " " 6 0; hit_box "b" 12 0;
             hit_box "c" 18 0; hit_box " " 24 0; hit_box "d" 30 0] in
  let events := [PDFDisplayWidget.MousePress true false 14 5;
                 PDFDisplayWidget.MouseMove 32 5;
                 PDFDisplayWidget.MouseRelease true;
                 PDFDisplayWidget.MouseDoubleClick true 20 5] in
  consistent tb PDFDisplayWidget.initial
  /\ exists st', PDFDisplayWidget.handle_all isspace tb PDFDisplayWidget.initial events
                 = Ok st'
                 /\ consistent tb st'.
Proof.
  intros isspace tb events.
  assert (Hinit : consistent tb PDFDisplayWidget.initial).
  { left. repeat split. }
  split; [exact Hinit|].
  exact (mouse_events_keep_selection_consistent isspace tb events
           PDFDisplayWidget.initial Hinit).
Defined.

Lemma find_nearest_char_under_pointer_witness :
  let tb := [hit_box "a" 0 0; hit_box "b" 6 0; hit_box "c" 12 0; hit_box "d" 18 0] in
  PDFDisplayWidget.find_nearest_char tb 14 5 = Some 2 /\ valid_index tb 2.
Proof.
  intros tb.
  assert (H : PDFDisplayWidget.find_nearest_char tb 14 5 = Some 2) by reflexivity.
  split; [exact H|].
  pose proof (proj1 (find_nearest_char_under_pointer tb 14 5)) as Hvalid.
  vm_compute in Hvalid. vm_compute. exact (proj1 Hvalid).
Defined.

(** ** The hit-boxes of a page *)

Lemma list_ascii_of_string_app (s1 s2 : string) :
  list_ascii_of_string (String.append s1 s2)
  = list_ascii_of_string s1 ++ list_ascii_of_string s2.
Proof. induction s1 as [|c s1 IH]; simpl; [reflexivity|]. rewrite IH. reflexivity. Qed.

Lemma chars_of_block_elem (block cb : TextBlock) :
  cb ∈ PDFDisplayWidget.chars_of_block block ->
  y (rect cb) = y (rect block) /\ height (rect cb) = height (rect block).
Proof.
  unfold PDFDisplayWidget.chars_of_block.
  destruct (text block) as [|c0 t]; [intros H; inversion H|].
  cbv zeta. intros H. apply elem_of_lookup_imap in H as (i & c & -> & _).
  split; reflexivity.
Qed.

Lemma imap_char_block_texts (block : TextBlock) (char_width : float)
    (chars : list ascii) : forall k,
  text <$> imap (fun i => PDFDisplayWidget.char_block block char_width (k + i)) chars
  = (fun c => String c EmptyString) <$> chars.
Proof.
  induction chars as [|c chars IH]; intros k; [reflexivity|].
  cbn [imap fmap list_fmap]. f_equal.
  rewrite <- (IH (S k)). unfold compose. f_equal.
  apply imap_ext. intros i x _. rewrite Nat.add_succ_r. reflexivity.
Qed.

Lemma chars_of_block_texts (block : TextBlock) :
  text <$> PDFDisplayWidget.chars_of_block block
  = (fun c => String c EmptyString) <$> list_ascii_of_string (text block).
Proof.
  unfold PDFDisplayWidget.chars_of_block.
  destruct (text block) as [|c0 t] eqn:Ht; [reflexivity|]. cbv zeta.
  apply (imap_char_block_texts block _ (list_ascii_of_string (String c0 t)) 0).
Qed.

Lemma texts_of_chars (boxes : list TextBlock) (chars : list ascii) :
  text <$> boxes = (fun c => String c EmptyString) <$> chars ->
  texts_of boxes = string_of_list_ascii chars.
Proof.
  revert chars. induction boxes as [|b boxes IH]; intros [|c chars] H;
    try discriminate; [reflexivity|].
  cbn [fmap list_fmap] in H. injection H as Hb Hrest.
  cbn [texts_of foldr string_of_list_ascii]. fold (texts_of boxes).
  rewrite Hb, (IH chars Hrest). reflexivity.
Qed.

Lemma set_text_blocks_texts (blocks : list TextBlock) :
  text <$> PDFDisplayWidget.set_text_blocks blocks
  = (fun c => String c EmptyString) <$> list_ascii_of_string (texts_of blocks).
Proof.
  unfold PDFDisplayWidget.set_text_blocks.
  induction blocks as [|b blocks IH]; [reflexivity|].
  cbn [flat_map texts_of foldr]. fold (texts_of blocks).
  rewrite fmap_app, IH, chars_of_block_texts, list_ascii_of_string_app, fmap_app.
  reflexivity.
Qed.

Lemma set_text_blocks_elem (blocks : list TextBlock) (cb : TextBlock) :
  cb ∈ PDFDisplayWidget.set_text_blocks blocks ->
  exists block, block ∈ blocks
                /\ y (rect cb) = y (rect block)
                /\ height (rect cb) = height (rect block).
Proof.
  unfold PDFDisplayWidget.set_text_blocks. intros H.
  apply list_elem_of_In, in_flat_map in H as (block & Hblock & Hcb).
  exists block. split; [apply list_elem_of_In, Hblock|].
  apply chars_of_block_elem, list_elem_of_In, Hcb.
Qed.

Lemma set_text_blocks_single_chars (blocks : list TextBlock) :
  single_chars (PDFDisplayWidget.set_text_blocks blocks).
Proof.
  unfold single_chars. apply Forall_lookup. intros i cb Hcb.
  pose proof (set_text_blocks_texts blocks) as Htexts.
  assert (Hi : (text <$> PDFDisplayWidget.set_text_blocks blocks) !! i
               = Some (text cb)) by (rewrite list_lookup_fmap, Hcb; reflexivity).
  rewrite Htexts, list_lookup_fmap in Hi.
  destruct (list_ascii_of_string (texts_of blocks) !! i) as [c|]; [|discriminate].
  exists c. injection Hi as <-. reflexivity.
Qed.

(** X19: [set_text_blocks] keeps one hit-box per character of the spans,
    in reading order: the texts of the hit-boxes are the characters of the
    joined span texts (a span without text gives none), and every hit-box
    has the vertical position and the height of a span. *)
Theorem set_text_blocks_one_box_per_character (blocks : list TextBlock) :
  text <$> PDFDisplayWidget.set_text_blocks blocks
  = (fun c => String c EmptyString) <$> list_ascii_of_string (texts_of blocks)
  /\ len (PDFDisplayWidget.set_text_blocks blocks)
     = Z.of_nat (String.length (texts_of blocks))
  /\ Forall (fun cb => exists block, block ∈ blocks
                                     /\ y (rect cb) = y (rect block)
                                     /\ height (rect cb) = height (rect block))
            (PDFDisplayWidget.set_text_blocks blocks).
Proof.
  split; [apply set_text_blocks_texts|]. split.
  - unfold len. f_equal.
    rewrite <- (length_fmap text), set_text_blocks_texts, length_fmap.
    apply length_list_ascii_of_string.
  - apply Forall_forall. intros cb Hcb. apply set_text_blocks_elem. exact Hcb.
Qed.

(** X20: Selecting all hit-boxes that [set_text_blocks] made of the spans
    of a page hands the joined text of the spans to the main window. *)
Theorem selecting_everything_gives_the_page_text (blocks : list TextBlock) :
  texts_of blocks <> EmptyString ->
  PDFDisplayWidget.selected_text (PDFDisplayWidget.set_text_blocks blocks)
    0 (len (PDFDisplayWidget.set_text_blocks blocks) - 1)
  = Ok (texts_of blocks).
Proof.
  intros Hne.
  set (tb := PDFDisplayWidget.set_text_blocks blocks).
  assert (Hlen : len tb = Z.of_nat (String.length (texts_of blocks))).
  { unfold len, tb. f_equal.
    rewrite <- (length_fmap text), set_text_blocks_texts, length_fmap.
    apply length_list_ascii_of_string. }
  assert (Hpos : 0 < len tb).
  { rewrite Hlen. destruct (texts_of blocks); [contradiction|simpl; lia]. }
  rewrite selected_text_in_range by lia. f_equal.
  unfold selected_boxes. rewrite Z.min_l, Z.max_r by lia.
  rewrite drop_0, take_ge by (unfold len in *; lia).
  rewrite (texts_of_chars tb (list_ascii_of_string (texts_of blocks)))
    by apply set_text_blocks_texts.
  apply string_of_list_ascii_of_string.
Qed.

Lemma selecting_everything_gives_the_page_text_witness :
  let blocks := [hit_box "ab" 0 0; hit_box "" 20 0; hit_box "c" 30 12] in
  PDFDisplayWidget.selected_text (PDFDisplayWidget.set_text_blocks blocks)
    0 (len (PDFDisplayWidget.set_text_blocks blocks) - 1)
  = Ok "abc"%string.
Proof.
  intros blocks.
  apply (selecting_everything_gives_the_page_text blocks). discriminate.
Defined.

Lemma on_line_same_row (y_line : Z) (b cb : TextBlock) :
  y (rect cb) = y (rect b) -> height (rect cb) = height (rect b) ->
  on_line y_line b -> on_line y_line cb.
Proof.
  unfold on_line, MainWindow.new_line. intros -> ->. exact id.
Qed.

(** X21: When all spans of a page are on one line (the same [int(y)], no
    negative height), every selection that starts within the hit-boxes
    made by [set_text_blocks] is highlighted with exactly one rectangle,
    the extent of the selected hit-boxes. *)
Theorem spans_on_one_line_give_one_rectangle
    (blocks : list TextBlock) (s e : Z) (zoom : float) (y_line : Z) :
  Forall (on_line y_line) blocks ->
  0 <= Z.min s e < len (PDFDisplayWidget.set_text_blocks blocks) ->
  PrimFloat.eqb zoom 0 = false ->
  exists b others,
    selected_boxes (PDFDisplayWidget.set_text_blocks blocks) (Z.min s e) (Z.max s e)
    = b :: others
    /\ MainWindow.selected_rects (PDFDisplayWidget.set_text_blocks blocks) s e zoom
       = Ok [line_extent (rect b) (rect <$> others) zoom].
Proof.
  intros Hblocks Hmin Hz.
  set (tb := PDFDisplayWidget.set_text_blocks blocks) in *.
  assert (Hrow : Forall (on_line y_line) tb).
  { apply Forall_forall. intros cb Hcb.
    destruct (set_text_blocks_elem blocks cb Hcb) as (block & Hblock & Hy & Hh).
    apply (on_line_same_row y_line block cb Hy Hh).
    rewrite Forall_forall in Hblocks. apply Hblocks, Hblock. }
  destruct (selection_indices tb (Z.min s e) (Z.max s e + 1 - Z.min s e)
              Hmin ltac:(lia))
    as (Htb & Hprefix & Hne & Hseq & Hstop).
  fold (selected_boxes tb (Z.min s e) (Z.max s e)) in Htb, Hne, Hseq, Hstop.
  assert (Hline : Forall (on_line y_line) (selected_boxes tb (Z.min s e) (Z.max s e))).
  { unfold selected_boxes. apply Forall_take, Forall_drop, Hrow. }
  destruct (selected_boxes tb (Z.min s e) (Z.max s e)) as [|b others];
    [contradiction|].
  exists b, others. split; [reflexivity|].
  unfold MainWindow.selected_rects. rewrite Hseq.
  replace (seqZ (Z.min s e) (len (b :: others)))
    with (seqZ (len (take (Z.to_nat (Z.min s e)) tb)) (len (b :: others)))
    by (rewrite Hprefix; reflexivity).
  rewrite (group_one_line tb _ b others _ _ zoom y_line Htb Hline).
  rewrite group_lines_stop by exact Hstop.
  apply close_line_extent, Hz.
Qed.

Lemma spans_on_one_line_give_one_rectangle_witness :
  let blocks := [hit_box "ab" 0 0; hit_box "" 20 0; hit_box "cd" 30 0] in
  exists b others,
    selected_boxes (PDFDisplayWidget.set_text_blocks blocks) (Z.min 1 2) (Z.max 1 2)
    = b :: others
    /\ MainWindow.selected_rects (PDFDisplayWidget.set_text_blocks blocks) 1 2 1.5%float
       = Ok [line_extent (rect b) (rect <$> others) 1.5%float].
Proof.
  intros blocks.
  apply (spans_on_one_line_give_one_rectangle blocks 1 2 1.5%float 0).
  - repeat constructor.
  - vm_compute. split; [discriminate|reflexivity].
  - reflexivity.
Defined.

(** ** The document search *)

Lemma startswith_spec (sub : list ascii) : forall text,
  Str.startswith text sub = true <-> take (length sub) text = sub.
Proof.
  induction sub as [|c sub IH]; intros text; cbn [Str.startswith length take].
  - destruct text; split; reflexivity.
  - destruct text as [|d text]; cbn [Str.startswith take]; [split; discriminate|].
    rewrite andb_true_iff, IH, Ascii.eqb_eq. split.
    + intros [-> ->]. reflexivity.
    + intros H. injection H as -> H. split; [reflexivity|exact H].
Qed.

Lemma startswith_empty (text : list ascii) : Str.startswith text [] = true.
Proof. destruct text; reflexivity. Qed.

Lemma occurs_at_in_range (text sub : list ascii) (k : nat) :
  occurs_at text sub k -> sub <> [] -> (k + length sub <= length text)%nat.
Proof.
  unfold occurs_at. intros H Hne.
  assert (Hlen : length (take (length sub) (drop k text)) = length sub)
    by (rewrite H; reflexivity).
  rewrite length_take, length_drop in Hlen.
  assert (Hpos : (0 < length sub)%nat) by (destruct sub; [contradiction|simpl; lia]).
  lia.
Qed.

Lemma str_find_from_spec (text sub suffix : list ascii) :
  forall i, drop i text = suffix -> (i <= length text)%nat ->
  match Str.find_from sub suffix i with
  | Some n =>
      (i <= n <= length text)%nat
      /\ occurs_at text sub n
      /\ forall m, (i <= m < n)%nat -> ~ occurs_at text sub m
  | None =>
      sub <> [] /\ forall m, (i <= m)%nat -> ~ occurs_at text sub m
  end.
Proof.
  induction suffix as [|d suffix IH]; intros i Hdrop Hi.
  - unfold Str.find_from.
    destruct (Str.startswith [] sub) eqn:Hstart.
    + split; [lia|]. split; [|intros m Hm; lia].
      unfold occurs_at. rewrite Hdrop. apply startswith_spec, Hstart.
    + assert (Hne : sub <> []) by (intros ->; discriminate).
      split; [exact Hne|]. intros m Hm Hocc.
      apply occurs_at_in_range in Hocc; [|exact Hne].
      assert (Hlen : length (drop i text) = 0%nat) by (rewrite Hdrop; reflexivity).
      rewrite length_drop in Hlen.
      destruct sub; [contradiction|]. simpl in Hocc. lia.
  - cbn [Str.find_from].
    destruct (Str.startswith (d :: suffix) sub) eqn:Hstart.
    + split; [lia|]. split; [|intros m Hm; lia].
      unfold occurs_at. rewrite Hdrop. apply startswith_spec, Hstart.
    + assert (Hd : text !! i = Some d).
      { rewrite <- (Nat.add_0_r i), <- lookup_drop, Hdrop. reflexivity. }
      assert (Hnext : drop (S i) text = suffix).
      { rewrite (drop_S _ _ _ Hd) in Hdrop. injection Hdrop as ->. reflexivity. }
      assert (Hhere : ~ occurs_at text sub i).
      { unfold occurs_at. rewrite Hdrop. intros H.
        apply startswith_spec in H. rewrite H in Hstart. discriminate. }
      apply lookup_lt_Some in Hd.
      specialize (IH (S i) Hnext ltac:(lia)).
      destruct (Str.find_from sub suffix (S i)) as [n|].
      * destruct IH as (Hn & Hocc & Hbefore). split; [lia|]. split; [exact Hocc|].
        intros m Hm. destruct (Nat.eq_dec m i) as [->|Hne]; [exact Hhere|].
        apply Hbefore. lia.
      * destruct IH as (Hne & Hnone). split; [exact Hne|].
        intros m Hm. destruct (Nat.eq_dec m i) as [->|Hmi]; [exact Hhere|].
        apply Hnone. lia.
Qed.

Lemma str_find_spec (text sub : list ascii) (start : Z) :
  0 <= start -> sub <> [] ->
  (Str.find text sub start = -1
   /\ forall k, start <= Z.of_nat k -> ~ occurs_at text sub k)
  \/ (start <= Str.find text sub start
      /\ Str.find text sub start + len sub <= len text
      /\ occurs_at text sub (Z.to_nat (Str.find text sub start))
      /\ forall k, start <= Z.of_nat k < Str.find text sub start ->
                   ~ occurs_at text sub k).
Proof.
  intros Hstart Hne. unfold Str.find.
  assert (Hn : (start <? 0) = false) by (apply Z.ltb_ge; lia).
  rewrite Hn. cbv zeta.
  destruct (len text <? start) eqn:Hbeyond.
  - apply Z.ltb_lt in Hbeyond. left. split; [reflexivity|].
    intros k Hk Hocc. apply occurs_at_in_range in Hocc; [|exact Hne].
    unfold len in Hbeyond. lia.
  - apply Z.ltb_ge in Hbeyond. unfold len in Hbeyond.
    pose proof (str_find_from_spec text sub (drop (Z.to_nat start) text)
                  (Z.to_nat start) eq_refl ltac:(lia)) as Hspec.
    destruct (Str.find_from sub (drop (Z.to_nat start) text) (Z.to_nat start))
      as [n|].
    + destruct Hspec as (Hrange & Hocc & Hbefore). right.
      pose proof (occurs_at_in_range _ _ _ Hocc Hne) as Hin.
      rewrite Nat2Z.id. unfold len.
      split; [lia|]. split; [lia|]. split; [exact Hocc|].
      intros k Hk. apply Hbefore. lia.
    + destruct Hspec as (_ & Hnone). left. split; [reflexivity|].
      intros k Hk. apply Hnone. lia.
Qed.

Lemma str_find_empty (text : list ascii) (start : Z) :
  0 <= start <= len text -> Str.find text [] start = start.
Proof.
  intros Hstart. unfold Str.find.
  assert (Hn : (start <? 0) = false) by (apply Z.ltb_ge; lia).
  assert (Hin : (len text <? start) = false) by (apply Z.ltb_ge; lia).
  rewrite Hn. cbv zeta. rewrite Hin.
  destruct (drop (Z.to_nat start) text); cbn [Str.find_from Str.startswith]; lia.
Qed.

Lemma find_matches_empty_query (fuel : nat) (page_num : Z) (text : list ascii) :
  forall search_results,
    Search.find_matches fuel page_num text [] 0 search_results = None.
Proof.
  induction fuel as [|fuel IH]; intros search_results; [reflexivity|].
  cbn [Search.find_matches]. cbv zeta.
  rewrite str_find_empty by (pose proof (len_nonneg text); lia).
  cbn [Z.eqb]. change (0 + len []) with 0. apply IH.
Qed.

(** X22: With an empty search text and at least one page, the loop of
    [perform_search] over the first page never ends: no number of rounds
    suffices, since [find] keeps returning the same index. *)
Theorem search_for_empty_text_never_ends
    (lower : list ascii -> list ascii) (fuel : nat)
    (page_text_data : list (list ascii)) (field_text : list ascii) :
  lower field_text = [] -> page_text_data <> [] ->
  Search.perform_search lower fuel page_text_data field_text = None.
Proof.
  intros Hquery Hpages. unfold Search.perform_search. rewrite Hquery.
  destruct page_text_data as [|text texts]; [contradiction|].
  cbn [Search.search_pages]. unfold Str.contains.
  rewrite str_find_empty by (pose proof (len_nonneg (lower text)); lia).
  cbn [Z.eqb negb]. rewrite find_matches_empty_query. reflexivity.
Qed.

Lemma search_for_empty_text_never_ends_witness :
  Search.perform_search ascii_lower 1000 [list_ascii_of_string "Some text"] [] = None.
Proof.
  apply search_for_empty_text_never_ends; [reflexivity|discriminate].
Defined.

Lemma find_matches_spec (page_num : Z) (text query : list ascii) :
  query <> [] ->
  forall fuel start_idx search_results,
    0 <= start_idx ->
    Z.max 0 (len text - start_idx) < Z.of_nat fuel ->
    exists new,
      Search.find_matches fuel page_num text query start_idx search_results
      = Some (search_results ++ new)
      /\ Forall (fun r => r.1.1 = page_num /\ start_idx <= r.1.2
                          /\ r.2 = r.1.2 + len query
                          /\ occurs_at text query (Z.to_nat r.1.2)) new
      /\ StronglySorted before new
      /\ forall k, start_idx <= Z.of_nat k -> occurs_at text query k ->
           Exists (fun r => r.1.2 <= Z.of_nat k < r.2) new.
Proof.
  intros Hne. induction fuel as [|fuel IH];
    intros start_idx search_results Hstart Hfuel; [lia|].
  cbn [Search.find_matches]. cbv zeta.
  destruct (str_find_spec text query start_idx Hstart Hne)
    as [(Hidx & Hnone)|(Hle & Hin & Hocc & Hbefore)].
  - rewrite Hidx. cbn [Z.eqb Pos.eqb]. exists [].
    rewrite app_nil_r. split; [reflexivity|]. split; [constructor|].
    split; [constructor|]. intros k Hk Hoccurs. destruct (Hnone k Hk Hoccurs).
  - set (idx := Str.find text query start_idx) in *.
    assert (Hlen : 0 < len query).
    { unfold len. destruct query; [contradiction|simpl; lia]. }
    assert (Hfound : (idx =? -1) = false) by (apply Z.eqb_neq; lia).
    rewrite Hfound.
    destruct (IH (idx + len query) (search_results ++ [(page_num, idx, idx + len query)])
                ltac:(lia) ltac:(lia))
      as (new & Hrun & Hall & Hsorted & Hcover).
    exists ((page_num, idx, idx + len query) :: new).
    rewrite Hrun, <- app_assoc. split; [reflexivity|]. split; [|split].
    + constructor; [cbn; repeat split; [lia|exact Hocc]|].
      eapply Forall_impl; [exact Hall|].
      cbv beta. intros r (Hp & Hr & Hend & Hro). repeat split; try assumption. lia.
    + constructor; [exact Hsorted|].
      eapply Forall_impl; [exact Hall|].
      cbv beta. intros r (Hp & Hr & _). right. cbn. split; [symmetry; exact Hp|exact Hr].
    + intros k Hk Hoccurs.
      destruct (Z.lt_ge_cases (Z.of_nat k) idx) as [Hlt|Hge];
        [destruct (Hbefore k ltac:(lia) Hoccurs)|].
      destruct (Z.lt_ge_cases (Z.of_nat k) (idx + len query)) as [Hinside|Hafter].
      * apply Exists_cons_hd. cbn. lia.
      * apply Exists_cons_tl. apply Hcover; [lia|exact Hoccurs].
Qed.

Lemma contains_false (text query : list ascii) :
  query <> [] -> Str.contains text query = false ->
  forall k, ~ occurs_at text query k.
Proof.
  unfold Str.contains. intros Hne Hfind k.
  apply negb_false_iff, Z.eqb_eq in Hfind.
  destruct (str_find_spec text query 0 ltac:(lia) Hne) as [(_ & Hnone)|(Hle & _)];
    [apply Hnone; lia|lia].
Qed.

Lemma search_pages_spec (lower : list ascii -> list ascii) (query : list ascii)
    (fuel : nat) :
  query <> [] ->
  forall texts page_num search_results,
    0 <= page_num ->
    Forall (fun text => len (lower text) < Z.of_nat fuel) texts ->
    exists new,
      Search.search_pages lower fuel texts page_num query search_results
      = Some (search_results ++ new)
      /\ Forall (fun r => page_num <= r.1.1 /\ 0 <= r.1.2
                          /\ r.2 = r.1.2 + len query
                          /\ exists text,
                               texts !! Z.to_nat (r.1.1 - page_num) = Some text
                               /\ occurs_at (lower text) query (Z.to_nat r.1.2)) new
      /\ StronglySorted before new
      /\ forall p text k, texts !! p = Some text ->
           occurs_at (lower text) query k ->
           Exists (fun r => r.1.1 = page_num + Z.of_nat p
                            /\ r.1.2 <= Z.of_nat k < r.2) new.
Proof.
  intros Hne. induction texts as [|text texts IH];
    intros page_num search_results Hpage Hfuel.
  - exists []. rewrite app_nil_r. split; [reflexivity|]. split; [constructor|].
    split; [constructor|]. intros p text k Hp. discriminate.
  - apply Forall_cons in Hfuel as [Hfuel1 Hfuel]. cbv beta in Hfuel1.
    pose proof (len_nonneg (lower text)) as Hlen.
    cbn [Search.search_pages].
    assert (Hshift : forall new,
      Forall (fun r => page_num + 1 <= r.1.1 /\ 0 <= r.1.2
                       /\ r.2 = r.1.2 + len query
                       /\ exists text',
                            texts !! Z.to_nat (r.1.1 - (page_num + 1)) = Some text'
                            /\ occurs_at (lower text') query (Z.to_nat r.1.2)) new ->
      Forall (fun r => page_num <= r.1.1 /\ 0 <= r.1.2
                       /\ r.2 = r.1.2 + len query
                       /\ exists text',
                            (text :: texts) !! Z.to_nat (r.1.1 - page_num) = Some text'
                            /\ occurs_at (lower text') query (Z.to_nat r.1.2)) new).
    { intros new Hall. eapply Forall_impl; [exact Hall|]. cbv beta.
      intros r (Hp & Hi & Hend & text' & Htext' & Hocc).
      split; [lia|]. split; [exact Hi|]. split; [exact Hend|].
      exists text'. split; [|exact Hocc].
      replace (Z.to_nat (r.1.1 - page_num))
        with (S (Z.to_nat (r.1.1 - (page_num + 1)))) by lia.
      exact Htext'. }
    destruct (Str.contains (lower text) query) eqn:Hcontains.
    + destruct (find_matches_spec page_num (lower text) query Hne fuel 0
                  search_results ltac:(lia) ltac:(lia))
        as (new1 & Hrun1 & Hall1 & Hsorted1 & Hcover1).
      rewrite Hrun1.
      destruct (IH (page_num + 1) (search_results ++ new1) ltac:(lia) Hfuel)
        as (new2 & Hrun2 & Hall2 & Hsorted2 & Hcover2).
      exists (new1 ++ new2). rewrite Hrun2, <- app_assoc.
      split; [reflexivity|]. split; [|split].
      * apply Forall_app. split; [|apply Hshift, Hall2].
        eapply Forall_impl; [exact Hall1|]. cbv beta.
        intros r (Hp & Hi & Hend & Hocc).
        split; [lia|]. split; [exact Hi|]. split; [exact Hend|].
        exists text. rewrite Hp, Z.sub_diag. split; [reflexivity|exact Hocc].
      * apply StronglySorted_app_2; [|exact Hsorted1|exact Hsorted2].
        intros r1 r2 Hr1 Hr2. left.
        rewrite Forall_forall in Hall1, Hall2.
        destruct (Hall1 r1 Hr1) as (Hp1 & _). destruct (Hall2 r2 Hr2) as (Hp2 & _).
        lia.
      * intros [|p] text' k Hp Hocc; cbn in Hp.
        -- injection Hp as <-. apply Exists_app. left.
           pose proof (Hcover1 k ltac:(lia) Hocc) as Hex.
           rewrite Exists_exists in Hex. destruct Hex as (r & Hr & Hk).
           apply Exists_exists. exists r. split; [exact Hr|].
           rewrite Forall_forall in Hall1. destruct (Hall1 r Hr) as (Hpr & _).
           split; [lia|exact Hk].
        -- apply Exists_app. right.
           pose proof (Hcover2 p text' k Hp Hocc) as Hex.
           eapply Exists_impl; [exact Hex|]. cbv beta. intros r (Hpr & Hk).
           split; [lia|exact Hk].
    + destruct (IH (page_num + 1) search_results ltac:(lia) Hfuel)
        as (new2 & Hrun2 & Hall2 & Hsorted2 & Hcover2).
      exists new2. split; [exact Hrun2|]. split; [apply Hshift, Hall2|].
      split; [exact Hsorted2|].
      intros [|p] text' k Hp Hocc; cbn in Hp.
      * injection Hp as <-. destruct (contains_false _ _ Hne Hcontains k Hocc).
      * pose proof (Hcover2 p text' k Hp Hocc) as Hex.
        eapply Exists_impl; [exact Hex|]. cbv beta. intros r (Hpr & Hk).
        split; [lia|exact Hk].
Qed.

(** X23: With a search text that is not empty, [perform_search] ends
    (more rounds than the longest page has characters suffice) and its
    results are exactly a leftmost, non-overlapping cover of the
    occurrences: every result is an occurrence of the lower-cased search
    text in the lower-cased text of its page, the results are in page
    order and do not overlap within a page, and every occurrence on every
    page is overlapped by a result. *)
Theorem perform_search_finds_every_occurrence
    (lower : list ascii -> list ascii) (fuel : nat)
    (page_text_data : list (list ascii)) (field_text : list ascii) :
  lower field_text <> [] ->
  Forall (fun text => len (lower text) < Z.of_nat fuel) page_text_data ->
  exists search_results,
    Search.perform_search lower fuel page_text_data field_text = Some search_results
    /\ Forall (is_hit lower page_text_data (lower field_text)) search_results
    /\ StronglySorted before search_results
    /\ forall p text k, page_text_data !! p = Some text ->
         occurs_at (lower text) (lower field_text) k ->
         Exists (covers p k) search_results.
Proof.
  intros Hne Hfuel. unfold Search.perform_search.
  destruct (search_pages_spec lower (lower field_text) fuel Hne page_text_data 0 []
              ltac:(lia) Hfuel)
    as (new & Hrun & Hall & Hsorted & Hcover).
  exists new. split; [exact Hrun|]. split; [|split; [exact Hsorted|]].
  - eapply Forall_impl; [exact Hall|]. cbv beta.
    intros r (Hp & Hi & Hend & text & Htext & Hocc). unfold is_hit.
    rewrite Z.sub_0_r in Htext.
    split; [exact Hp|]. split; [exact Hi|]. split; [exact Hend|].
    exists text. split; assumption.
  - intros p text k Hp Hocc.
    eapply Exists_impl; [exact (Hcover p text k Hp Hocc)|]. cbv beta.
    intros r (Hpr & Hk). unfold covers. split; [lia|exact Hk].
Qed.

Lemma perform_search_finds_every_occurrence_witness :
  Search.perform_search ascii_lower 20
    [list_ascii_of_string "Banana"; list_ascii_of_string "none";
     list_ascii_of_string "ANAnas"]
    (list_ascii_of_string "Ana")
  = Some [(0, 1, 4); (2, 0, 3)].
Proof.
  destruct (perform_search_finds_every_occurrence ascii_lower 20
              [list_ascii_of_string "Banana"; list_ascii_of_string "none";
               list_ascii_of_string "ANAnas"]
              (list_ascii_of_string "Ana"))
    as (results & Hrun & _).
  - discriminate.
  - repeat constructor.
  - rewrite Hrun. vm_compute in Hrun. symmetry. exact Hrun.
Defined.

(** ** The history and any command *)

Section AnyCommand.
Context {C : Type} `{Command C}.

Lemma push_len (max_stack_size : Z) (stack : list C) (command : C) :
  len (CommandHistory.push max_stack_size stack command) <= len stack + 1.
Proof.
  unfold CommandHistory.push. cbv zeta.
  destruct (len (stack ++ [command]) >? max_stack_size).
  - unfold len. rewrite length_drop, length_app. simpl. lia.
  - rewrite len_app. unfold len. simpl. lia.
Qed.

(** X24: [will_lose_redo_history] predicts [execute] exactly: the redo
    stack is changed by [execute] if and only if the check returned [True]
    beforehand and the command's [execute] returned [True]. *)
Theorem redo_history_is_lost_iff_warned
    (self : CommandHistory.t C) (command : C) (w : World) :
  CommandHistory.redo_stack (CommandHistory.execute self command w).1.2
  <> CommandHistory.redo_stack self
  <-> CommandHistory.will_lose_redo_history self = true
      /\ (CommandHistory.execute self command w).1.1 = Ok true.
Proof.
  unfold CommandHistory.execute, CommandHistory.will_lose_redo_history.
  assert (Hlen : (len (CommandHistory.redo_stack self) >? 0) = true
                 <-> CommandHistory.redo_stack self <> []).
  { rewrite Z.gtb_lt. unfold len.
    destruct (CommandHistory.redo_stack self); simpl; split;
      try lia; try congruence. }
  rewrite Hlen.
  destruct (command_execute command w) as [[[[|]|exn] command'] w']; cbn.
  - split; [intros Hne; split; [congruence|reflexivity]|intros [Hne _]; congruence].
  - split; [intros Hne; contradiction|intros [_ Hr]; discriminate].
  - split; [intros Hne; contradiction|intros [_ Hr]; discriminate].
Qed.

(** X25: [undo] and [redo] never add a command to the history: the two
    stacks together hold at most as many commands afterwards as before; and
    when a command was taken from a stack and its method did not return
    [True], the command is lost: they hold one command less. *)
Theorem undo_and_redo_never_grow_the_history
    (self : CommandHistory.t C) (w : World) :
  (history_size (CommandHistory.undo self w).1.2 <= history_size self
   /\ (CommandHistory.undo_stack self <> [] ->
       (CommandHistory.undo self w).1.1 <> Ok true ->
       history_size (CommandHistory.undo self w).1.2 = history_size self - 1))
  /\ (history_size (CommandHistory.redo self w).1.2 <= history_size self
      /\ (CommandHistory.redo_stack self <> [] ->
          (CommandHistory.redo self w).1.1 <> Ok true ->
          history_size (CommandHistory.redo self w).1.2 = history_size self - 1)).
Proof.
  unfold history_size. split.
  - unfold CommandHistory.undo.
    destruct (Py.pop (CommandHistory.undo_stack self)) as [[command rest]|] eqn:Hpop.
    + apply pop_Some in Hpop. rewrite Hpop, len_app.
      change (len [command]) with 1.
      pose proof (push_len (CommandHistory.max_stack_size self)
                    (CommandHistory.redo_stack self)) as Hpush.
      destruct (command_undo command w) as [[[[|]|exn] command'] w']; cbn;
        (split; [try specialize (Hpush command'); lia|]); intros _ Hr;
        try lia; contradiction.
    + cbn. split; [lia|]. intros Hne.
      destruct (CommandHistory.undo_stack self); [contradiction|].
      simpl in Hpop. destruct (Py.pop l) as [[? ?]|]; discriminate.
  - unfold CommandHistory.redo.
    destruct (Py.pop (CommandHistory.redo_stack self)) as [[command rest]|] eqn:Hpop.
    + apply pop_Some in Hpop. rewrite Hpop, len_app.
      change (len [command]) with 1.
      pose proof (push_len (CommandHistory.max_stack_size self)
                    (CommandHistory.undo_stack self)) as Hpush.
      destruct (command_execute command w) as [[[[|]|exn] command'] w']; cbn;
        (split; [try specialize (Hpush command'); lia|]); intros _ Hr;
        try lia; contradiction.
    + cbn. split; [lia|]. intros Hne.
      destruct (CommandHistory.redo_stack self); [contradiction|].
      simpl in Hpop. destruct (Py.pop l) as [[? ?]|]; discriminate.
Qed.

End AnyCommand.
